(** * MONGODB-OIDC and PLAIN authenticators of the Go driver

    A shallow embedding of [x/mongo/driver/auth/oidc.go] and
    [x/mongo/driver/auth/plain.go], and of the index names and index options
    of [mongo/index_view.go].

    - Go structs are records, one module per struct so that the fields keep
      their Go names.
    - [uint64] is [N] with the wrap-around of [++] written out.
    - [map[string]string] is a [gmap string string]; a nil map is [None].
    - The authenticator is one shared object ([*OIDCAuthenticator]); it lives
      in the [World] together with the connections' token-generation slots,
      and every method is a state transformer on the [World].
    - Whatever the package talks to (user callbacks, the HTTP client, the
      server at the other end of a connection) is an oracle of the [World]:
      a function of the interaction trace so far.  Every interaction is
      logged in that trace, which is what the counting statements read. *)

From Stdlib Require Import Ascii String NArith ZArith Lia List DecimalString.
From stdpp Require Import base option list gmap strings.

Set Warnings "-register-all".

Local Open Scope string_scope.
Local Open Scope N_scope.

(** ** Machine integers *)

Module uint64.
Definition modulus : N := 2 ^ 64.
Definition max : N := modulus - 1.
Definition wrap (n : N) : N := n mod modulus.
(** [x++] on a [uint64]. *)
Definition incr (n : N) : N := wrap (n + 1).
End uint64.

(** ** Strings *)

(** [strings.ToLower], on bytes.  The Go function also maps non-ASCII upper
    case letters; none of them lowers to a string made of the letters of
    [azure], [gcp] or [test], which are the only strings the result is
    compared with below, so the byte-wise map decides the same [switch]. *)
Definition lower_ascii (c : ascii) : ascii :=
  let n := N_of_ascii c in
  if (65 <=? n) && (n <=? 90) then ascii_of_N (n + 32) else c.

Fixpoint ToLower (s : string) : string :=
  match s with
  | EmptyString => EmptyString
  | String c s' => String (lower_ascii c) (ToLower s')
  end.

(** A Go map that may be nil.  Reading a nil map finds nothing. *)
Definition go_map : Type := option (gmap string string).

Definition map_index (m : go_map) (k : string) : option string :=
  match m with
  | None => None
  | Some m => m !! k
  end.

(** ** Constants of oidc.go and plain.go *)

Definition MongoDBOIDC : string := "MONGODB-OIDC".
Definition PLAIN : string := "PLAIN".
Definition environmentProp : string := "ENVIRONMENT".
Definition resourceProp : string := "TOKEN_RESOURCE".
Definition azureEnvironmentValue : string := "azure".
Definition gcpEnvironmentValue : string := "gcp".
Definition testEnvironmentValue : string := "test".
Definition apiVersion : Z := 1.
(** Durations are in nanoseconds, as [time.Duration] is. *)
Definition invalidateSleepTimeout : Z := 100 * 1000000.
Definition machineCallbackTimeout : Z := 60 * 1000000000.

(** ** Types of the [driver] package used by the authenticator *)

(** Modelled from the spec: [driver.IDPInfo] is declared outside the files
    at hand; the spec only calls it identity-provider metadata reserved for
    the human flow, so it is kept as an opaque description. *)
Module IDPInfo.
Record t : Type := { description : string }.
End IDPInfo.

Module OIDCArgs.
Record t : Type := {
  Version : Z;
  IDPInfo : option IDPInfo.t;
  RefreshToken : option string;
}.
End OIDCArgs.

Module OIDCCredential.
Record t : Type := {
  AccessToken : string;
  ExpiresAt : option Z;
  RefreshToken : option string;
}.
End OIDCCredential.

(** [*http.Client]: only its identity matters here. *)
Definition http_Client : Type := option nat.

(** [context.Context], as the chain of [context.WithTimeout] calls that
    built it. *)
Inductive context : Type :=
| ctxRoot (id : nat)
| ctxWithTimeout (parent : context) (timeout : Z).

(** A callback is a Go function value.  The three ways this package comes
    by one: the user's function, the closure that [getAzureOIDCCallback]
    returns, and the closure of the [gcp] case of [providerCallback]. *)
Inductive OIDCCallback : Type :=
| userCallback (id : nat)
| azureCallback (clientID resource : string) (httpClient : http_Client)
| gcpCallback (env : string).

(** ** Errors *)

(** An argument of a [fmt] verb. *)
Inductive fmt_arg : Type :=
| fmtString (s : string)
| fmtInt (n : Z)
| fmtIDPInfo (i : option IDPInfo.t).

(** The text of a [fmt.Sprintf] or [fmt.Errorf] call, kept as the format
    and its arguments. *)
Record message : Type := Sprintf { format : string; args : list fmt_arg }.

Definition literal (s : string) : message := Sprintf s [].

Inductive error : Type :=
| authError (msg : message) (inner : option error)
    (** the [*auth.Error] that [newAuthError] builds *)
| Errorf (msg : message) (wrapped : option error)
    (** [fmt.Errorf]; [wrapped] is the operand of a [%w] verb *)
| protocolError (msg : message)
    (** a protocol violation found by the conversation engine *)
| foreignError (id : nat)
    (** an error made outside this package: by a callback, the HTTP
        client or the transport *).

Definition newAuthError (msg : message) (inner : option error) : error :=
  authError msg inner.

(** ** BSON documents and byte slices *)

(** A [bsoncore] document by its elements, in order; the byte layout is the
    business of [bsoncore]. *)
Inductive bson_value : Type :=
| bsonString (s : string).

Definition Document : Type := list (string * bson_value).

Module DocumentBuilder.
Definition NewDocumentBuilder : Document := [].
Definition AppendString (b : Document) (key value : string) : Document :=
  (b ++ [(key, bsonString value)])%list.
Definition Build (b : Document) : Document := b.
End DocumentBuilder.

(** A [[]byte]: the bytes of a Go string, or a built document. *)
Inductive bytes : Type :=
| nil_bytes
| bytes_of_string (s : string)
| bytes_of_document (d : Document).

(** ** Credentials and the authenticator *)

Module Cred.
Record t : Type := {
  Username : string;
  Password : string;
  Props : go_map;
  OIDCMachineCallback : option OIDCCallback;
  OIDCHumanCallback : option OIDCCallback;
}.
End Cred.

Module OIDCAuthenticator.
Record t : Type := {
  mu : bool;  (** [sync.Mutex]: [true] while some caller holds it *)
  AuthMechanismProperties : go_map;
  OIDCMachineCallback : option OIDCCallback;
  OIDCHumanCallback : option OIDCCallback;
  userName : string;
  httpClient : http_Client;
  accessToken : string;
  refreshToken : option string;
  idpInfo : option IDPInfo.t;
  tokenGenID : N;
}.

Definition with_mu (b : bool) (oa : t) : t :=
  {| mu := b;
     AuthMechanismProperties := AuthMechanismProperties oa;
     OIDCMachineCallback := OIDCMachineCallback oa;
     OIDCHumanCallback := OIDCHumanCallback oa;
     userName := userName oa; httpClient := httpClient oa;
     accessToken := accessToken oa; refreshToken := refreshToken oa;
     idpInfo := idpInfo oa; tokenGenID := tokenGenID oa |}.

Definition with_accessToken (s : string) (oa : t) : t :=
  {| mu := mu oa;
     AuthMechanismProperties := AuthMechanismProperties oa;
     OIDCMachineCallback := OIDCMachineCallback oa;
     OIDCHumanCallback := OIDCHumanCallback oa;
     userName := userName oa; httpClient := httpClient oa;
     accessToken := s; refreshToken := refreshToken oa;
     idpInfo := idpInfo oa; tokenGenID := tokenGenID oa |}.

Definition with_refreshToken (r : option string) (oa : t) : t :=
  {| mu := mu oa;
     AuthMechanismProperties := AuthMechanismProperties oa;
     OIDCMachineCallback := OIDCMachineCallback oa;
     OIDCHumanCallback := OIDCHumanCallback oa;
     userName := userName oa; httpClient := httpClient oa;
     accessToken := accessToken oa; refreshToken := r;
     idpInfo := idpInfo oa; tokenGenID := tokenGenID oa |}.

Definition with_tokenGenID (g : N) (oa : t) : t :=
  {| mu := mu oa;
     AuthMechanismProperties := AuthMechanismProperties oa;
     OIDCMachineCallback := OIDCMachineCallback oa;
     OIDCHumanCallback := OIDCHumanCallback oa;
     userName := userName oa; httpClient := httpClient oa;
     accessToken := accessToken oa; refreshToken := refreshToken oa;
     idpInfo := idpInfo oa; tokenGenID := g |}.
End OIDCAuthenticator.

(** Modelled from the spec: [driver.Connection] is declared outside the
    files at hand.  The spec gives each connection a token-generation slot,
    an integer that is 0 until the connection receives a token; a
    connection is named here by its index in the table of slots. *)
Definition Connection : Type := nat.

Module Config.
Record t : Type := { Connection : Connection }.
End Config.

(** ** The world outside the package *)

(** The query string of the Azure metadata request; [url.QueryEscape] is
    kept symbolic. *)
Inductive escaped : Type := QueryEscape (s : string).

Record azure_uri : Type := {
  uri_resource : escaped;
  uri_client_id : option string;
}.

(** What the package does to its surroundings, newest first in the trace. *)
Inductive Event : Type :=
| evCallback (cb : OIDCCallback) (ctx : context) (args : OIDCArgs.t)
| evHTTPGet (client : http_Client) (ctx : context) (uri : azure_uri)
    (header : list (string * string))
| evSaslStart (conn : Connection) (source mechanism : string) (payload : bytes)
| evSaslContinue (conn : Connection) (source : string) (cid : Z)
    (payload : bytes)
| evSleep (d : Z).

(** How [http.NewRequestWithContext], [Do] and the JSON decoding of the body
    turn out, one after the other. *)
Inductive http_result : Type :=
| httpNewRequestError (e : error)
| httpDoError (e : error)
| httpResponse (StatusCode : Z) (body : error + string * Z).

(** Modelled from the spec: the server's reply to a conversation request is
    a completion flag, a conversation identifier and a payload; a transport
    failure is an error instead. *)
Inductive ServerReply : Type :=
| replyError (e : error)
| saslResponse (done : bool) (conversationId : Z) (payload : bytes).

(** The surroundings answer as a function of everything that happened so
    far; the request being answered is the head of the trace.  [rounds]
    bounds the continuation requests of one conversation in this model. *)
Record Oracle : Type := {
  callback_result : list Event -> option OIDCCredential.t * option error;
  http_answer : list Event -> http_result;
  server_reply : list Event -> ServerReply;
  rounds : nat;
}.

Record World : Type := {
  authenticator : OIDCAuthenticator.t;
  slots : gmap nat N;
  trace : list Event;
  oracle : Oracle;
}.

Definition with_authenticator (oa : OIDCAuthenticator.t) (w : World) : World :=
  {| authenticator := oa; slots := slots w; trace := trace w;
     oracle := oracle w |}.

Definition with_slots (s : gmap nat N) (w : World) : World :=
  {| authenticator := authenticator w; slots := s; trace := trace w;
     oracle := oracle w |}.

Definition with_trace (t : list Event) (w : World) : World :=
  {| authenticator := authenticator w; slots := slots w; trace := t;
     oracle := oracle w |}.

(** ** Computations *)

Inductive stuck : Type :=
| waitMutex    (** [Lock] on a mutex that nobody will release *)
| outOfRounds  (** the conversation outlasted [rounds] *).

Inductive Outcome (A : Type) : Type :=
| Done (a : A) (w : World)
| Panic (w : World)
| Stuck (why : stuck).
Arguments Done {A} a w.
Arguments Panic {A} w.
Arguments Stuck {A} why.

Definition M (A : Type) : Type := World -> Outcome A.

#[global] Instance M_ret : MRet M := fun A a w => Done a w.

#[global] Instance M_bind : MBind M := fun A B f m w =>
  match m w with
  | Done a w' => f a w'
  | Panic w' => Panic w'
  | Stuck why => Stuck why
  end.

Definition panic {A} : M A := fun w => Panic w.
Definition stick {A} (why : stuck) : M A := fun _ => Stuck why.

Definition load {A} (field : OIDCAuthenticator.t -> A) : M A :=
  fun w => Done (field (authenticator w)) w.

Definition store (update : OIDCAuthenticator.t -> OIDCAuthenticator.t)
  : M unit :=
  fun w => Done tt (with_authenticator (update (authenticator w)) w).

Definition emit (e : Event) : M unit :=
  fun w => Done tt (with_trace (e :: trace w) w).

Definition ask {A} (question : Oracle -> list Event -> A) : M A :=
  fun w => Done (question (oracle w) (trace w)) w.

(** [oa.mu.Lock()]: a caller that finds the mutex held waits. *)
Definition Lock : M unit := fun w =>
  if OIDCAuthenticator.mu (authenticator w) then Stuck waitMutex
  else Done tt (with_authenticator
                  (OIDCAuthenticator.with_mu true (authenticator w)) w).

(** [oa.mu.Unlock()]; unlocking a free mutex is a fatal error in Go. *)
Definition Unlock : M unit := fun w =>
  if OIDCAuthenticator.mu (authenticator w)
  then Done tt (with_authenticator
                  (OIDCAuthenticator.with_mu false (authenticator w)) w)
  else Panic w.

(** [defer cleanup] in front of [body]: [cleanup] runs when [body] returns
    and also when it panics. *)
Definition defer {A} (cleanup : M unit) (body : M A) : M A := fun w =>
  match body w with
  | Done a w' => (cleanup ;; mret a) w'
  | Panic w' =>
      match cleanup w' with
      | Done _ w'' => Panic w''
      | _ => Panic w'
      end
  | Stuck why => Stuck why
  end.

Definition time_Sleep (d : Z) : M unit := emit (evSleep d).

(** [conn.OIDCTokenGenID()] and [conn.SetOIDCTokenGenID(g)]. *)
Definition OIDCTokenGenID (conn : Connection) : M N :=
  fun w => Done (default 0 (slots w !! conn)) w.

Definition SetOIDCTokenGenID (conn : Connection) (g : N) : M unit :=
  fun w => Done tt (with_slots (<[conn := g]> (slots w)) w).

(** ** Invoking a callback *)

(** The body of the closure returned by [getAzureOIDCCallback]. *)
Definition azureCallbackBody (clientID resource : string)
    (httpClient : http_Client) (ctx : context)
  : M (option OIDCCredential.t * option error) :=
  let resource := QueryEscape resource in
  let uri :=
    if decide (clientID <> EmptyString)
    then {| uri_resource := resource; uri_client_id := Some clientID |}
    else {| uri_resource := resource; uri_client_id := None |} in
  let header := [("Metadata", "true"); ("Accept", "application/json")] in
  r ← ask http_answer;
  match r, httpClient with
  | httpNewRequestError err, _ =>
      mret (None, Some (newAuthError
        (literal "error creating http request to Azure Identity Provider")
        (Some err)))
  | _, None => panic  (* [Do] on a nil [*http.Client] *)
  | httpDoError err, Some _ =>
      emit (evHTTPGet httpClient ctx uri header) ;;
      mret (None, Some (newAuthError
        (literal "error getting access token from Azure Identity Provider")
        (Some err)))
  | httpResponse StatusCode body, Some _ =>
      emit (evHTTPGet httpClient ctx uri header) ;;
      if decide (StatusCode <> 200%Z)
      then mret (None, Some (newAuthError
             (Sprintf "failed to get a valid response from Azure Identity Provider, http code: %d"
                [fmtInt StatusCode]) None))
      else match body with
           | inl err =>
               mret (None, Some (newAuthError
                 (literal "failed parsing result from Azure Identity Provider")
                 (Some err)))
           | inr (AccessToken, ExpiresOn) =>
               mret (Some {| OIDCCredential.AccessToken := AccessToken;
                             OIDCCredential.ExpiresAt := Some ExpiresOn;
                             OIDCCredential.RefreshToken := None |},
                     None)
           end
  end.

(** What a callback does once it has been entered. *)
Definition answer (callback : OIDCCallback) (ctx : context)
  : M (option OIDCCredential.t * option error) :=
  match callback with
  | userCallback _ => ask callback_result
  | azureCallback clientID resource httpClient =>
      azureCallbackBody clientID resource httpClient ctx
  | gcpCallback env =>
      mret (None, Some (Errorf
        (Sprintf "automatic token acquisition for %q not implemented yet"
           [fmtString env]) None))
  end.

(** [callback(ctx, args)]: the invocation is logged, then the callback
    runs. *)
Definition call (callback : OIDCCallback) (ctx : context) (args : OIDCArgs.t)
  : M (option OIDCCredential.t * option error) :=
  emit (evCallback callback ctx args) ;;
  answer callback ctx.

(** ** SASL clients *)

(** The [SaslClient] interface, as its two implementations below show it. *)
Class SaslClient (C : Type) : Type := {
  Start : C -> string * bytes * option error;
  Next : C -> bytes -> bytes * option error;
  Completed : C -> bool;
}.

Module oidcOneStep.
Record t : Type := { userName : string; accessToken : string }.
End oidcOneStep.

Definition jwtStepRequest (accessToken : string) : bytes :=
  bytes_of_document
    (DocumentBuilder.Build
       (DocumentBuilder.AppendString DocumentBuilder.NewDocumentBuilder
          "jwt" accessToken)).

#[global] Instance oidcOneStep_SaslClient : SaslClient oidcOneStep.t := {|
  Start oos :=
    (MongoDBOIDC, jwtStepRequest (oidcOneStep.accessToken oos), None);
  Next _ _ :=
    (nil_bytes,
     Some (newAuthError (literal "unexpected step in OIDC authentication")
             None));
  Completed _ := true;
|}.

Module plainSaslClient.
Record t : Type := { username : string; password : string }.
End plainSaslClient.

(** The one-byte string [\x00]. *)
Definition NUL : string := String Ascii.zero EmptyString.

#[global] Instance plainSaslClient_SaslClient : SaslClient plainSaslClient.t := {|
  Start c :=
    (PLAIN,
     bytes_of_string
       (((NUL +:+ plainSaslClient.username c) +:+ NUL)
        +:+ plainSaslClient.password c),
     None);
  Next _ _ :=
    (nil_bytes, Some (newAuthError (literal "unexpected server challenge") None));
  Completed _ := true;
|}.

(** ** The conversation engine *)

(** Modelled from the spec: the conversation object that
    [newSaslConversation] builds is declared outside the files at hand; it
    holds the mechanism client it is given, and here also the other two
    arguments of the call. *)
Module saslConversation.
Record t (C : Type) : Type := {
  client : C;
  source : string;
  speculative : bool;
}.
Arguments client {C} _.
Arguments source {C} _.
Arguments speculative {C} _.
End saslConversation.

Definition newSaslConversation {C} (client : C) (source : string)
    (speculative : bool) : saslConversation.t C :=
  {| saslConversation.client := client;
     saslConversation.source := source;
     saslConversation.speculative := speculative |}.

(** Modelled from the spec: the loop of the conversation engine of section
    4.1, which is outside the files at hand.  As long as the server has not
    reported completion, its payload goes to the mechanism's [Next] and the
    result is sent as a continuation request under the same conversation
    identifier.  A reply under another identifier, and a mechanism that is
    not completed when the server reports completion, are protocol errors;
    any other error is passed on as it is. *)
Fixpoint continueConversation {C} `{SaslClient C} (fuel : nat)
    (conn : Connection) (source : string) (client : C) (cid : Z)
    (done : bool) (payload : bytes) : M (option error) :=
  if done then
    if Completed client then mret None
    else mret (Some (protocolError
           (literal "challenge expected after the server reported completion")))
  else
    match Next client payload with
    | (_, Some err) => mret (Some err)
    | (next, None) =>
        match fuel with
        | O => stick outOfRounds
        | S fuel' =>
            emit (evSaslContinue conn source cid next) ;;
            reply ← ask server_reply;
            match reply with
            | replyError err => mret (Some err)
            | saslResponse done' cid' payload' =>
                if decide (cid' <> cid)
                then mret (Some (protocolError
                       (literal "mismatched conversation id")))
                else continueConversation fuel' conn source client cid
                       done' payload'
            end
        end
    end.

(** Modelled from the spec: [ConductSaslConversation], the entry of the
    conversation engine of section 4.1: the mechanism's first step goes out
    as the conversation-start request, and the reply opens the loop. *)
Definition ConductSaslConversation {C} `{SaslClient C} (ctx : context)
    (cfg : Config.t) (authSource : string) (client : C) : M (option error) :=
  match Start client with
  | (_, _, Some err) => mret (Some err)
  | (mechanism, payload, None) =>
      emit (evSaslStart (Config.Connection cfg) authSource mechanism payload) ;;
      reply ← ask server_reply;
      match reply with
      | replyError err => mret (Some err)
      | saslResponse done cid payload' =>
          fuel ← ask (fun o _ => rounds o);
          continueConversation fuel (Config.Connection cfg) authSource client
            cid done payload'
      end
  end.

(** ** oidc.go *)

Definition SetAccessToken (accessToken : string) : M unit :=
  Lock ;;
  defer Unlock (store (OIDCAuthenticator.with_accessToken accessToken)).

Definition newOIDCAuthenticator (cred : Cred.t) (httpClient : http_Client)
  : option OIDCAuthenticator.t * option error :=
  if decide (Cred.Password cred <> EmptyString) then
    (None, Some (Errorf (Sprintf "password cannot be specified for %q"
                           [fmtString MongoDBOIDC]) None))
  else
    let check : option error :=
      match Cred.Props cred with
      | None => None
      | Some props =>
          match props !! environmentProp with
          | None => None
          | Some env =>
              let case_test : option error :=
                if decide (Cred.OIDCMachineCallback cred <> None
                           \/ Cred.OIDCHumanCallback cred <> None)
                then Some (Errorf
                       (Sprintf "OIDC callbacks are not allowed for %q %q"
                          [fmtString env; fmtString environmentProp]) None)
                else None in
              let case_gcp : option error :=
                match props !! resourceProp with
                | None =>
                    Some (Errorf
                      (Sprintf "%q must be specified for %q %q"
                         [fmtString resourceProp; fmtString env;
                          fmtString environmentProp]) None)
                | Some _ => case_test
                end in
              let case_azure : option error := case_gcp in
              let lowered := ToLower env in
              if decide (lowered = azureEnvironmentValue) then case_azure
              else if decide (lowered = gcpEnvironmentValue) then case_gcp
              else if decide (lowered = testEnvironmentValue) then case_test
              else None
          end
      end in
    match check with
    | Some err => (None, Some err)
    | None =>
        (Some {| OIDCAuthenticator.mu := false;
                 OIDCAuthenticator.AuthMechanismProperties := Cred.Props cred;
                 OIDCAuthenticator.OIDCMachineCallback :=
                   Cred.OIDCMachineCallback cred;
                 OIDCAuthenticator.OIDCHumanCallback :=
                   Cred.OIDCHumanCallback cred;
                 OIDCAuthenticator.userName := Cred.Username cred;
                 OIDCAuthenticator.httpClient := httpClient;
                 OIDCAuthenticator.accessToken := EmptyString;
                 OIDCAuthenticator.refreshToken := None;
                 OIDCAuthenticator.idpInfo := None;
                 OIDCAuthenticator.tokenGenID := 0 |},
         None)
    end.

Definition getAzureOIDCCallback (clientID resource : string)
    (httpClient : http_Client) : OIDCCallback :=
  azureCallback clientID resource httpClient.

Definition providerCallback (oa : OIDCAuthenticator.t)
  : option OIDCCallback * option error :=
  match map_index (OIDCAuthenticator.AuthMechanismProperties oa)
          environmentProp with
  | None => (None, None)
  | Some env =>
      if decide (env = azureEnvironmentValue) then
        match map_index (OIDCAuthenticator.AuthMechanismProperties oa)
                resourceProp with
        | None =>
            (None, Some (newAuthError
               (Sprintf "%q must be specified for Azure OIDC"
                  [fmtString resourceProp]) None))
        | Some resource =>
            (Some (getAzureOIDCCallback (OIDCAuthenticator.userName oa)
                     resource (OIDCAuthenticator.httpClient oa)),
             None)
        end
      else if decide (env = gcpEnvironmentValue) then
        (Some (gcpCallback env),
         Some (Errorf
           (Sprintf "automatic token acquisition for %q not implemented yet"
              [fmtString env]) None))
      else
        (None, Some (Errorf
           (Sprintf "%q %q not supported for MONGODB-OIDC"
              [fmtString environmentProp; fmtString env]) None))
  end.

(** [getAccessToken] from the assignment to [oa.accessToken] on. *)
Definition storeCredential (conn : Connection) (cred : OIDCCredential.t)
  : M (string * option error) :=
  store (OIDCAuthenticator.with_accessToken (OIDCCredential.AccessToken cred)) ;;
  tokenGenID ← load OIDCAuthenticator.tokenGenID;
  store (OIDCAuthenticator.with_tokenGenID (uint64.incr tokenGenID)) ;;
  tokenGenID ← load OIDCAuthenticator.tokenGenID;
  SetOIDCTokenGenID conn tokenGenID ;;
  match OIDCCredential.RefreshToken cred with
  | Some r => store (OIDCAuthenticator.with_refreshToken (Some r))
  | None => mret tt
  end ;;
  mret (OIDCCredential.AccessToken cred, None).

(** [getAccessToken] from the return of the callback on. *)
Definition afterCallback (conn : Connection)
    (r : option OIDCCredential.t * option error) : M (string * option error) :=
  match r with
  | (_, Some err) => mret (EmptyString, Some err)
  | (None, None) => panic  (* [cred.AccessToken] on a nil credential *)
  | (Some cred, None) => storeCredential conn cred
  end.

Definition getAccessToken (ctx : context) (conn : Connection)
    (args : OIDCArgs.t) (callback : OIDCCallback)
  : M (string * option error) :=
  Lock ;;
  defer Unlock (
    accessToken ← load OIDCAuthenticator.accessToken;
    if decide (accessToken <> EmptyString) then mret (accessToken, None)
    else
      r ← call callback ctx args;
      afterCallback conn r).

(** The body of [invalidateAccessToken], which runs with the mutex held. *)
Definition invalidateLocked (conn : Connection) : M unit :=
  tokenGenID ← OIDCTokenGenID conn;
  oa_tokenGenID ← load OIDCAuthenticator.tokenGenID;
  if decide (tokenGenID = 0 \/ oa_tokenGenID <= tokenGenID) then
    store (OIDCAuthenticator.with_accessToken EmptyString) ;;
    SetOIDCTokenGenID conn 0
  else mret tt.

Definition invalidateAccessToken (conn : Connection) : M unit :=
  Lock ;;
  defer Unlock (invalidateLocked conn).

Definition doAuthHuman (ctx : context) (cfg : Config.t)
    (callback : OIDCCallback) : M (option error) :=
  idpInfo ← load OIDCAuthenticator.idpInfo;
  mret (Some (newAuthError (literal "OIDC")
          (Some (Errorf (Sprintf "human flow not implemented yet, %v"
                           [fmtIDPInfo idpInfo]) None)))).

Definition doAuthMachine (ctx : context) (cfg : Config.t)
    (machineCallback : OIDCCallback) : M (option error) :=
  let subCtx := ctxWithTimeout ctx machineCallbackTimeout in
  '(accessToken, err) ←
    getAccessToken subCtx (Config.Connection cfg)
      {| OIDCArgs.Version := apiVersion;
         OIDCArgs.IDPInfo := None;
         OIDCArgs.RefreshToken := None |}
      machineCallback;
  match err with
  | Some err => mret (Some err)
  | None =>
      ConductSaslConversation ctx cfg "$external"
        {| oidcOneStep.userName := EmptyString;
           oidcOneStep.accessToken := accessToken |}
  end.

(** [Auth] from the line that tests [oa.OIDCHumanCallback] to its end. *)
Definition authDispatch (ctx : context) (cfg : Config.t) : M (option error) :=
  OIDCHumanCallback ← load OIDCAuthenticator.OIDCHumanCallback;
  match OIDCHumanCallback with
  | Some human => doAuthHuman ctx cfg human
  | None =>
      OIDCMachineCallback ← load OIDCAuthenticator.OIDCMachineCallback;
      resolved ←
        match OIDCMachineCallback with
        | Some machine => mret (Some machine, None)
        | None => load providerCallback
        end;
      match resolved with
      | (_, Some err) =>
          mret (Some (Errorf
                  (literal "error getting built-in OIDC provider: %w")
                  (Some err)))
      | (Some machineCallback, None) => doAuthMachine ctx cfg machineCallback
      | (None, None) =>
          mret (Some (newAuthError (literal "no OIDC callback provided") None))
      end
  end.

Definition Auth (ctx : context) (cfg : option Config.t) : M (option error) :=
  match cfg with
  | None =>
      mret (Some (newAuthError
              (Sprintf "config must be set for %q authentication"
                 [fmtString MongoDBOIDC]) None))
  | Some cfg =>
      let conn := Config.Connection cfg in
      Lock ;;
      cachedAccessToken ← load OIDCAuthenticator.accessToken;
      Unlock ;;
      if decide (cachedAccessToken <> EmptyString) then
        userName ← load OIDCAuthenticator.userName;
        err ← ConductSaslConversation ctx cfg "$external"
                {| oidcOneStep.userName := userName;
                   oidcOneStep.accessToken := cachedAccessToken |};
        match err with
        | None => mret None
        | Some _ =>
            invalidateAccessToken conn ;;
            time_Sleep invalidateSleepTimeout ;;
            authDispatch ctx cfg
        end
      else authDispatch ctx cfg
  end.

Definition Reauth (ctx : context) (cfg : option Config.t) : M (option error) :=
  match cfg with
  | None => panic  (* [cfg.Connection] on a nil [*Config] *)
  | Some c =>
      invalidateAccessToken (Config.Connection c) ;;
      Auth ctx cfg
  end.

Definition CreateSpeculativeConversation
  : M (option (saslConversation.t oidcOneStep.t) * option error) :=
  Lock ;;
  defer Unlock (
    accessToken ← load OIDCAuthenticator.accessToken;
    if decide (accessToken = EmptyString) then mret (None, None)
    else mret (Some (newSaslConversation
                       {| oidcOneStep.userName := EmptyString;
                          oidcOneStep.accessToken := accessToken |}
                       "$external" true),
               None)).

(** ** plain.go *)

Module PlainAuthenticator.
Record t : Type := { Username : string; Password : string }.
End PlainAuthenticator.

Definition newPlainAuthenticator (cred : Cred.t) (_ : http_Client)
  : option PlainAuthenticator.t * option error :=
  (Some {| PlainAuthenticator.Username := Cred.Username cred;
           PlainAuthenticator.Password := Cred.Password cred |},
   None).

Definition PlainAuthenticator_Auth (a : PlainAuthenticator.t) (ctx : context)
    (cfg : Config.t) : M (option error) :=
  ConductSaslConversation ctx cfg "$external"
    {| plainSaslClient.username := PlainAuthenticator.Username a;
       plainSaslClient.password := PlainAuthenticator.Password a |}.

Definition PlainAuthenticator_Reauth (a : PlainAuthenticator.t)
    (ctx : context) (cfg : option Config.t) : option error :=
  Some (newAuthError
          (literal "Plain authentication does not support reauthentication")
          None).

(** ** Observations on worlds and traces *)

(** The token generation recorded on a connection. *)
Definition slot (w : World) (conn : Connection) : N :=
  default 0 (slots w !! conn).

Definition is_callback (e : Event) : bool :=
  match e with evCallback _ _ _ => true | _ => false end.

Definition is_exchange (e : Event) : bool :=
  match e with
  | evSaslStart _ _ _ _ | evSaslContinue _ _ _ _ => true
  | _ => false
  end.

(** Callback invocations and conversation requests in a trace. *)
Definition invocations (t : list Event) : nat :=
  length (filter (fun e => is_callback e = true) t).

Definition exchanges (t : list Event) : nat :=
  length (filter (fun e => is_exchange e = true) t).

(** The world an outcome leaves behind; a caller stuck on the mutex has
    changed nothing. *)
Definition after {A} (o : Outcome A) (w : World) : World :=
  match o with
  | Done _ w' | Panic w' => w'
  | Stuck _ => w
  end.

(** The fields of the authenticator that are set once, at construction. *)
Definition configuration (oa : OIDCAuthenticator.t)
  : go_map * option OIDCCallback * option OIDCCallback * string * http_Client :=
  (OIDCAuthenticator.AuthMechanismProperties oa,
   OIDCAuthenticator.OIDCMachineCallback oa,
   OIDCAuthenticator.OIDCHumanCallback oa,
   OIDCAuthenticator.userName oa,
   OIDCAuthenticator.httpClient oa).

(** [Auth ctx (Some cfg)], started in [w], arrives at its dispatch step in
    the world [wd]: either nothing is cached, or the conversation with the
    cached token fails and the token is invalidated. *)
Definition reaches_dispatch (ctx : context) (cfg : Config.t) (w wd : World)
  : Prop :=
  (OIDCAuthenticator.accessToken (authenticator w) = EmptyString /\ wd = w)
  \/ (OIDCAuthenticator.accessToken (authenticator w) <> EmptyString /\
      exists err w1,
        ConductSaslConversation ctx cfg "$external"
          {| oidcOneStep.userName :=
               OIDCAuthenticator.userName (authenticator w);
             oidcOneStep.accessToken :=
               OIDCAuthenticator.accessToken (authenticator w) |} w
        = Done (Some err) w1 /\
        (invalidateAccessToken (Config.Connection cfg) ;;
         time_Sleep invalidateSleepTimeout) w1 = Done tt wd).

(** ** Sequences of operations on one authenticator *)

Inductive Operation : Type :=
| opAuth (ctx : context) (cfg : option Config.t)
| opReauth (ctx : context) (cfg : option Config.t)
| opGetAccessToken (ctx : context) (conn : Connection) (args : OIDCArgs.t)
    (callback : OIDCCallback)
| opInvalidateAccessToken (conn : Connection)
| opCreateSpeculativeConversation
| opSetAccessToken (accessToken : string).

Definition perform (op : Operation) (w : World) : World :=
  match op with
  | opAuth ctx cfg => after (Auth ctx cfg w) w
  | opReauth ctx cfg => after (Reauth ctx cfg w) w
  | opGetAccessToken ctx conn args callback =>
      after (getAccessToken ctx conn args callback w) w
  | opInvalidateAccessToken conn => after (invalidateAccessToken conn w) w
  | opCreateSpeculativeConversation => after (CreateSpeculativeConversation w) w
  | opSetAccessToken accessToken => after (SetAccessToken accessToken w) w
  end.

Definition perform_all (ops : list Operation) (w : World) : World :=
  foldl (fun w op => perform op w) w ops.

(** The generation counter before the first operation and after each one. *)
Fixpoint counters (ops : list Operation) (w : World) : list N :=
  OIDCAuthenticator.tokenGenID (authenticator w) ::
  match ops with
  | [] => []
  | op :: ops' => counters ops' (perform op w)
  end.

(** ** Sample inputs *)

Module Sample.
Definition credential : OIDCCredential.t :=
  {| OIDCCredential.AccessToken := "T";
     OIDCCredential.ExpiresAt := None;
     OIDCCredential.RefreshToken := Some "R" |}.

(** Every callback invocation returns [credential]; the server accepts
    every conversation at its first step. *)
Definition accepting : Oracle :=
  {| callback_result := fun _ => (Some credential, None);
     http_answer := fun _ => httpDoError (foreignError 0);
     server_reply := fun _ => saslResponse true 1 nil_bytes;
     rounds := 0 |}.

(** The server answers every request with an error. *)
Definition rejecting : Oracle :=
  {| callback_result := fun _ => (Some credential, None);
     http_answer := fun _ => httpDoError (foreignError 0);
     server_reply := fun _ => replyError (foreignError 1);
     rounds := 0 |}.

Definition cred (props : go_map) (machine : option OIDCCallback) : Cred.t :=
  {| Cred.Username := "user";
     Cred.Password := EmptyString;
     Cred.Props := props;
     Cred.OIDCMachineCallback := machine;
     Cred.OIDCHumanCallback := None |}.

Definition authenticator_of (c : Cred.t) : OIDCAuthenticator.t :=
  {| OIDCAuthenticator.mu := false;
     OIDCAuthenticator.AuthMechanismProperties := Cred.Props c;
     OIDCAuthenticator.OIDCMachineCallback := Cred.OIDCMachineCallback c;
     OIDCAuthenticator.OIDCHumanCallback := Cred.OIDCHumanCallback c;
     OIDCAuthenticator.userName := Cred.Username c;
     OIDCAuthenticator.httpClient := None;
     OIDCAuthenticator.accessToken := EmptyString;
     OIDCAuthenticator.refreshToken := None;
     OIDCAuthenticator.idpInfo := None;
     OIDCAuthenticator.tokenGenID := 0 |}.

Definition world (o : Oracle) (c : Cred.t) : World :=
  {| authenticator := authenticator_of c; slots := ∅; trace := [];
     oracle := o |}.

Definition ctx : context := ctxRoot 0.
Definition cfg : Config.t := {| Config.Connection := 0%nat |}.
Definition args : OIDCArgs.t :=
  {| OIDCArgs.Version := apiVersion; OIDCArgs.IDPInfo := None;
     OIDCArgs.RefreshToken := None |}.

(** A fresh authenticator with the user's machine callback 7. *)
Definition fresh : World := world accepting (cred None (Some (userCallback 7))).

(** The same with the token ["T"] of generation 1 cached by connection 0. *)
Definition cached : World := perform (opAuth ctx (Some cfg)) fresh.

(** [n] reauthentications of connection 0, one after the other. *)
Definition reauths (n : N) : list Operation :=
  N.iter n (cons (opReauth ctx (Some cfg))) [].

(** A credential for the built-in Azure provider, its tag capitalised. *)
Definition capitalised : Cred.t :=
  cred (Some (<[environmentProp := "Azure"]>
                (<[resourceProp := "api://resource"]> ∅))) None.

(** A credential with a tag that names no provider, and a callback. *)
Definition unrecognised : Cred.t :=
  cred (Some (<[environmentProp := "aws"]> ∅)) (Some (userCallback 7)).

(** An interleaving of two calls that lets both finish. *)
Definition interleaving : list nat :=
  [0; 1; 0; 0; 0; 1; 1; 0; 1; 0; 0; 1; 1; 1; 1; 0; 0; 1; 1; 1]%nat.
End Sample.

(** ** Concurrent calls of [Auth] *)

(** Where one call of [Auth] stands.  The mutex is taken and released where
    the source takes and releases it; a section of code that runs with the
    mutex held and talks to nobody is one step; the callback is entered in
    one step and returns in another, so that the other calls can move while
    it runs. *)
Inductive pc : Type :=
| pcStart                     (** about to [Lock] for the snapshot *)
| pcSnapshot                  (** holds the mutex: reads the token, unlocks *)
| pcCached (cached : string)  (** about to converse with the cached token *)
| pcInvalidateLock            (** [invalidateAccessToken]: about to [Lock] *)
| pcInvalidate                (** holds the mutex: the body, then unlocks *)
| pcSleep                     (** about to sleep *)
| pcDispatch                  (** about to choose the callback *)
| pcAcquireLock (callback : OIDCCallback)
                              (** [getAccessToken]: about to [Lock] *)
| pcAcquire (callback : OIDCCallback)
                              (** holds the mutex: tests the cache *)
| pcCallback (callback : OIDCCallback)
                              (** holds the mutex: the callback is running *)
| pcConverse (accessToken : string)
                              (** about to converse with the token *)
| pcDone (result : option error)
| pcPanicked.

Definition holds_mutex (p : pc) : bool :=
  match p with
  | pcSnapshot | pcInvalidate | pcAcquire _ | pcCallback _ => true
  | _ => false
  end.

Definition finished (p : pc) : bool :=
  match p with
  | pcDone _ | pcPanicked => true
  | _ => false
  end.

(** Call number [i] authenticates connection [i]. *)
Definition ctx_of (i : nat) : context := ctxRoot i.
Definition cfg_of (i : nat) : Config.t := {| Config.Connection := i |}.
Definition subCtx_of (i : nat) : context :=
  ctxWithTimeout (ctx_of i) machineCallbackTimeout.
Definition machine_args : OIDCArgs.t :=
  {| OIDCArgs.Version := apiVersion;
     OIDCArgs.IDPInfo := None;
     OIDCArgs.RefreshToken := None |}.

(** One step of call [i] of [Auth (ctx_of i) (Some (cfg_of i))]. *)
Definition thread_step (i : nat) (p : pc) : M pc :=
  match p with
  | pcStart => Lock ;; mret pcSnapshot
  | pcSnapshot =>
      cachedAccessToken ← load OIDCAuthenticator.accessToken;
      Unlock ;;
      if decide (cachedAccessToken <> EmptyString)
      then mret (pcCached cachedAccessToken)
      else mret pcDispatch
  | pcCached cachedAccessToken =>
      userName ← load OIDCAuthenticator.userName;
      err ← ConductSaslConversation (ctx_of i) (cfg_of i) "$external"
              {| oidcOneStep.userName := userName;
                 oidcOneStep.accessToken := cachedAccessToken |};
      match err with
      | None => mret (pcDone None)
      | Some _ => mret pcInvalidateLock
      end
  | pcInvalidateLock => Lock ;; mret pcInvalidate
  | pcInvalidate => defer Unlock (invalidateLocked i) ;; mret pcSleep
  | pcSleep => time_Sleep invalidateSleepTimeout ;; mret pcDispatch
  | pcDispatch =>
      OIDCHumanCallback ← load OIDCAuthenticator.OIDCHumanCallback;
      match OIDCHumanCallback with
      | Some human =>
          err ← doAuthHuman (ctx_of i) (cfg_of i) human;
          mret (pcDone err)
      | None =>
          OIDCMachineCallback ← load OIDCAuthenticator.OIDCMachineCallback;
          resolved ←
            match OIDCMachineCallback with
            | Some machine => mret (Some machine, None)
            | None => load providerCallback
            end;
          match resolved with
          | (_, Some err) =>
              mret (pcDone (Some (Errorf
                      (literal "error getting built-in OIDC provider: %w")
                      (Some err))))
          | (Some machineCallback, None) => mret (pcAcquireLock machineCallback)
          | (None, None) =>
              mret (pcDone (Some (newAuthError
                                    (literal "no OIDC callback provided") None)))
          end
      end
  | pcAcquireLock callback => Lock ;; mret (pcAcquire callback)
  | pcAcquire callback =>
      accessToken ← load OIDCAuthenticator.accessToken;
      if decide (accessToken <> EmptyString)
      then Unlock ;; mret (pcConverse accessToken)
      else emit (evCallback callback (subCtx_of i) machine_args) ;;
           mret (pcCallback callback)
  | pcCallback callback =>
      '(accessToken, err) ←
        defer Unlock (r ← answer callback (subCtx_of i); afterCallback i r);
      match err with
      | Some err => mret (pcDone (Some err))
      | None => mret (pcConverse accessToken)
      end
  | pcConverse accessToken =>
      err ← ConductSaslConversation (ctx_of i) (cfg_of i) "$external"
              {| oidcOneStep.userName := EmptyString;
                 oidcOneStep.accessToken := accessToken |};
      mret (pcDone err)
  | pcDone _ | pcPanicked => stick waitMutex
  end.

(** The authenticator with its surroundings, and the calls in flight. *)
Record System : Type := {
  shared : World;
  threads : list pc;
}.

(** The scheduler lets call [i] take a step, if it can take one. *)
Definition sched_step (i : nat) (s : System) : option System :=
  match threads s !! i with
  | None => None
  | Some p =>
      if finished p then None
      else match thread_step i p (shared s) with
           | Done p' w' =>
               Some {| shared := w'; threads := <[i := p']> (threads s) |}
           | Panic w' =>
               Some {| shared := w'; threads := <[i := pcPanicked]> (threads s) |}
           | Stuck _ => None
           end
  end.

(** A schedule names the call that is offered a step, time after time; an
    offer to a call that waits or has finished changes nothing. *)
Definition run_schedule (schedule : list nat) (s : System) : System :=
  foldl (fun s i => default s (sched_step i s)) s schedule.

(** The offers of a schedule that were taken. *)
Fixpoint steps_taken (schedule : list nat) (s : System) : nat :=
  match schedule with
  | [] => 0
  | i :: schedule' =>
      match sched_step i s with
      | Some s' => S (steps_taken schedule' s')
      | None => steps_taken schedule' s
      end
  end.

(** [n] calls of [Auth] that have all just been entered. *)
Definition concurrent_calls (n : nat) (w : World) : System :=
  {| shared := w; threads := replicate n pcStart |}.

Definition all_done (s : System) : Prop :=
  Forall (fun p => finished p = true) (threads s).

(** One call run on its own, for at most [fuel] steps. *)
Fixpoint run_thread (fuel : nat) (i : nat) (p : pc) : M pc :=
  if finished p then mret p
  else match fuel with
       | O => stick outOfRounds
       | S fuel' => p' ← thread_step i p; run_thread fuel' i p'
       end.

(** The machine callback that the dispatch step of [Auth] settles on. *)
Definition resolves_to (oa : OIDCAuthenticator.t) (callback : OIDCCallback)
  : Prop :=
  OIDCAuthenticator.OIDCHumanCallback oa = None /\
  (OIDCAuthenticator.OIDCMachineCallback oa = Some callback \/
   (OIDCAuthenticator.OIDCMachineCallback oa = None /\
    providerCallback oa = (Some callback, None))).

(** Every run of [callback] returns a credential with the token [T]. *)
Definition callback_returns (o : Oracle) (callback : OIDCCallback)
    (T : string) : Prop :=
  forall (w : World) (ctx : context),
    oracle w = o ->
    exists cred w',
      answer callback ctx w = Done (Some cred, None) w' /\
      OIDCCredential.AccessToken cred = T.

(** The server completes every conversation that starts with the token
    [T]. *)
Definition server_accepts (o : Oracle) (T : string) : Prop :=
  forall (conn : Connection) (source : string) (t : list Event),
    exists cid payload,
      server_reply o
        (evSaslStart conn source MongoDBOIDC (jwtStepRequest T) :: t)
      = saslResponse true cid payload.

(** The steps a call can still take at most. *)
Definition remaining (p : pc) : nat :=
  match p with
  | pcStart => 11
  | pcSnapshot => 10
  | pcCached _ => 9
  | pcInvalidateLock => 8
  | pcInvalidate => 7
  | pcSleep => 6
  | pcDispatch => 5
  | pcAcquireLock _ => 4
  | pcAcquire _ => 3
  | pcCallback _ => 2
  | pcConverse _ => 1
  | pcDone _ | pcPanicked => 0
  end.

(** The sum of a measure over the calls. *)
Definition total (f : pc -> nat) (l : list pc) : nat :=
  foldr (fun p n => (f p + n)%nat) 0%nat l.

Definition flag (b : bool) : nat := if b then 1%nat else 0%nat.

Definition in_callback (p : pc) : bool :=
  match p with pcCallback _ => true | _ => false end.

Definition succeeded (p : pc) : bool :=
  match p with pcDone None => true | _ => false end.

(** Where a call can stand when the callback is [callback], it returns the
    token [T] and the server accepts [T]; [cached] is the cached token. *)
Definition pc_ok (callback : OIDCCallback) (T cached : string) (p : pc)
  : Prop :=
  match p with
  | pcStart | pcSnapshot | pcDispatch => True
  | pcCached c => c = T /\ cached = T
  | pcAcquireLock c | pcAcquire c => c = callback
  | pcCallback c => c = callback /\ cached = EmptyString
  | pcConverse t => t = T /\ cached = T
  | pcDone r => r = None /\ cached = T
  | pcInvalidateLock | pcInvalidate | pcSleep | pcPanicked => False
  end.

(** What the calls may log: invocations of [callback] and conversation
    starts that carry the token [T]. *)
Definition event_ok (callback : OIDCCallback) (T : string) (e : Event) : Prop :=
  match e with
  | evCallback c _ _ => c = callback
  | evSaslStart _ source mechanism payload =>
      source = "$external" /\ mechanism = MongoDBOIDC /\
      payload = jwtStepRequest T
  | evSaslContinue _ _ _ _ => False
  | evHTTPGet _ _ _ _ | evSleep _ => True
  end.

(** The invariant of [n] concurrent calls that started in a world with the
    trace [t0], the generation counter [G] and nothing cached. *)
Definition herd_invariant (o : Oracle)
    (conf : go_map * option OIDCCallback * option OIDCCallback * string
            * http_Client)
    (t0 : list Event) (G : N) (callback : OIDCCallback) (T : string)
    (s : System) : Prop :=
  let w := shared s in
  let oa := authenticator w in
  oracle w = o /\
  configuration oa = conf /\
  total (fun p => flag (holds_mutex p)) (threads s)
    = flag (OIDCAuthenticator.mu oa) /\
  Forall (pc_ok callback T (OIDCAuthenticator.accessToken oa)) (threads s) /\
  exists new,
    trace w = (new ++ t0)%list /\
    Forall (event_ok callback T) new /\
    ((OIDCAuthenticator.accessToken oa = EmptyString /\
      OIDCAuthenticator.tokenGenID oa = G /\
      invocations new = total (fun p => flag (in_callback p)) (threads s))
     \/ (OIDCAuthenticator.accessToken oa = T /\
         OIDCAuthenticator.tokenGenID oa = uint64.incr G /\
         invocations new = 1%nat)) /\
    exchanges new = total (fun p => flag (succeeded p)) (threads s).

(** ** Net effects, used to state the theorems *)

(** The world after a fresh credential has been stored for [conn]. *)
Definition acquired (cred : OIDCCredential.t) (conn : Connection) (w : World)
  : World :=
  let oa := authenticator w in
  let g := uint64.incr (OIDCAuthenticator.tokenGenID oa) in
  {| authenticator :=
       {| OIDCAuthenticator.mu := OIDCAuthenticator.mu oa;
          OIDCAuthenticator.AuthMechanismProperties :=
            OIDCAuthenticator.AuthMechanismProperties oa;
          OIDCAuthenticator.OIDCMachineCallback :=
            OIDCAuthenticator.OIDCMachineCallback oa;
          OIDCAuthenticator.OIDCHumanCallback :=
            OIDCAuthenticator.OIDCHumanCallback oa;
          OIDCAuthenticator.userName := OIDCAuthenticator.userName oa;
          OIDCAuthenticator.httpClient := OIDCAuthenticator.httpClient oa;
          OIDCAuthenticator.accessToken := OIDCCredential.AccessToken cred;
          OIDCAuthenticator.refreshToken :=
            match OIDCCredential.RefreshToken cred with
            | Some r => Some r
            | None => OIDCAuthenticator.refreshToken oa
            end;
          OIDCAuthenticator.idpInfo := OIDCAuthenticator.idpInfo oa;
          OIDCAuthenticator.tokenGenID := g |};
     slots := <[conn := g]> (slots w);
     trace := trace w;
     oracle := oracle w |}.

(** The world after the cached token has been cleared through [conn]. *)
Definition invalidated (conn : Connection) (w : World) : World :=
  with_slots (<[conn := 0]> (slots w))
    (with_authenticator
       (OIDCAuthenticator.with_accessToken EmptyString (authenticator w)) w).

Definition map_outcome {A} (f : World -> World) (o : Outcome A) : Outcome A :=
  match o with
  | Done a w => Done a (f w)
  | Panic w => Panic (f w)
  | Stuck why => Stuck why
  end.

(** The result of a conversation of a one-step mechanism, read off the
    server's reply; [unexpected] is the error of the mechanism's [Next]. *)
Definition oneStep_result (unexpected : error) (r : ServerReply)
  : option error :=
  match r with
  | replyError e => Some e
  | saslResponse true _ _ => None
  | saslResponse false _ _ => Some unexpected
  end.

Definition finishes {A} (o : Outcome A) : Prop :=
  match o with Stuck _ => False | _ => True end.

(** What an operation that starts in [w] with the mutex free may have done
    when it ends in [w']: at most [k] callback invocations and [e]
    conversation requests, the counter unchanged or advanced once together
    with exactly one invocation, and nothing else of note. *)
Definition effect (k e : nat) (w w' : World) : Prop :=
  OIDCAuthenticator.mu (authenticator w') = false /\
  configuration (authenticator w') = configuration (authenticator w) /\
  OIDCAuthenticator.idpInfo (authenticator w')
    = OIDCAuthenticator.idpInfo (authenticator w) /\
  oracle w' = oracle w /\
  (exchanges (trace w) <= exchanges (trace w') <= exchanges (trace w) + e)%nat /\
  ((OIDCAuthenticator.tokenGenID (authenticator w')
      = OIDCAuthenticator.tokenGenID (authenticator w) /\
    (invocations (trace w) <= invocations (trace w')
       <= invocations (trace w) + k)%nat)
   \/ (k = 1%nat /\
       OIDCAuthenticator.tokenGenID (authenticator w')
         = uint64.incr (OIDCAuthenticator.tokenGenID (authenticator w)) /\
       invocations (trace w') = S (invocations (trace w)))).

(** A world in which connection 0 can reauthenticate over and over: the
    callback and the server of [Sample.accepting], the machine callback 7,
    and the counter recorded on the connection. *)
Definition reauth_ready (w : World) : Prop :=
  OIDCAuthenticator.mu (authenticator w) = false /\
  oracle w = Sample.accepting /\
  OIDCAuthenticator.OIDCMachineCallback (authenticator w)
    = Some (userCallback 7) /\
  OIDCAuthenticator.OIDCHumanCallback (authenticator w) = None /\
  slot w 0%nat = OIDCAuthenticator.tokenGenID (authenticator w) /\
  OIDCAuthenticator.tokenGenID (authenticator w) < uint64.modulus.

(** The outcome of [Auth], as the call that ran it sees it. *)
Definition as_thread (o : Outcome (option error)) : Outcome pc :=
  match o with
  | Done r w' => Done (pcDone r) w'
  | Panic w' => Panic w'
  | Stuck why => Stuck why
  end.

(** ** More sample inputs *)

Module Scenario.
(** The callback fails every time. *)
Definition failing : Oracle :=
  {| callback_result := fun _ => (None, Some (foreignError 2));
     http_answer := fun _ => httpDoError (foreignError 0);
     server_reply := fun _ => saslResponse true 1 nil_bytes;
     rounds := 0 |}.

(** The callback returns neither a credential nor an error. *)
Definition silent : Oracle :=
  {| callback_result := fun _ => (None, None);
     http_answer := fun _ => httpDoError (foreignError 0);
     server_reply := fun _ => saslResponse true 1 nil_bytes;
     rounds := 0 |}.

(** The token ["T"] of generation 2 is cached; connection 0 still carries
    generation 1, and the server rejects every conversation. *)
Definition stale : World :=
  {| authenticator :=
       OIDCAuthenticator.with_tokenGenID 2
         (OIDCAuthenticator.with_accessToken "T"
            (Sample.authenticator_of
               (Sample.cred None (Some (userCallback 7)))));
     slots := <[0%nat := 1]> ∅;
     trace := [];
     oracle := Sample.rejecting |}.
End Scenario.

(** ** Generations and what a call has achieved *)

(** No connection carries a generation above the counter. *)
Definition generations_bounded (w : World) : Prop :=
  forall conn : Connection,
    slot w conn <= OIDCAuthenticator.tokenGenID (authenticator w).

(** A cached token has a generation: the counter is not 0 while a token is
    cached. *)
Definition token_has_generation (w : World) : Prop :=
  OIDCAuthenticator.accessToken (authenticator w) <> EmptyString ->
  0 < OIDCAuthenticator.tokenGenID (authenticator w).

(** The last thing that happened is a conversation through [conn] that
    carried the token now cached, and that the server completed at once. *)
Definition accepted_cached_token (conn : Connection) (w : World) : Prop :=
  (exists t,
     trace w
     = evSaslStart conn "$external" MongoDBOIDC
         (bytes_of_document
            [("jwt", bsonString (OIDCAuthenticator.accessToken (authenticator w)))])
       :: t) /\
  exists cid payload,
    server_reply (oracle w) (trace w) = saslResponse true cid payload.

(** ** What concurrent calls can still do *)

(** The callback invocations and the conversation requests that a call can
    still make, at most. *)
Definition may_invoke (p : pc) : nat :=
  match p with
  | pcCallback _ | pcConverse _ | pcDone _ | pcPanicked => 0
  | _ => 1
  end.

Definition may_exchange (p : pc) : nat :=
  match p with
  | pcStart | pcSnapshot | pcCached _ => 2
  | pcDone _ | pcPanicked => 0
  | _ => 1
  end.

(** What one step of a call from [p] to [p'] does to the mutex, to the
    trace and to the counter; [bump] is 1 if the step increments the counter,
    which only the return of a callback does. *)
Definition accounts (p p' : pc) (w w' : World) : Prop :=
  (flag (OIDCAuthenticator.mu (authenticator w')) + flag (holds_mutex p)
   = flag (OIDCAuthenticator.mu (authenticator w)) + flag (holds_mutex p'))%nat /\
  exists extra bump,
    trace w' = (extra ++ trace w)%list /\
    (invocations extra + may_invoke p' <= may_invoke p)%nat /\
    (exchanges extra + may_exchange p' <= may_exchange p)%nat /\
    (flag (in_callback p') + bump
     <= invocations extra + flag (in_callback p))%nat /\
    ((bump = 0%nat /\
      OIDCAuthenticator.tokenGenID (authenticator w')
        = OIDCAuthenticator.tokenGenID (authenticator w))
     \/ (bump = 1%nat /\
         OIDCAuthenticator.tokenGenID (authenticator w')
           = uint64.incr (OIDCAuthenticator.tokenGenID (authenticator w)))).

(** The invariant of [n] concurrent calls that started with the trace [t0]
    and the counter [G], whatever callback and server do. *)
Definition shares (n : nat) (t0 : list Event) (G : N) (s : System) : Prop :=
  total (fun p => flag (holds_mutex p)) (threads s)
    = flag (OIDCAuthenticator.mu (authenticator (shared s))) /\
  exists new k,
    trace (shared s) = (new ++ t0)%list /\
    (invocations new + total may_invoke (threads s) <= n)%nat /\
    (exchanges new + total may_exchange (threads s) <= 2 * n)%nat /\
    (k + total (fun p => flag (in_callback p)) (threads s)
     <= invocations new)%nat /\
    OIDCAuthenticator.tokenGenID (authenticator (shared s))
      = uint64.wrap (G + N.of_nat k).

(** ** PLAIN payloads *)

(** Whether a string holds the byte 0. *)
Fixpoint contains_NUL (s : string) : bool :=
  match s with
  | EmptyString => false
  | String c s' => if Ascii.eqb c Ascii.zero then true else contains_NUL s'
  end.

(** ** index_view.go: index names and index options *)

Module mongo.

(** [float64], by its bits. *)
Inductive float64 : Type := float64_bits (bits : N).

(** An [interface{}] value that is handed to [marshal]. *)
Inductive any : Type := any_value (id : nat).

(** A marshalled document, embedded as it is. *)
Inductive raw : Type := raw_document (id : nat).

(** A BSON value by its type, with what the accessors of that type read
    from it. *)
Module Value.
Inductive t : Type :=
| Double (f : float64)
| StringValue (s : string)
| EmbeddedDocument (doc : raw)
| Boolean (b : bool)
| Int32 (n : Z)
| Int64 (n : Z)
| other (type : N)  (** a value of any other BSON type *).
End Value.

Module Element.
Record t : Type := { Key : string; Value : Value.t }.
End Element.

Inductive error : Type :=
| ErrInvalidIndexValue
| ErrNonStringIndexName
| ErrMultipleIndexDrop
| elementsError (id : nat)  (** an error of [Document.Elements] *)
| marshalError (id : nat)   (** an error of [marshal] *).

(** A [bsoncore.Document] by what [Elements] makes of it. *)
Inductive Document : Type :=
| wellformed (elems : list Element.t)
| malformed (err : error).

Definition Elements (d : Document) : list Element.t * option error :=
  match d with
  | wellformed elems => (elems, None)
  | malformed err => ([], Some err)
  end.

(** The [bsoncore.Append...Element] functions, on a document under
    construction. *)
Definition AppendInt32Element (dst : list Element.t) (key : string) (i32 : Z)
  : list Element.t :=
  (dst ++ [{| Element.Key := key; Element.Value := Value.Int32 i32 |}])%list.

Definition AppendStringElement (dst : list Element.t) (key s : string)
  : list Element.t :=
  (dst ++ [{| Element.Key := key; Element.Value := Value.StringValue s |}])%list.

Definition AppendBooleanElement (dst : list Element.t) (key : string)
    (b : bool) : list Element.t :=
  (dst ++ [{| Element.Key := key; Element.Value := Value.Boolean b |}])%list.

Definition AppendDoubleElement (dst : list Element.t) (key : string)
    (f : float64) : list Element.t :=
  (dst ++ [{| Element.Key := key; Element.Value := Value.Double f |}])%list.

Definition AppendDocumentElement (dst : list Element.t) (key : string)
    (doc : raw) : list Element.t :=
  (dst ++ [{| Element.Key := key;
              Element.Value := Value.EmbeddedDocument doc |}])%list.

Module Collation.
Record t : Type := { ToDocument : raw }.
End Collation.

(** [options.IndexOptions], with the fields that index_view.go reads. *)
Module IndexOptions.
Record t : Type := {
  ExpireAfterSeconds : option Z;
  Name : option string;
  Sparse : option bool;
  StorageEngine : option any;
  Unique : option bool;
  Version : option Z;
  DefaultLanguage : option string;
  LanguageOverride : option string;
  TextVersion : option Z;
  Weights : option any;
  SphereVersion : option Z;
  Bits : option Z;
  Max : option float64;
  Min : option float64;
  BucketSize : option Z;
  PartialFilterExpression : option any;
  Collation : option Collation.t;
  WildcardProjection : option any;
  Hidden : option bool;
}.
End IndexOptions.

(** [options.Index()]: nothing is set. *)
Definition Index : IndexOptions.t :=
  {| IndexOptions.ExpireAfterSeconds := None; IndexOptions.Name := None;
     IndexOptions.Sparse := None; IndexOptions.StorageEngine := None;
     IndexOptions.Unique := None; IndexOptions.Version := None;
     IndexOptions.DefaultLanguage := None;
     IndexOptions.LanguageOverride := None;
     IndexOptions.TextVersion := None; IndexOptions.Weights := None;
     IndexOptions.SphereVersion := None; IndexOptions.Bits := None;
     IndexOptions.Max := None; IndexOptions.Min := None;
     IndexOptions.BucketSize := None;
     IndexOptions.PartialFilterExpression := None;
     IndexOptions.Collation := None;
     IndexOptions.WildcardProjection := None;
     IndexOptions.Hidden := None |}.

Definition SetName (name : string) (o : IndexOptions.t) : IndexOptions.t :=
  {| IndexOptions.ExpireAfterSeconds := IndexOptions.ExpireAfterSeconds o;
     IndexOptions.Name := Some name;
     IndexOptions.Sparse := IndexOptions.Sparse o;
     IndexOptions.StorageEngine := IndexOptions.StorageEngine o;
     IndexOptions.Unique := IndexOptions.Unique o;
     IndexOptions.Version := IndexOptions.Version o;
     IndexOptions.DefaultLanguage := IndexOptions.DefaultLanguage o;
     IndexOptions.LanguageOverride := IndexOptions.LanguageOverride o;
     IndexOptions.TextVersion := IndexOptions.TextVersion o;
     IndexOptions.Weights := IndexOptions.Weights o;
     IndexOptions.SphereVersion := IndexOptions.SphereVersion o;
     IndexOptions.Bits := IndexOptions.Bits o;
     IndexOptions.Max := IndexOptions.Max o;
     IndexOptions.Min := IndexOptions.Min o;
     IndexOptions.BucketSize := IndexOptions.BucketSize o;
     IndexOptions.PartialFilterExpression :=
       IndexOptions.PartialFilterExpression o;
     IndexOptions.Collation := IndexOptions.Collation o;
     IndexOptions.WildcardProjection := IndexOptions.WildcardProjection o;
     IndexOptions.Hidden := IndexOptions.Hidden o |}.

Module IndexModel.
Record t : Type := { Keys : option any; Options : option IndexOptions.t }.
End IndexModel.

(** [fmt.Sprintf("%d", n)]. *)
Definition Sprintf_d (n : Z) : string := NilZero.string_of_int (Z.to_int n).

(** The loop of [getOrGenerateIndexName] over the elements still to come;
    [name] is the buffer.  Writing to a [bytes.Buffer] returns no error. *)
Fixpoint range_elems (elems : list Element.t) (name : string) (first : bool)
  : string * option error :=
  match elems with
  | [] => (name, None)
  | elem :: elems' =>
      let name := if negb first then name +:+ "_" else name in
      let name := name +:+ Element.Key elem in
      let name := name +:+ "_" in
      let bsonValue := Element.Value elem in
      match bsonValue with
      | Value.Int32 n => range_elems elems' (name +:+ Sprintf_d n) false
      | Value.Int64 n => range_elems elems' (name +:+ Sprintf_d n) false
      | Value.StringValue s => range_elems elems' (name +:+ s) false
      | _ => (EmptyString, Some ErrInvalidIndexValue)
      end
  end.

Definition getOrGenerateIndexName (keySpecDocument : Document)
    (model : IndexModel.t) : string * option error :=
  match IndexModel.Options model with
  | Some {| IndexOptions.Name := Some name |} => (name, None)
  | _ =>
      match Elements keySpecDocument with
      | (_, Some err) => (EmptyString, Some err)
      | (elems, None) => range_elems elems EmptyString true
      end
  end.

Section createOptionsDoc.
(** [marshal], for the BSON options and the registry of the collection
    that the index view belongs to. *)
Variable marshal : any -> raw * option error.

(** One option that goes through [marshal]: the document with the option
    appended, or the error to return. *)
Definition marshalled (optsDoc : list Element.t) (key : string)
    (option : option any) : error + list Element.t :=
  match option with
  | Some val =>
      match marshal val with
      | (_, Some err) => inl err
      | (doc, None) => inr (AppendDocumentElement optsDoc key doc)
      end
  | None => inr optsDoc
  end.

Definition createOptionsDoc (opts : IndexOptions.t)
  : option (list Element.t) * option error :=
  let optsDoc : list Element.t := [] in
  let optsDoc :=
    match IndexOptions.ExpireAfterSeconds opts with
    | Some v => AppendInt32Element optsDoc "expireAfterSeconds" v
    | None => optsDoc
    end in
  let optsDoc :=
    match IndexOptions.Name opts with
    | Some v => AppendStringElement optsDoc "name" v
    | None => optsDoc
    end in
  let optsDoc :=
    match IndexOptions.Sparse opts with
    | Some v => AppendBooleanElement optsDoc "sparse" v
    | None => optsDoc
    end in
  match marshalled optsDoc "storageEngine" (IndexOptions.StorageEngine opts) with
  | inl err => (None, Some err)
  | inr optsDoc =>
  let optsDoc :=
    match IndexOptions.Unique opts with
    | Some v => AppendBooleanElement optsDoc "unique" v
    | None => optsDoc
    end in
  let optsDoc :=
    match IndexOptions.Version opts with
    | Some v => AppendInt32Element optsDoc "v" v
    | None => optsDoc
    end in
  let optsDoc :=
    match IndexOptions.DefaultLanguage opts with
    | Some v => AppendStringElement optsDoc "default_language" v
    | None => optsDoc
    end in
  let optsDoc :=
    match IndexOptions.LanguageOverride opts with
    | Some v => AppendStringElement optsDoc "language_override" v
    | None => optsDoc
    end in
  let optsDoc :=
    match IndexOptions.TextVersion opts with
    | Some v => AppendInt32Element optsDoc "textIndexVersion" v
    | None => optsDoc
    end in
  match marshalled optsDoc "weights" (IndexOptions.Weights opts) with
  | inl err => (None, Some err)
  | inr optsDoc =>
  let optsDoc :=
    match IndexOptions.SphereVersion opts with
    | Some v => AppendInt32Element optsDoc "2dsphereIndexVersion" v
    | None => optsDoc
    end in
  let optsDoc :=
    match IndexOptions.Bits opts with
    | Some v => AppendInt32Element optsDoc "bits" v
    | None => optsDoc
    end in
  let optsDoc :=
    match IndexOptions.Max opts with
    | Some v => AppendDoubleElement optsDoc "max" v
    | None => optsDoc
    end in
  let optsDoc :=
    match IndexOptions.Min opts with
    | Some v => AppendDoubleElement optsDoc "min" v
    | None => optsDoc
    end in
  let optsDoc :=
    match IndexOptions.BucketSize opts with
    | Some v => AppendInt32Element optsDoc "bucketSize" v
    | None => optsDoc
    end in
  match marshalled optsDoc "partialFilterExpression"
          (IndexOptions.PartialFilterExpression opts) with
  | inl err => (None, Some err)
  | inr optsDoc =>
  let optsDoc :=
    match IndexOptions.Collation opts with
    | Some v => AppendDocumentElement optsDoc "collation" (Collation.ToDocument v)
    | None => optsDoc
    end in
  match marshalled optsDoc "wildcardProjection"
          (IndexOptions.WildcardProjection opts) with
  | inl err => (None, Some err)
  | inr optsDoc =>
  let optsDoc :=
    match IndexOptions.Hidden opts with
    | Some v => AppendBooleanElement optsDoc "hidden" v
    | None => optsDoc
    end in
  (Some optsDoc, None)
  end end end end.
End createOptionsDoc.

(** One key of an index and its value, as they appear in a generated
    name. *)
Definition segment (elem : Element.t) : option string :=
  match Element.Value elem with
  | Value.Int32 n | Value.Int64 n =>
      Some (Element.Key elem +:+ "_" +:+ Sprintf_d n)
  | Value.StringValue s => Some (Element.Key elem +:+ "_" +:+ s)
  | _ => None
  end.

(** The segments after the first, each behind its underscore. *)
Definition glue (segments : list string) : string :=
  foldr (fun s rest => "_" +:+ s +:+ rest) EmptyString segments.

Definition explicit_name (model : IndexModel.t) : option string :=
  match IndexModel.Options model with
  | Some o => IndexOptions.Name o
  | None => None
  end.

(** The keys that [createOptionsDoc] can write, in the order in which it
    writes them. *)
Definition option_keys : list string :=
  [ "expireAfterSeconds"; "name"; "sparse"; "storageEngine"; "unique"; "v";
    "default_language"; "language_override"; "textIndexVersion"; "weights";
    "2dsphereIndexVersion"; "bits"; "max"; "min"; "bucketSize";
    "partialFilterExpression"; "collation"; "wildcardProjection"; "hidden" ].

Definition is_set (A : Type) (o : option A) : nat :=
  match o with Some _ => 1%nat | None => 0%nat end.
Arguments is_set {A} o.

(** How many options are set. *)
Definition options_set (o : IndexOptions.t) : nat :=
  (is_set (IndexOptions.ExpireAfterSeconds o) + is_set (IndexOptions.Name o)
   + is_set (IndexOptions.Sparse o) + is_set (IndexOptions.StorageEngine o)
   + is_set (IndexOptions.Unique o) + is_set (IndexOptions.Version o)
   + is_set (IndexOptions.DefaultLanguage o)
   + is_set (IndexOptions.LanguageOverride o)
   + is_set (IndexOptions.TextVersion o) + is_set (IndexOptions.Weights o)
   + is_set (IndexOptions.SphereVersion o) + is_set (IndexOptions.Bits o)
   + is_set (IndexOptions.Max o) + is_set (IndexOptions.Min o)
   + is_set (IndexOptions.BucketSize o)
   + is_set (IndexOptions.PartialFilterExpression o)
   + is_set (IndexOptions.Collation o) + is_set (IndexOptions.WildcardProjection o)
   + is_set (IndexOptions.Hidden o))%nat.

(** The options that go through [marshal] and are set. *)
Definition marshalled_options (o : IndexOptions.t) : list any :=
  omap id [ IndexOptions.StorageEngine o; IndexOptions.Weights o;
            IndexOptions.PartialFilterExpression o;
            IndexOptions.WildcardProjection o ].
End mongo.

(** What is known of the options document after some of the options have
    been looked at: its keys are among [keys], in their order; it has [n]
    elements; and it holds a name exactly when the options do. *)
Definition written (opts : mongo.IndexOptions.t) (d : list mongo.Element.t)
    (keys : list string) (n : nat) : Prop :=
  map mongo.Element.Key d `sublist_of` keys /\
  length d = n /\
  forall name,
    {| mongo.Element.Key := "name";
       mongo.Element.Value := mongo.Value.StringValue name |} ∈ d <->
    mongo.IndexOptions.Name opts = Some name.

(** * Proofs *)

Arguments invocations : simpl never.
Arguments exchanges : simpl never.

Arguments call : simpl never.
Arguments ConductSaslConversation : simpl never.
Arguments getAccessToken : simpl never.
Arguments invalidateAccessToken : simpl never.
Arguments authDispatch : simpl never.
Arguments doAuthMachine : simpl never.
Arguments Auth : simpl never.

Ltac unfold_M :=
  unfold mbind, mret, M_bind, M_ret, defer, Lock, Unlock, load, store, emit,
    ask, panic, stick, OIDCTokenGenID, SetOIDCTokenGenID, time_Sleep in *.

Lemma invocations_cons e t :
  invocations (e :: t) = ((if is_callback e then 1 else 0) + invocations t)%nat.
Proof. unfold invocations. destruct e; reflexivity. Qed.

Lemma exchanges_cons e t :
  exchanges (e :: t) = ((if is_exchange e then 1 else 0) + exchanges t)%nat.
Proof. unfold exchanges. destruct e; reflexivity. Qed.

(** A callback invocation leaves authenticator and slots alone, and logs itself once *)
Lemma call_effect cb ctx args w :
  match call cb ctx args w with
  | Done _ w' | Panic w' =>
      authenticator w' = authenticator w /\ slots w' = slots w /\
      oracle w' = oracle w /\
      invocations (trace w') = S (invocations (trace w)) /\
      exchanges (trace w') = exchanges (trace w)
  | Stuck _ => False
  end.
Proof.
  unfold call, answer, azureCallbackBody. unfold_M. cbn.
  destruct cb as [id|clientID resource client|env]; cbn.
  - rewrite invocations_cons, exchanges_cons. cbn. auto.
  - destruct (http_answer _ _) as [e|e|code body]; destruct client; cbn;
      rewrite ?invocations_cons, ?exchanges_cons; cbn; auto.
    all: destruct (decide _); [|destruct body as [?|[? ?]]]; cbn;
      rewrite ?invocations_cons, ?exchanges_cons; cbn; auto.
  - rewrite invocations_cons, exchanges_cons. cbn. auto.
Qed.


Ltac mrun := repeat progress (unfold_M; cbn).
Ltac open_world w :=
  let oa := fresh "oa" in
  destruct w as [oa ? ? ?]; destruct oa; cbn in *; subst.

(** A callback sees the trace and the oracle only. *)
Lemma call_frame cb ctx args w w0 :
  oracle w = oracle w0 -> trace w = trace w0 ->
  call cb ctx args w
  = map_outcome (fun w' => with_trace (trace w') w) (call cb ctx args w0).
Proof.
  destruct w, w0; cbn. intros -> ->.
  unfold call, answer, azureCallbackBody. mrun.
  destruct cb as [id|clientID resource client|env]; cbn; try reflexivity.
  destruct (http_answer _ _) as [e|e|code body]; destruct client; cbn; try reflexivity.
  destruct (decide _); [|destruct body as [?|[? ?]]]; reflexivity.
Qed.


Lemma conduct_oidcOneStep ctx cfg source (client : oidcOneStep.t) w :
  let request := evSaslStart (Config.Connection cfg) source MongoDBOIDC
                   (jwtStepRequest (oidcOneStep.accessToken client)) in
  ConductSaslConversation ctx cfg source client w
  = Done (oneStep_result
            (newAuthError (literal "unexpected step in OIDC authentication") None)
            (server_reply (oracle w) (request :: trace w)))
         (with_trace (request :: trace w) w).
Proof.
  unfold ConductSaslConversation. unfold_M. cbn.
  destruct (server_reply _ _) as [e|done cid payload]; cbn; [reflexivity|].
  destruct (rounds (oracle w)), done; reflexivity.
Qed.

Lemma conduct_plain ctx cfg source (client : plainSaslClient.t) w :
  let request := evSaslStart (Config.Connection cfg) source PLAIN
                   (snd (fst (Start client))) in
  ConductSaslConversation ctx cfg source client w
  = Done (oneStep_result
            (newAuthError (literal "unexpected server challenge") None)
            (server_reply (oracle w) (request :: trace w)))
         (with_trace (request :: trace w) w).
Proof.
  unfold ConductSaslConversation. unfold_M. cbn.
  destruct (server_reply _ _) as [e|done cid payload]; cbn; [reflexivity|].
  destruct (rounds (oracle w)), done; reflexivity.
Qed.


Lemma getAccessToken_eq ctx conn args callback w :
  OIDCAuthenticator.mu (authenticator w) = false ->
  getAccessToken ctx conn args callback w =
  if decide (OIDCAuthenticator.accessToken (authenticator w) <> EmptyString)
  then Done (OIDCAuthenticator.accessToken (authenticator w), None) w
  else match call callback ctx args w with
       | Done (_, Some err) w2 => Done (EmptyString, Some err) w2
       | Done (None, None) w2 => Panic w2
       | Done (Some cred, None) w2 =>
           Done (OIDCCredential.AccessToken cred, None) (acquired cred conn w2)
       | Panic w2 => Panic w2
       | Stuck why => Stuck why
       end.
Proof.
  intros Hmu. pose proof (call_effect callback ctx args w) as Hc.
  unfold getAccessToken, afterCallback, storeCredential.
  destruct w as [oa sl tr o]; destruct oa as [m props mc hc un hcl tok rt idp G].
  cbn in *. subst m.
  match goal with |- _ ?w0 = _ => 
    mrun; destruct (decide (tok <> EmptyString)); mrun; [reflexivity|];
    match goal with |- context [call callback ctx args ?wl] =>
      rewrite (call_frame callback ctx args wl w0) by reflexivity end;
    destruct (call callback ctx args w0) as [[cred0 err0] w2|w2|why]
  end; mrun; try contradiction.
  - destruct Hc as (Ha & Hs & Ho & _). destruct w2 as [oa2 sl2 tr2 o2]. cbn in *. subst.
    destruct cred0 as [c|], err0 as [e|]; mrun; try reflexivity.
    unfold acquired. cbn. destruct (OIDCCredential.RefreshToken c); reflexivity.
  - destruct Hc as (Ha & Hs & Ho & _). destruct w2 as [oa2 sl2 tr2 o2]. cbn in *. subst.
    reflexivity.
Qed.


Lemma invalidateAccessToken_eq conn w :
  OIDCAuthenticator.mu (authenticator w) = false ->
  invalidateAccessToken conn w =
  Done tt (if decide (slot w conn = 0 \/
                      OIDCAuthenticator.tokenGenID (authenticator w) <= slot w conn)
           then invalidated conn w else w).
Proof.
  intros Hmu. unfold invalidateAccessToken, invalidateLocked, invalidated, slot.
  open_world w. mrun. destruct (decide _); reflexivity.
Qed.

Lemma Auth_eq ctx cfg w :
  OIDCAuthenticator.mu (authenticator w) = false ->
  Auth ctx (Some cfg) w =
  if decide (OIDCAuthenticator.accessToken (authenticator w) <> EmptyString)
  then match ConductSaslConversation ctx cfg "$external"
               {| oidcOneStep.userName :=
                    OIDCAuthenticator.userName (authenticator w);
                  oidcOneStep.accessToken :=
                    OIDCAuthenticator.accessToken (authenticator w) |} w with
       | Done None w1 => Done None w1
       | Done (Some _) w1 =>
           (invalidateAccessToken (Config.Connection cfg) ;;
            time_Sleep invalidateSleepTimeout ;;
            authDispatch ctx cfg) w1
       | Panic w1 => Panic w1
       | Stuck why => Stuck why
       end
  else authDispatch ctx cfg w.
Proof.
  intros Hmu. unfold Auth. open_world w. mrun.
  destruct (decide _); [|reflexivity]. mrun.
  destruct (ConductSaslConversation _ _ _ _ _) as [[e|] w1|w1|why]; reflexivity.
Qed.



Lemma effect_refl k e w :
  OIDCAuthenticator.mu (authenticator w) = false -> effect k e w w.
Proof. unfold effect. intuition lia. Qed.

Lemma effect_weaken k e k' e' w w' :
  (k = 0 \/ k = k')%nat -> (e <= e')%nat -> effect k e w w' -> effect k' e' w w'.
Proof. unfold effect. intros Hk He (?&?&?&?&?&[?|?]); repeat split; try tauto; try lia. Qed.

Lemma effect_quiet_l k e e' w w1 w2 :
  effect 0 e w w1 -> effect k e' w1 w2 -> effect k (e + e') w w2.
Proof.
  unfold effect. intros (_&Hc&Hi&Ho&He&[[HG Hn]|[Hk _]]) (Hm&Hc'&Hi'&Ho'&He'&H);
    [|lia].
  rewrite Hc', Hc, Hi', Hi, Ho', Ho.
  split; [assumption|]. do 3 (split; [reflexivity|]). split; [lia|].
  destruct H as [[HG' Hn']|(Hk&HG'&Hn')]; rewrite HG', HG; [left|right];
    repeat split; lia.
Qed.

Lemma effect_quiet_r k e e' w w1 w2 :
  effect k e w w1 -> effect 0 e' w1 w2 -> effect k (e + e') w w2.
Proof.
  unfold effect. intros (_&Hc&Hi&Ho&He&H) (Hm&Hc'&Hi'&Ho'&He'&[[HG' Hn']|[Hk _]]);
    [|lia].
  rewrite Hc', Hc, Hi', Hi, Ho', Ho.
  split; [assumption|]. do 3 (split; [reflexivity|]). split; [lia|].
  destruct H as [[HG Hn]|(Hk&HG&Hn)]; rewrite HG', HG; [left|right];
    repeat split; lia.
Qed.

Lemma invalidateAccessToken_effect conn w :
  OIDCAuthenticator.mu (authenticator w) = false ->
  exists w', invalidateAccessToken conn w = Done tt w' /\ effect 0 0 w w'.
Proof.
  intros Hmu. rewrite invalidateAccessToken_eq by assumption.
  eexists. split; [reflexivity|].
  destruct (decide _) as [_|_]; [|apply effect_refl; assumption].
  unfold effect, invalidated. open_world w.
  do 4 (split; [reflexivity|]). split; [lia|]. left. split; [reflexivity|lia].
Qed.

Lemma conversation_effect ctx cfg source (client : oidcOneStep.t) w :
  OIDCAuthenticator.mu (authenticator w) = false ->
  exists err w', ConductSaslConversation ctx cfg source client w = Done err w' /\
                 effect 0 1 w w'.
Proof.
  intros Hmu. rewrite conduct_oidcOneStep. do 2 eexists. split; [reflexivity|].
  unfold effect. cbn. rewrite exchanges_cons, invocations_cons. cbn.
  intuition lia.
Qed.

Lemma getAccessToken_effect ctx conn args callback w :
  OIDCAuthenticator.mu (authenticator w) = false ->
  finishes (getAccessToken ctx conn args callback w) /\
  effect 1 0 w (after (getAccessToken ctx conn args callback w) w).
Proof.
  intros Hmu. rewrite getAccessToken_eq by assumption.
  destruct (decide _); [split; [exact I|apply effect_refl; assumption]|].
  pose proof (call_effect callback ctx args w) as Hc.
  destruct (call callback ctx args w) as [[cred0 err0] w2|w2|why]; [| |contradiction].
  - destruct Hc as (Ha & Hs & Ho & Hi & He).
    assert (Hq : effect 1 0 w w2).
    { unfold effect. rewrite Ha, Ho, Hi, He. intuition lia. }
    destruct cred0 as [c|], err0 as [e|]; cbn; (split; [exact I|]); try exact Hq.
    unfold effect, acquired. cbn. rewrite Ha, Ho, Hi, He. intuition lia.
  - destruct Hc as (Ha & Hs & Ho & Hi & He). split; [exact I|]. cbn.
    unfold effect. rewrite Ha, Ho, Hi, He. intuition lia.
Qed.


Lemma doAuthMachine_effect ctx cfg callback w :
  OIDCAuthenticator.mu (authenticator w) = false ->
  finishes (doAuthMachine ctx cfg callback w) /\
  effect 1 1 w (after (doAuthMachine ctx cfg callback w) w).
Proof.
  intros Hmu. unfold doAuthMachine.
  match goal with |- context [getAccessToken ?c ?n ?a ?cb] =>
    destruct (getAccessToken_effect c n a cb w Hmu) as [Hf He];
    unfold mbind, M_bind;
    destruct (getAccessToken c n a cb w) as [[tok [err|]] w1|w1|why]
  end; cbn in *; try contradiction.
  - split; [exact I|revert He; apply effect_weaken; lia].
  - assert (Hmu1 : OIDCAuthenticator.mu (authenticator w1) = false) by apply He.
    match goal with |- context [ConductSaslConversation ?c ?g ?s ?cl] =>
      destruct (conversation_effect c g s cl w1 Hmu1) as (err & w2 & -> & He2)
    end.
    split; [exact I|]. cbn. apply (effect_quiet_r 1 0 1 w w1 w2); assumption.
  - split; [exact I|]. revert He. apply effect_weaken; lia.
Qed.

Lemma authDispatch_effect ctx cfg w :
  OIDCAuthenticator.mu (authenticator w) = false ->
  finishes (authDispatch ctx cfg w) /\
  effect 1 1 w (after (authDispatch ctx cfg w) w).
Proof.
  intros Hmu. unfold authDispatch, doAuthHuman. unfold_M.
  assert (Hq : effect 1 1 w w) by (apply effect_refl; assumption).
  destruct (OIDCAuthenticator.OIDCHumanCallback (authenticator w)); cbn;
    [split; [exact I|exact Hq]|].
  destruct (OIDCAuthenticator.OIDCMachineCallback (authenticator w)) as [m|]; cbn.
  - apply doAuthMachine_effect; assumption.
  - destruct (providerCallback (authenticator w)) as [[p|] [e|]]; cbn;
      try (split; [exact I|exact Hq]).
    apply doAuthMachine_effect; assumption.
Qed.

Lemma Auth_effect ctx cfg w :
  OIDCAuthenticator.mu (authenticator w) = false ->
  finishes (Auth ctx cfg w) /\ effect 1 2 w (after (Auth ctx cfg w) w).
Proof.
  intros Hmu. destruct cfg as [cfg|].
  2:{ split; [exact I|]. cbn. apply effect_refl; assumption. }
  rewrite Auth_eq by assumption.
  destruct (decide _).
  - match goal with |- context [ConductSaslConversation ?c ?g ?s ?cl] =>
      destruct (conversation_effect c g s cl w Hmu) as (err & w1 & -> & He1)
    end.
    destruct err as [e|]; [|split; [exact I|revert He1; apply effect_weaken; lia]].
    assert (Hmu1 : OIDCAuthenticator.mu (authenticator w1) = false) by apply He1.
    destruct (invalidateAccessToken_effect (Config.Connection cfg) w1 Hmu1)
      as (w2 & Hi & He2).
    unfold mbind, M_bind, time_Sleep, emit. rewrite Hi.
    set (w3 := with_trace _ w2).
    assert (He3 : effect 0 0 w2 w3).
    { unfold effect, w3. cbn. rewrite exchanges_cons, invocations_cons. cbn.
      destruct He2 as (Hm2 & _). intuition lia. }
    assert (Hmu3 : OIDCAuthenticator.mu (authenticator w3) = false) by apply He3.
    destruct (authDispatch_effect ctx cfg w3 Hmu3) as [Hf He4].
    split.
    + destruct (authDispatch ctx cfg w3); [exact I|exact I|contradiction].
    + assert (Hw : after (authDispatch ctx cfg w3) w = after (authDispatch ctx cfg w3) w3).
      { destruct (authDispatch ctx cfg w3); [reflexivity|reflexivity|contradiction]. }
      rewrite Hw.
      apply (effect_quiet_l 1 1 1 w w1); [assumption|].
      apply (effect_quiet_l 1 0 1 w1 w2); [assumption|].
      apply (effect_quiet_l 1 0 1 w2 w3); assumption.
  - destruct (authDispatch_effect ctx cfg w Hmu) as [Hf He].
    split; [assumption|]. revert He. apply effect_weaken; lia.
Qed.

Lemma Reauth_effect ctx cfg w :
  OIDCAuthenticator.mu (authenticator w) = false ->
  finishes (Reauth ctx cfg w) /\ effect 1 2 w (after (Reauth ctx cfg w) w).
Proof.
  intros Hmu. destruct cfg as [cfg|].
  2:{ split; [exact I|]. cbn. apply effect_refl; assumption. }
  unfold Reauth, mbind, M_bind.
  destruct (invalidateAccessToken_effect (Config.Connection cfg) w Hmu)
    as (w1 & -> & He1).
  assert (Hmu1 : OIDCAuthenticator.mu (authenticator w1) = false) by apply He1.
  destruct (Auth_effect ctx (Some cfg) w1 Hmu1) as [Hf He2].
  split; [assumption|].
  assert (Hw : after (Auth ctx (Some cfg) w1) w = after (Auth ctx (Some cfg) w1) w1).
  { destruct (Auth ctx (Some cfg) w1); [reflexivity|reflexivity|contradiction]. }
  rewrite Hw. apply (effect_quiet_l 1 0 2 w w1); assumption.
Qed.

Lemma SetAccessToken_eq s w :
  OIDCAuthenticator.mu (authenticator w) = false ->
  SetAccessToken s w =
  Done tt (with_authenticator
             (OIDCAuthenticator.with_accessToken s (authenticator w)) w).
Proof. intros Hmu. unfold SetAccessToken. open_world w. mrun. reflexivity. Qed.

Lemma CreateSpeculativeConversation_eq w :
  OIDCAuthenticator.mu (authenticator w) = false ->
  CreateSpeculativeConversation w =
  Done (if decide (OIDCAuthenticator.accessToken (authenticator w) = EmptyString)
        then (None, None)
        else (Some (newSaslConversation
                      {| oidcOneStep.userName := EmptyString;
                         oidcOneStep.accessToken :=
                           OIDCAuthenticator.accessToken (authenticator w) |}
                      "$external" true), None)) w.
Proof.
  intros Hmu. unfold CreateSpeculativeConversation. open_world w. mrun.
  destruct (decide _); reflexivity.
Qed.

Lemma perform_effect op w :
  OIDCAuthenticator.mu (authenticator w) = false ->
  effect 1 2 w (perform op w).
Proof.
  intros Hmu. destruct op; cbn.
  - apply Auth_effect; assumption.
  - apply Reauth_effect; assumption.
  - eapply effect_weaken; [| |apply getAccessToken_effect; assumption]; lia.
  - destruct (invalidateAccessToken_effect conn w Hmu) as (w' & -> & He).
    revert He. apply effect_weaken; lia.
  - rewrite CreateSpeculativeConversation_eq by assumption. cbn.
    apply effect_refl; assumption.
  - rewrite SetAccessToken_eq by assumption. cbn.
    unfold effect. open_world w. intuition lia.
Qed.

Lemma incr_small g : g < uint64.max -> uint64.incr g = g + 1.
Proof.
  unfold uint64.incr, uint64.wrap, uint64.max. intros H.
  apply N.mod_small. unfold uint64.modulus in *. lia.
Qed.

Lemma counters_lower_bound ops : forall w g,
  OIDCAuthenticator.mu (authenticator w) = false ->
  OIDCAuthenticator.tokenGenID (authenticator w) + N.of_nat (length ops)
    <= uint64.max ->
  g ∈ counters ops w ->
  OIDCAuthenticator.tokenGenID (authenticator w) <= g.
Proof.
  induction ops as [|op ops IH]; intros w g Hmu Hb Hin; cbn in Hin.
  - apply list_elem_of_singleton in Hin. subst. lia.
  - apply elem_of_cons in Hin. destruct Hin as [->|Hin]; [lia|].
    destruct (perform_effect op w Hmu) as (Hmu' & _ & _ & _ & _ & HG).
    cbn [length] in Hb.
    assert (HG' : OIDCAuthenticator.tokenGenID (authenticator w)
                  <= OIDCAuthenticator.tokenGenID (authenticator (perform op w))
                  <= OIDCAuthenticator.tokenGenID (authenticator w) + 1).
    { destruct HG as [[-> _]|(_ & -> & _)]; [lia|]. rewrite incr_small; lia. }
    assert (OIDCAuthenticator.tokenGenID (authenticator (perform op w)) <= g)
      by (apply IH; [assumption|lia|assumption]).
    lia.
Qed.

Lemma counters_monotone ops : forall w i j gi gj,
  OIDCAuthenticator.mu (authenticator w) = false ->
  OIDCAuthenticator.tokenGenID (authenticator w) + N.of_nat (length ops)
    <= uint64.max ->
  (i <= j)%nat ->
  counters ops w !! i = Some gi -> counters ops w !! j = Some gj ->
  gi <= gj.
Proof.
  induction ops as [|op ops IH]; intros w i j gi gj Hmu Hb Hij Hi Hj.
  - destruct i, j; cbn in *; try discriminate; try lia.
    injection Hi as <-. injection Hj as <-. lia.
  - cbn [length] in Hb.
    destruct (perform_effect op w Hmu) as (Hmu' & _ & _ & _ & _ & HG).
    assert (HG' : OIDCAuthenticator.tokenGenID (authenticator (perform op w))
                  <= OIDCAuthenticator.tokenGenID (authenticator w) + 1).
    { destruct HG as [[-> _]|(_ & -> & _)]; [lia|]. rewrite incr_small; lia. }
    destruct i as [|i].
    + cbn in Hi. injection Hi as <-.
      apply (counters_lower_bound (op :: ops) w gj Hmu); [cbn [length]; lia|].
      eapply list_elem_of_lookup_2. exact Hj.
    + destruct j as [|j]; [lia|]. cbn in Hi, Hj.
      apply (IH (perform op w) i j gi gj); try assumption; lia.
Qed.


Ltac decide_refl :=
  repeat match goal with
  | |- context [decide (?x <> ?x)] =>
      let Hc := fresh in
      destruct (decide (x <> x)) as [Hc|_]; [exfalso; apply Hc; reflexivity|]
  end.

Lemma reauth_round w :
  reauth_ready w ->
  let w' := perform (opReauth Sample.ctx (Some Sample.cfg)) w in
  reauth_ready w' /\
  OIDCAuthenticator.tokenGenID (authenticator w')
    = uint64.incr (OIDCAuthenticator.tokenGenID (authenticator w)).
Proof.
  intros (Hmu & Ho & Hm & Hh & Hs & Hlt). cbn.
  unfold Reauth, mbind, M_bind.
  rewrite invalidateAccessToken_eq by assumption. cbn [Sample.cfg Config.Connection].
  rewrite Hs.
  destruct (decide _) as [_|Hn]; [|exfalso; apply Hn; right; lia].
  rewrite Auth_eq by (unfold invalidated; cbn; assumption).
  unfold invalidated at 1. cbn. decide_refl.
  unfold authDispatch, doAuthMachine, load, mbind, M_bind, mret, M_ret. cbn.
  rewrite Hh. cbn. rewrite Hm. cbn.
  rewrite getAccessToken_eq by (unfold invalidated; cbn; assumption).
  unfold invalidated at 1. cbn. decide_refl.
  unfold call, answer. mrun. rewrite Ho. cbn.
  rewrite conduct_oidcOneStep. cbn.
  unfold reauth_ready, slot, acquired, invalidated. cbn.
  rewrite lookup_insert_eq. cbn. repeat split; try assumption.
  apply N.mod_lt. discriminate.
Qed.

Lemma reauths_succ n :
  Sample.reauths (N.succ n)
  = opReauth Sample.ctx (Some Sample.cfg) :: Sample.reauths n.
Proof. unfold Sample.reauths. apply N.iter_succ. Qed.

Lemma wrap_incr g n : uint64.incr (uint64.wrap (g + n)) = uint64.wrap (g + N.succ n).
Proof.
  unfold uint64.incr, uint64.wrap.
  rewrite N.Div0.add_mod_idemp_l. f_equal. lia.
Qed.

Lemma perform_all_cons op ops w :
  perform_all (op :: ops) w = perform_all ops (perform op w).
Proof. reflexivity. Qed.

Lemma reauths_counter n : forall w,
  reauth_ready w ->
  reauth_ready (perform_all (Sample.reauths n) w) /\
  OIDCAuthenticator.tokenGenID (authenticator (perform_all (Sample.reauths n) w))
    = uint64.wrap (OIDCAuthenticator.tokenGenID (authenticator w) + n).
Proof.
  induction n as [|n IH] using N.peano_ind; intros w Hw.
  - split; [exact Hw|]. rewrite N.add_0_r. symmetry. apply N.mod_small, Hw.
  - rewrite reauths_succ, perform_all_cons.
    destruct (reauth_round w Hw) as [Hw' HG].
    destruct (IH _ Hw') as [Hr Hc]. split; [exact Hr|].
    rewrite Hc, HG. unfold uint64.incr, uint64.wrap.
    rewrite N.Div0.add_mod_idemp_l. f_equal. lia.
Qed.

Lemma fresh_ready : reauth_ready Sample.fresh.
Proof. unfold reauth_ready. cbn. repeat split; reflexivity. Qed.

(** C3, counterexample: connection 0 reauthenticates 2^64 times against a
    callback and a server that always succeed.  The counter is 1 after the
    first reauthentication and 0 after the last. *)
Lemma generation_counter_wraps :
  OIDCAuthenticator.tokenGenID
    (authenticator (perform_all (Sample.reauths 1) Sample.fresh)) = 1 /\
  Sample.reauths uint64.modulus
    = (Sample.reauths 1 ++ Sample.reauths uint64.max)%list /\
  OIDCAuthenticator.tokenGenID
    (authenticator (perform_all (Sample.reauths uint64.modulus) Sample.fresh)) = 0.
Proof.
  split; [|split].
  - rewrite (proj2 (reauths_counter 1 _ fresh_ready)). reflexivity.
  - change uint64.modulus with (N.succ uint64.max). rewrite reauths_succ. reflexivity.
  - rewrite (proj2 (reauths_counter _ _ fresh_ready)). reflexivity.
Qed.

(** C4: a call of [Auth] that finds a non-empty cached token first runs the
    one-step conversation with that token, which is exactly one conversation
    request carrying the token under the key jwt.  If the conversation
    succeeds the call returns success there and then: one conversation
    request, no callback invocation.  If it fails, the call invalidates the
    token through its connection, sleeps, and goes through the dispatch step
    once; over the whole call that makes at most two conversation requests
    and at most one callback invocation. *)
Theorem Auth_cached_token (w : World) (ctx : context) (cfg : Config.t) :
  OIDCAuthenticator.mu (authenticator w) = false ->
  OIDCAuthenticator.accessToken (authenticator w) <> EmptyString ->
  let conn := Config.Connection cfg in
  let request :=
    evSaslStart conn "$external" MongoDBOIDC
      (bytes_of_document
         [("jwt", bsonString (OIDCAuthenticator.accessToken (authenticator w)))]) in
  let w1 := with_trace (request :: trace w) w in
  let run := Auth ctx (Some cfg) w in
  exists err,
    ConductSaslConversation ctx cfg "$external"
      {| oidcOneStep.userName := OIDCAuthenticator.userName (authenticator w);
         oidcOneStep.accessToken :=
           OIDCAuthenticator.accessToken (authenticator w) |} w
    = Done err w1 /\
    exchanges (trace w1) = S (exchanges (trace w)) /\
    invocations (trace w1) = invocations (trace w) /\
    (err = None -> run = Done None w1) /\
    (err <> None ->
     exists w2,
       invalidateAccessToken conn w1 = Done tt w2 /\
       run = authDispatch ctx cfg
               (with_trace (evSleep invalidateSleepTimeout :: trace w2) w2) /\
       finishes run /\
       (exchanges (trace (after run w)) <= exchanges (trace w) + 2)%nat /\
       (invocations (trace (after run w)) <= invocations (trace w) + 1)%nat).
Proof.
  intros Hmu Htok conn request w1 run.
  pose proof (Auth_effect ctx (Some cfg) w Hmu) as [Hfin Heff].
  fold run in Hfin, Heff. subst run.
  rewrite Auth_eq in * by assumption.
  destruct (decide _) as [_|Hn]; [|contradiction].
  rewrite conduct_oidcOneStep in Hfin, Heff |- *.
  cbn [oidcOneStep.accessToken] in Hfin, Heff |- *.
  change (evSaslStart _ _ _ _) with request in Hfin, Heff |- *.
  fold w1 in Hfin, Heff |- *.
  eexists. split; [reflexivity|].
  split; [unfold w1; cbn; rewrite exchanges_cons; reflexivity|].
  split; [unfold w1; cbn; rewrite invocations_cons; reflexivity|].
  destruct (oneStep_result _ _) as [e|]; split; try congruence.
  intros _.
  assert (Hmu1 : OIDCAuthenticator.mu (authenticator w1) = false) by exact Hmu.
  destruct (invalidateAccessToken_effect conn w1 Hmu1) as (w2 & Hi & _).
  exists w2. split; [exact Hi|].
  unfold mbind, M_bind, time_Sleep, emit in *. fold conn in Hfin, Heff |- *.
  rewrite Hi in *. split; [reflexivity|]. split; [exact Hfin|].
  destruct Heff as (_ & _ & _ & _ & He & [[_ Hn]|(_ & _ & Hn)]); lia.
Qed.

(** A call that reaches its dispatch step continues as [authDispatch]. *)
Lemma reaches_dispatch_Auth ctx cfg w wd :
  OIDCAuthenticator.mu (authenticator w) = false ->
  reaches_dispatch ctx cfg w wd ->
  Auth ctx (Some cfg) w = authDispatch ctx cfg wd /\
  OIDCAuthenticator.mu (authenticator wd) = false /\
  configuration (authenticator wd) = configuration (authenticator w) /\
  OIDCAuthenticator.idpInfo (authenticator wd)
    = OIDCAuthenticator.idpInfo (authenticator w).
Proof.
  intros Hmu [[He ->]|(Hne & err & w1 & Hc & Hi)].
  - rewrite Auth_eq by assumption. rewrite He.
    destruct (decide _) as [Hc|_]; [contradiction|]. auto.
  - rewrite Auth_eq by assumption.
    destruct (decide _) as [_|Hc']; [|contradiction].
    rewrite Hc. 
    match type of Hc with ConductSaslConversation ?c ?g ?s ?cl _ = _ =>
      destruct (conversation_effect c g s cl w Hmu) as (err' & w1' & Hc' & He1)
    end.
    rewrite Hc in Hc'. injection Hc' as <- <-.
    assert (Hmu1 : OIDCAuthenticator.mu (authenticator w1) = false) by apply He1.
    destruct (invalidateAccessToken_effect (Config.Connection cfg) w1 Hmu1)
      as (w2 & Hi2 & He2).
    unfold mbind, M_bind, time_Sleep, emit in *. rewrite Hi2 in *.
    injection Hi as <-. split; [reflexivity|]. cbn.
    destruct He1 as (_ & Hc1 & Hi1 & _), He2 as (Hm2 & Hc2 & Hi2' & _).
    rewrite Hc2, Hc1, Hi2', Hi1. auto.
Qed.

(** Every callback invocation of [doAuthMachine] is one of [callback]. *)
Lemma doAuthMachine_invokes ctx cfg callback w cb' ctx' args' :
  OIDCAuthenticator.mu (authenticator w) = false ->
  evCallback cb' ctx' args' ∈ trace (after (doAuthMachine ctx cfg callback w) w) ->
  evCallback cb' ctx' args' ∈ trace w \/ cb' = callback.
Proof.
  intros Hmu. unfold doAuthMachine, mbind, M_bind.
  rewrite getAccessToken_eq by assumption.
  destruct (decide _).
  - rewrite conduct_oidcOneStep. cbn. intros Hin.
    apply elem_of_cons in Hin. destruct Hin as [Hin|Hin]; [discriminate|auto].
  - assert (Htr : match call callback (ctxWithTimeout ctx machineCallbackTimeout)
                    {| OIDCArgs.Version := apiVersion; OIDCArgs.IDPInfo := None;
                       OIDCArgs.RefreshToken := None |} w with
                  | Done _ w2 | Panic w2 =>
                      forall e, e ∈ trace w2 -> e ∈ trace w \/
                        (exists c a, e = evCallback callback c a) \/ is_callback e = false
                  | Stuck _ => True end).
    { unfold call, answer, azureCallbackBody. mrun.
      destruct callback as [id|clientID resource client|env]; cbn.
      - intros e He. apply elem_of_cons in He. destruct He as [->|He]; eauto.
      - destruct (http_answer _ _) as [e|e|code body]; destruct client; cbn;
          try (destruct (decide _); [|destruct body as [?|[? ?]]]; cbn);
          intros e' He; apply elem_of_cons in He; destruct He as [->|He]; eauto;
          apply elem_of_cons in He; destruct He as [->|He]; eauto.
      - intros e He. apply elem_of_cons in He. destruct He as [->|He]; eauto. }
    destruct (call callback _ _ w) as [[cred0 err0] w2|w2|why]; cbn.
    + destruct cred0 as [c|], err0 as [e|]; cbn; intros Hin.
      1,3,4: apply Htr in Hin; destruct Hin as [?|[(c' & a' & Heq)|Heq]];
          [auto|injection Heq as -> _ _; auto|discriminate].
      rewrite conduct_oidcOneStep in Hin. cbn in Hin.
      apply elem_of_cons in Hin. destruct Hin as [Hin|Hin]; [discriminate|].
      apply Htr in Hin; destruct Hin as [?|[(c' & a' & Heq)|Heq]];
          [auto|injection Heq as -> _ _; auto|discriminate].
    + intros Hin. apply Htr in Hin; destruct Hin as [?|[(c' & a' & Heq)|Heq]];
          [auto|injection Heq as -> _ _; auto|discriminate].
    + auto.
Qed.

(** The dispatch step of [Auth], case by case. *)
Lemma dispatch_cases (w wd : World) (ctx : context) (cfg : Config.t) :
  OIDCAuthenticator.mu (authenticator w) = false ->
  reaches_dispatch ctx cfg w wd ->
  let oa := authenticator w in
  let run := Auth ctx (Some cfg) w in
  match OIDCAuthenticator.OIDCHumanCallback oa,
        OIDCAuthenticator.OIDCMachineCallback oa,
        providerCallback oa with
  | Some _, _, _ =>
      run = Done (Some (newAuthError (literal "OIDC")
                    (Some (Errorf (Sprintf "human flow not implemented yet, %v"
                                     [fmtIDPInfo (OIDCAuthenticator.idpInfo oa)])
                             None)))) wd
  | None, Some machine, _ =>
      run = doAuthMachine ctx cfg machine wd /\
      forall cb ctx' args',
        evCallback cb ctx' args' ∈ trace (after run w) ->
        evCallback cb ctx' args' ∈ trace wd \/ cb = machine
  | None, None, (_, Some err) =>
      run = Done (Some (Errorf (literal "error getting built-in OIDC provider: %w")
                          (Some err))) wd
  | None, None, (Some provided, None) =>
      run = doAuthMachine ctx cfg provided wd
  | None, None, (None, None) =>
      run = Done (Some (newAuthError (literal "no OIDC callback provided") None)) wd
  end.
Proof.
  intros Hmu Hr oa run. subst run.
  destruct (reaches_dispatch_Auth ctx cfg w wd Hmu Hr) as (-> & Hmud & Hc & Hi).
  fold oa in Hc, Hi. unfold configuration in Hc. injection Hc as Hp Hm Hh Hu Hcl.
  assert (Hpc : providerCallback (authenticator wd) = providerCallback oa).
  { unfold providerCallback. rewrite Hp, Hu, Hcl. reflexivity. }
  unfold authDispatch, doAuthHuman, load, mbind, M_bind, mret, M_ret.
  cbv beta. rewrite Hh.
  destruct (OIDCAuthenticator.OIDCHumanCallback oa) as [h|];
    [rewrite Hi; reflexivity|].
  rewrite Hm.
  destruct (OIDCAuthenticator.OIDCMachineCallback oa) as [m|]; [|rewrite Hpc].
  - split; [reflexivity|]. intros cb ctx' args' Hin.
    apply (doAuthMachine_invokes ctx cfg m wd cb ctx' args' Hmud).
    destruct (doAuthMachine_effect ctx cfg m wd Hmud) as [Hf _].
    destruct (doAuthMachine ctx cfg m wd); [exact Hin|exact Hin|contradiction].
  - destruct (providerCallback oa) as [[p|] [e|]]; reflexivity.
Qed.

(** C8: [CreateSpeculativeConversation] changes nothing.  With an empty
    cache it returns neither a conversation nor an error; with a cached token
    it returns a speculative conversation of a one-step client (completed,
    and failing on any further challenge) whose first and only payload is the
    document that maps jwt to exactly the cached token. *)
Theorem CreateSpeculativeConversation_contract (w : World) :
  OIDCAuthenticator.mu (authenticator w) = false ->
  let accessToken := OIDCAuthenticator.accessToken (authenticator w) in
  (accessToken = EmptyString ->
   CreateSpeculativeConversation w = Done (None, None) w) /\
  (accessToken <> EmptyString ->
   exists conversation,
     CreateSpeculativeConversation w = Done (Some conversation, None) w /\
     Start (saslConversation.client conversation)
       = (MongoDBOIDC, bytes_of_document [("jwt", bsonString accessToken)], None) /\
     Completed (saslConversation.client conversation) = true /\
     (forall challenge,
        snd (Next (saslConversation.client conversation) challenge) <> None) /\
     saslConversation.speculative conversation = true).
Proof.
  intros Hmu accessToken. rewrite CreateSpeculativeConversation_eq by assumption.
  fold accessToken. split; intros H; destruct (decide _); try contradiction.
  - reflexivity.
  - eexists. split; [reflexivity|]. cbn. repeat split. discriminate.
Qed.

Lemma append_NUL (u p : string) :
  (u +:+ NUL) +:+ p = u +:+ String Ascii.zero p.
Proof.
  induction u as [|c u IH]; [reflexivity|].
  change (String c ((u +:+ NUL) +:+ p) = String c (u +:+ String Ascii.zero p)).
  f_equal. exact IH.
Qed.

Lemma plain_payload (u p : string) :
  ((NUL +:+ u) +:+ NUL) +:+ p = String Ascii.zero (u +:+ String Ascii.zero p).
Proof.
  change (String Ascii.zero ((u +:+ NUL) +:+ p)
          = String Ascii.zero (u +:+ String Ascii.zero p)).
  f_equal. apply append_NUL.
Qed.

(** C9: for every user name and password the PLAIN client's only payload is
    the byte 0, the user name, the byte 0 and the password; it reports
    completion at once; [Next] fails on every challenge with the error
    unexpected server challenge, so a conversation that the server does not
    complete at its first step fails with it after the one request; and
    [Reauth] returns the error that says PLAIN does not support
    reauthentication, whatever it is given. *)
Theorem plain_mechanism (username password : string) :
  let client := {| plainSaslClient.username := username;
                   plainSaslClient.password := password |} in
  let a := {| PlainAuthenticator.Username := username;
              PlainAuthenticator.Password := password |} in
  let payload :=
    bytes_of_string (String Ascii.zero (username +:+ String Ascii.zero password)) in
  let unexpected := newAuthError (literal "unexpected server challenge") None in
  Start client = (PLAIN, payload, None) /\
  Completed client = true /\
  (forall challenge, Next client challenge = (nil_bytes, Some unexpected)) /\
  (forall ctx cfg w done cid challenge,
     let request :=
       evSaslStart (Config.Connection cfg) "$external" PLAIN payload in
     server_reply (oracle w) (request :: trace w)
       = saslResponse done cid challenge ->
     PlainAuthenticator_Auth a ctx cfg w
     = Done (if done then None else Some unexpected)
         (with_trace (request :: trace w) w)) /\
  (forall ctx cfg,
     PlainAuthenticator_Reauth a ctx cfg
     = Some (newAuthError
               (literal "Plain authentication does not support reauthentication")
               None)).
Proof.
  intros client a payload unexpected.
  assert (Hs : Start client = (PLAIN, payload, None)).
  { unfold payload. cbn [Start plainSaslClient_SaslClient client
      plainSaslClient.username plainSaslClient.password].
    rewrite plain_payload. reflexivity. }
  split; [exact Hs|]. repeat split.
  intros ctx cfg w done cid challenge request Hr.
  unfold PlainAuthenticator_Auth. rewrite conduct_plain.
  cbv zeta. cbn [a PlainAuthenticator.Username PlainAuthenticator.Password].
  unfold client in Hs. rewrite Hs. cbn [fst snd]. fold request. rewrite Hr.
  destruct done; reflexivity.
Qed.

(** What the validation of [newOIDCAuthenticator] rejects, exactly. *)
Lemma validation_cases (cred : Cred.t) (httpClient : http_Client) :
  let rejected := exists err, newOIDCAuthenticator cred httpClient = (None, Some err) in
  let accepted :=
    exists oa, newOIDCAuthenticator cred httpClient = (Some oa, None) /\
               OIDCAuthenticator.accessToken oa = EmptyString /\
               OIDCAuthenticator.tokenGenID oa = 0 in
  (rejected <->
   Cred.Password cred <> EmptyString \/
   exists env,
     map_index (Cred.Props cred) environmentProp = Some env /\
     (((ToLower env = azureEnvironmentValue \/ ToLower env = gcpEnvironmentValue) /\
       map_index (Cred.Props cred) resourceProp = None)
      \/ ((ToLower env = azureEnvironmentValue \/
           ToLower env = gcpEnvironmentValue \/
           ToLower env = testEnvironmentValue) /\
          (Cred.OIDCMachineCallback cred <> None \/
           Cred.OIDCHumanCallback cred <> None)))) /\
  (rejected \/ accepted).
Proof.
  cbv zeta. unfold newOIDCAuthenticator, map_index.
  destruct (decide (Cred.Password cred <> EmptyString)) as [Hp|Hp].
  { split; [|left; eauto]. split; [auto|eauto]. }
  destruct (Cred.Props cred) as [props|].
  2:{ split; [|right; eauto].
      split; [intros [err H]; discriminate|intros [?|(env & H & _)]; [contradiction|discriminate]]. }
  destruct (props !! environmentProp) as [env|] eqn:Henv.
  2:{ split; [|right; eauto].
      split; [intros [err H]; discriminate|intros [?|(env & H & _)]; [contradiction|discriminate]]. }
  assert (Hne1 : azureEnvironmentValue <> gcpEnvironmentValue) by discriminate.
  assert (Hne2 : azureEnvironmentValue <> testEnvironmentValue) by discriminate.
  assert (Hne3 : gcpEnvironmentValue <> testEnvironmentValue) by discriminate.
  destruct (decide (Cred.OIDCMachineCallback cred <> None \/
                    Cred.OIDCHumanCallback cred <> None)) as [Hcb|Hcb];
  destruct (props !! resourceProp) as [res|] eqn:Hres;
  destruct (decide (ToLower env = azureEnvironmentValue)) as [Ha|Ha];
  destruct (decide (ToLower env = gcpEnvironmentValue)) as [Hg|Hg];
  destruct (decide (ToLower env = testEnvironmentValue)) as [Ht|Ht];
  try congruence.
  all: cbn.

  all: (split; [|first [left; eexists; reflexivity | right; eexists; repeat split; reflexivity]]).
  all: (split;
    [ intros [err H];
      first [discriminate | right; exists env; split; [reflexivity|tauto]]
    | intros [?|(env' & [= <-] & H)]; [contradiction|];
      first [eexists; reflexivity | exfalso; intuition congruence] ]).
Qed.

(** C6, counterexample: a credential whose ENVIRONMENT is aws and that
    carries a machine callback is accepted. *)
Lemma unrecognised_tag_with_callback :
  map_index (Cred.Props Sample.unrecognised) environmentProp = Some "aws" /\
  Cred.OIDCMachineCallback Sample.unrecognised <> None /\
  exists oa, newOIDCAuthenticator Sample.unrecognised None = (Some oa, None).
Proof.
  split; [reflexivity|]. split; [discriminate|]. eexists. vm_compute. reflexivity.
Qed.

Lemma newOIDCAuthenticator_configuration cred httpClient oa :
  newOIDCAuthenticator cred httpClient = (Some oa, None) ->
  configuration oa = (Cred.Props cred, Cred.OIDCMachineCallback cred,
                      Cred.OIDCHumanCallback cred, Cred.Username cred, httpClient) /\
  OIDCAuthenticator.mu oa = false /\
  OIDCAuthenticator.accessToken oa = EmptyString /\
  OIDCAuthenticator.tokenGenID oa = 0.
Proof.
  unfold newOIDCAuthenticator. destruct (decide _); [discriminate|].
  match goal with |- context [match ?c with Some _ => _ | None => _ end = _] =>
    destruct c end; [discriminate|].
  intros [= <-]. repeat split.
Qed.

(** C10: take a credential whose ENVIRONMENT value lowers to azure, gcp or
    test without being in lower case itself, and that [newOIDCAuthenticator]
    accepts.  Validation has read the value as its lower-case form: the
    resource property is there unless the form is test, and no callback is
    set.  Provider resolution compares the value as it is written, so it
    answers that the environment is not supported, and every call of [Auth]
    on an authenticator with this configuration that reaches its dispatch
    step fails with that error, wrapped. *)
Theorem environment_case_mismatch (cred : Cred.t) (httpClient : http_Client)
    (env : string) (oa : OIDCAuthenticator.t) :
  map_index (Cred.Props cred) environmentProp = Some env ->
  ToLower env = azureEnvironmentValue \/ ToLower env = gcpEnvironmentValue \/
    ToLower env = testEnvironmentValue ->
  env <> ToLower env ->
  newOIDCAuthenticator cred httpClient = (Some oa, None) ->
  let unsupported :=
    Errorf (Sprintf "%q %q not supported for MONGODB-OIDC"
              [fmtString environmentProp; fmtString env]) None in
  (ToLower env <> testEnvironmentValue ->
   map_index (Cred.Props cred) resourceProp <> None) /\
  Cred.OIDCMachineCallback cred = None /\
  Cred.OIDCHumanCallback cred = None /\
  providerCallback oa = (None, Some unsupported) /\
  forall (w wd : World) (ctx : context) (cfg : Config.t),
    configuration (authenticator w) = configuration oa ->
    OIDCAuthenticator.mu (authenticator w) = false ->
    reaches_dispatch ctx cfg w wd ->
    Auth ctx (Some cfg) w
    = Done (Some (Errorf (literal "error getting built-in OIDC provider: %w")
                    (Some unsupported))) wd.
Proof.
  intros Henv Hlow Hcase Hnew unsupported.
  destruct (validation_cases cred httpClient) as [[_ Hrej] _].
  assert (Hnot : ~ exists err, newOIDCAuthenticator cred httpClient = (None, Some err)).
  { intros [err H]. congruence. }
  assert (Hres : ToLower env <> testEnvironmentValue ->
                 map_index (Cred.Props cred) resourceProp <> None).
  { intros Ht Hr. apply Hnot, Hrej. right. exists env. split; [assumption|].
    left. split; [tauto|assumption]. }
  assert (Hcb : Cred.OIDCMachineCallback cred = None /\
                Cred.OIDCHumanCallback cred = None).
  { destruct (Cred.OIDCMachineCallback cred) eqn:Hm;
    destruct (Cred.OIDCHumanCallback cred) eqn:Hh; try (split; reflexivity);
    exfalso; apply Hnot, Hrej; right; exists env; (split; [assumption|]);
    right; (split; [tauto|]); rewrite ?Hm, ?Hh; first [left; discriminate|right; discriminate]. }
  destruct Hcb as [Hm Hh].
  destruct (newOIDCAuthenticator_configuration _ _ _ Hnew) as (Hconf & _).
  assert (Hpc : forall oa', configuration oa' = configuration oa ->
                providerCallback oa' = (None, Some unsupported)).
  { intros oa' Hc. rewrite Hconf in Hc. unfold configuration in Hc.
    injection Hc as Hp _ _ _ _. unfold providerCallback. rewrite Hp, Henv.
    destruct (decide (env = azureEnvironmentValue)) as [->|_];
      [exfalso; apply Hcase; reflexivity|].
    destruct (decide (env = gcpEnvironmentValue)) as [->|_];
      [exfalso; apply Hcase; reflexivity|].
    reflexivity. }
  split; [exact Hres|]. split; [exact Hm|]. split; [exact Hh|].
  split; [apply Hpc; reflexivity|].
  intros w wd ctx cfg Hc Hmu Hr.
  pose proof (dispatch_cases w wd ctx cfg Hmu Hr) as Hd. cbv zeta in Hd.
  rewrite (Hpc _ Hc) in Hd.
  rewrite Hconf in Hc. unfold configuration in Hc. injection Hc as _ Hm' Hh' _ _.
  rewrite Hh', Hh, Hm', Hm in Hd. exact Hd.
Qed.

(** ** The claims about [invalidateAccessToken] and [getAccessToken] *)

(** C1: with the mutex free, [invalidateAccessToken] returns, and for the
    generation [g] recorded on the connection and the counter [G] of the
    authenticator: the cached token is cleared and the connection's generation
    reset to 0 (nothing else changing) exactly when [g = 0] or [G <= g];
    otherwise authenticator and connection slots are what they were.  The
    counter and the trace never change. *)
Theorem invalidateAccessToken_fenced (w : World) (conn : Connection) :
  OIDCAuthenticator.mu (authenticator w) = false ->
  let g := slot w conn in
  let G := OIDCAuthenticator.tokenGenID (authenticator w) in
  exists w',
    invalidateAccessToken conn w = Done tt w' /\
    ((OIDCAuthenticator.accessToken (authenticator w') = EmptyString /\
      slot w' conn = 0 /\
      authenticator w' =
        OIDCAuthenticator.with_accessToken EmptyString (authenticator w) /\
      slots w' = <[conn := 0]> (slots w))
     <-> (g = 0 \/ G <= g)) /\
    (~ (g = 0 \/ G <= g) ->
       authenticator w' = authenticator w /\ slots w' = slots w) /\
    OIDCAuthenticator.tokenGenID (authenticator w') = G /\
    trace w' = trace w /\ oracle w' = oracle w.
Proof.
  intros Hmu g G. rewrite invalidateAccessToken_eq by assumption.
  fold g G. eexists. split; [reflexivity|].
  destruct (decide (g = 0 \/ G <= g)) as [Hc|Hc].
  - unfold invalidated, slot. cbn. rewrite lookup_insert_eq. cbn.
    split; [tauto|]. split; [intros Hn; contradiction|]. auto.
  - split; [|auto].
    split; [|contradiction].
    intros (_ & Hs & _). exfalso. apply Hc. left. exact Hs.
Qed.

Lemma invalidateAccessToken_fenced_witness :
  exists w',
    invalidateAccessToken 0%nat Sample.cached = Done tt w' /\
    OIDCAuthenticator.accessToken (authenticator w') = EmptyString.
Proof.
  destruct (invalidateAccessToken_fenced Sample.cached 0%nat eq_refl)
    as (w' & Hrun & Hiff & _).
  exists w'. split; [exact Hrun|].
  apply Hiff. right. vm_compute. discriminate.
Defined.

(** C2: with the mutex free, [getAccessToken] returns a non-empty cached
    token as it is and leaves the world, trace included, untouched.  With an
    empty cache it invokes the callback exactly once.  If the callback
    returns an error, that error is returned as it is and authenticator and
    connection slots are what they were.  If it returns a credential, the
    credential's access token is returned and stored, the counter is
    incremented (as a uint64), the new counter is recorded on the connection,
    the refresh token is replaced when the credential has one and kept
    otherwise, and nothing else changes. *)
Theorem getAccessToken_contract (w : World) (ctx : context)
    (conn : Connection) (args : OIDCArgs.t) (callback : OIDCCallback) :
  OIDCAuthenticator.mu (authenticator w) = false ->
  let oa := authenticator w in
  let run := getAccessToken ctx conn args callback w in
  (OIDCAuthenticator.accessToken oa <> EmptyString ->
   run = Done (OIDCAuthenticator.accessToken oa, None) w) /\
  (OIDCAuthenticator.accessToken oa = EmptyString ->
   invocations (trace (after run w)) = S (invocations (trace w)) /\
   (forall cred err w2,
      call callback ctx args w = Done (cred, Some err) w2 ->
      run = Done (EmptyString, Some err) w2 /\
      authenticator w2 = oa /\ slots w2 = slots w) /\
   (forall cred w2,
      call callback ctx args w = Done (Some cred, None) w2 ->
      exists w',
        run = Done (OIDCCredential.AccessToken cred, None) w' /\
        OIDCAuthenticator.accessToken (authenticator w')
          = OIDCCredential.AccessToken cred /\
        OIDCAuthenticator.tokenGenID (authenticator w')
          = uint64.incr (OIDCAuthenticator.tokenGenID oa) /\
        slot w' conn = OIDCAuthenticator.tokenGenID (authenticator w') /\
        slots w'
          = <[conn := uint64.incr (OIDCAuthenticator.tokenGenID oa)]> (slots w) /\
        OIDCAuthenticator.refreshToken (authenticator w')
          = match OIDCCredential.RefreshToken cred with
            | Some r => Some r
            | None => OIDCAuthenticator.refreshToken oa
            end /\
        configuration (authenticator w') = configuration oa /\
        OIDCAuthenticator.idpInfo (authenticator w')
          = OIDCAuthenticator.idpInfo oa /\
        OIDCAuthenticator.mu (authenticator w') = false /\
        trace w' = trace w2)).
Proof.
  intros Hmu oa run.
  pose proof (getAccessToken_effect ctx conn args callback w Hmu) as [_ Heff].
  fold run in Heff. subst run. rewrite getAccessToken_eq in * by assumption.
  fold oa in Heff |- *. split.
  - intros Hne. destruct (decide _); [reflexivity|contradiction].
  - intros He. destruct (decide _) as [Hne|_]; [contradiction|].
    pose proof (call_effect callback ctx args w) as Hc.
    split; [|split].
    + destruct Heff as (_ & _ & _ & _ & _ & [[HG Hn]|(_ & _ & Hn)]); [|exact Hn].
      destruct (call callback ctx args w) as [[c e] w2|w2|why];
        [| |contradiction].
      * destruct Hc as (Ha & Hs & Ho & Hi & _).
        destruct c as [c|], e as [e|]; cbn in *; try exact Hi.
      * destruct Hc as (_ & _ & _ & Hi & _). exact Hi.
    + intros c e w2 Heq. rewrite Heq in *. destruct Hc as (Ha & Hs & _).
      destruct c; auto.
    + intros c w2 Heq. rewrite Heq in *. destruct Hc as (Ha & Hs & _).
      eexists. split; [reflexivity|]. unfold acquired, slot. cbn.
      rewrite lookup_insert_eq, Ha, Hs. cbn. fold oa.
      repeat split; try reflexivity. rewrite <- Hmu. reflexivity.
Qed.

Lemma getAccessToken_contract_witness :
  invocations
    (trace (after (getAccessToken Sample.ctx 0%nat Sample.args (userCallback 7)
                     Sample.fresh) Sample.fresh))
  = S (invocations (trace Sample.fresh)).
Proof.
  exact (proj1 (proj2 (getAccessToken_contract Sample.fresh Sample.ctx 0%nat
                         Sample.args (userCallback 7) eq_refl) eq_refl)).
Defined.

(** ** The generation counter *)

(** C3, amended: the counter of a fresh authenticator is 0.  Every operation
    that starts with the mutex free ends with it free and leaves the counter
    as it was or increments it (as a uint64) once, and then with exactly one
    callback invocation more in the trace.  [getAccessToken] increments it
    exactly when the cache is empty and the callback returns a credential,
    storing the token and recording the new counter on the connection in the
    same call; [invalidateAccessToken] never changes it.  Along a sequence of
    operations during which the counter cannot pass 2^64 - 1, the successive
    counters never decrease.  A caller that finds the mutex held waits, and
    has changed nothing. *)
Theorem generation_counter_steps :
  (forall cred httpClient oa,
     newOIDCAuthenticator cred httpClient = (Some oa, None) ->
     OIDCAuthenticator.tokenGenID oa = 0) /\
  (forall w op,
     OIDCAuthenticator.mu (authenticator w) = false ->
     let w' := perform op w in
     OIDCAuthenticator.mu (authenticator w') = false /\
     (OIDCAuthenticator.tokenGenID (authenticator w')
        = OIDCAuthenticator.tokenGenID (authenticator w)
      \/ (OIDCAuthenticator.tokenGenID (authenticator w')
            = uint64.incr (OIDCAuthenticator.tokenGenID (authenticator w)) /\
          invocations (trace w') = S (invocations (trace w))))) /\
  (forall w ctx conn args callback,
     OIDCAuthenticator.mu (authenticator w) = false ->
     let w' := after (getAccessToken ctx conn args callback w) w in
     let G := OIDCAuthenticator.tokenGenID (authenticator w) in
     let G' := OIDCAuthenticator.tokenGenID (authenticator w') in
     (OIDCAuthenticator.accessToken (authenticator w) <> EmptyString ->
      G' = G) /\
     (OIDCAuthenticator.accessToken (authenticator w) = EmptyString ->
      (forall cred w2,
         call callback ctx args w = Done (Some cred, None) w2 ->
         G' = uint64.incr G /\
         OIDCAuthenticator.accessToken (authenticator w')
           = OIDCCredential.AccessToken cred /\
         slot w' conn = G') /\
      (forall cred err w2,
         call callback ctx args w = Done (cred, Some err) w2 ->
         G' = G /\
         OIDCAuthenticator.accessToken (authenticator w') = EmptyString))) /\
  (forall w conn,
     OIDCAuthenticator.tokenGenID
       (authenticator (after (invalidateAccessToken conn w) w))
     = OIDCAuthenticator.tokenGenID (authenticator w)) /\
  (forall w ops i j gi gj,
     OIDCAuthenticator.mu (authenticator w) = false ->
     OIDCAuthenticator.tokenGenID (authenticator w) + N.of_nat (length ops)
       <= uint64.max ->
     (i <= j)%nat ->
     counters ops w !! i = Some gi ->
     counters ops w !! j = Some gj ->
     gi <= gj) /\
  (forall w ctx conn args callback,
     OIDCAuthenticator.mu (authenticator w) = true ->
     getAccessToken ctx conn args callback w = Stuck waitMutex /\
     invalidateAccessToken conn w = Stuck waitMutex).
Proof.
  split; [|split; [|split; [|split; [|split]]]].
  - intros cred httpClient oa H.
    apply (newOIDCAuthenticator_configuration _ _ _ H).
  - intros w op Hmu w'.
    destruct (perform_effect op w Hmu) as (Hmu' & _ & _ & _ & _ & HG).
    split; [exact Hmu'|]. destruct HG as [[HG _]|(_ & HG & Hn)]; auto.
  - intros w ctx conn args callback Hmu w' G G'. subst w' G G'.
    rewrite getAccessToken_eq by assumption.
    destruct (decide _) as [Hne|He]; (split; [intros Hne'|intros He']);
      try contradiction; try reflexivity.
    pose proof (call_effect callback ctx args w) as Hc.
    split.
    + intros cred w2 Heq. rewrite Heq in *. destruct Hc as (Ha & Hs & _).
      unfold acquired, slot. cbn. rewrite lookup_insert_eq, Ha. auto.
    + intros cred err w2 Heq. rewrite Heq in *. destruct Hc as (Ha & _).
      destruct cred; cbn; rewrite Ha; auto.
  - intros w conn.
    destruct (OIDCAuthenticator.mu (authenticator w)) eqn:Hmu.
    + unfold invalidateAccessToken, Lock, mbind, M_bind. rewrite Hmu. reflexivity.
    + destruct (invalidateAccessToken_effect conn w Hmu) as (w' & -> & He).
      cbn. destruct He as (_ & _ & _ & _ & _ & [[HG _]|[Hk _]]);
        [exact HG|discriminate].
  - intros w ops. apply counters_monotone.
  - intros w ctx conn args callback Hmu.
    unfold getAccessToken, invalidateAccessToken, Lock, mbind, M_bind.
    rewrite Hmu. split; reflexivity.
Qed.

Lemma generation_counter_steps_witness :
  exists gi gj,
    counters (Sample.reauths 3) Sample.fresh !! 0%nat = Some gi /\
    counters (Sample.reauths 3) Sample.fresh !! 3%nat = Some gj /\
    gi <= gj.
Proof.
  exists 0, 3.
  assert (Hi : counters (Sample.reauths 3) Sample.fresh !! 0%nat = Some 0)
    by (vm_compute; reflexivity).
  assert (Hj : counters (Sample.reauths 3) Sample.fresh !! 3%nat = Some 3)
    by (vm_compute; reflexivity).
  split; [exact Hi|]. split; [exact Hj|].
  apply (proj1 (proj2 (proj2 (proj2 (proj2 generation_counter_steps))))
           Sample.fresh (Sample.reauths 3) 0%nat 3%nat 0 3 eq_refl);
    [vm_compute; discriminate|lia|exact Hi|exact Hj].
Defined.

(** ** The remaining claims *)

(** C6, amended: [newOIDCAuthenticator] is a function of the credential
    alone, so it does nothing on the network.  It rejects a credential, with
    an error and no authenticator, exactly when the password is not empty, or
    the ENVIRONMENT value reads azure or gcp in lower case and TOKEN_RESOURCE
    is absent, or the value reads azure, gcp or test in lower case and a
    machine or human callback is set.  Every other credential yields an
    authenticator with an empty cache and the counter 0. *)
Theorem newOIDCAuthenticator_rejects (cred : Cred.t) (httpClient : http_Client) :
  let rejected :=
    exists err, newOIDCAuthenticator cred httpClient = (None, Some err) in
  let accepted :=
    exists oa, newOIDCAuthenticator cred httpClient = (Some oa, None) /\
               OIDCAuthenticator.accessToken oa = EmptyString /\
               OIDCAuthenticator.tokenGenID oa = 0 in
  (rejected <->
   Cred.Password cred <> EmptyString \/
   exists env,
     map_index (Cred.Props cred) environmentProp = Some env /\
     (((ToLower env = azureEnvironmentValue \/ ToLower env = gcpEnvironmentValue) /\
       map_index (Cred.Props cred) resourceProp = None)
      \/ ((ToLower env = azureEnvironmentValue \/
           ToLower env = gcpEnvironmentValue \/
           ToLower env = testEnvironmentValue) /\
          (Cred.OIDCMachineCallback cred <> None \/
           Cred.OIDCHumanCallback cred <> None)))) /\
  (rejected \/ accepted).
Proof. exact (validation_cases cred httpClient). Qed.

(** C7: a call of [Auth] that reaches its dispatch step, in the world [wd],
    goes on as follows.  With a human callback it fails with the error that
    says the human flow is not implemented, and changes nothing more.
    Without one, a machine callback of the user is what [doAuthMachine] is
    run with, whatever the properties say, and no other callback is invoked.
    Without any callback of the user the provider is resolved from the
    properties: an error of the resolution fails the call, wrapped; a
    resolved callback is what [doAuthMachine] is run with; and if there is
    nothing to resolve the call fails with the error no OIDC callback
    provided.  None of the failing cases changes the world. *)
Theorem Auth_dispatch (w wd : World) (ctx : context) (cfg : Config.t) :
  OIDCAuthenticator.mu (authenticator w) = false ->
  reaches_dispatch ctx cfg w wd ->
  let oa := authenticator w in
  let run := Auth ctx (Some cfg) w in
  match OIDCAuthenticator.OIDCHumanCallback oa,
        OIDCAuthenticator.OIDCMachineCallback oa,
        providerCallback oa with
  | Some _, _, _ =>
      run = Done (Some (newAuthError (literal "OIDC")
                    (Some (Errorf (Sprintf "human flow not implemented yet, %v"
                                     [fmtIDPInfo (OIDCAuthenticator.idpInfo oa)])
                             None)))) wd
  | None, Some machine, _ =>
      run = doAuthMachine ctx cfg machine wd /\
      forall cb ctx' args',
        evCallback cb ctx' args' ∈ trace (after run w) ->
        evCallback cb ctx' args' ∈ trace wd \/ cb = machine
  | None, None, (_, Some err) =>
      run = Done (Some (Errorf (literal "error getting built-in OIDC provider: %w")
                          (Some err))) wd
  | None, None, (Some provided, None) =>
      run = doAuthMachine ctx cfg provided wd
  | None, None, (None, None) =>
      run = Done (Some (newAuthError (literal "no OIDC callback provided") None)) wd
  end.
Proof. exact (dispatch_cases w wd ctx cfg). Qed.

Lemma Auth_dispatch_witness :
  Auth Sample.ctx (Some Sample.cfg) Sample.fresh
  = doAuthMachine Sample.ctx Sample.cfg (userCallback 7) Sample.fresh.
Proof.
  exact (proj1 (Auth_dispatch Sample.fresh Sample.fresh Sample.ctx Sample.cfg
                  eq_refl (or_introl (conj eq_refl eq_refl)))).
Defined.

Lemma Auth_cached_token_witness :
  exists w1,
    Auth Sample.ctx (Some Sample.cfg) Sample.cached = Done None w1 /\
    exchanges (trace w1) = S (exchanges (trace Sample.cached)) /\
    invocations (trace w1) = invocations (trace Sample.cached).
Proof.
  destruct (Auth_cached_token Sample.cached Sample.ctx Sample.cfg eq_refl)
    as (err & Hrun & Hex & Hinv & Hok & _).
  { vm_compute. discriminate. }
  eexists. split; [|split; [exact Hex|exact Hinv]].
  apply Hok.
  rewrite conduct_oidcOneStep in Hrun. injection Hrun as <-. reflexivity.
Defined.

Lemma CreateSpeculativeConversation_contract_witness :
  CreateSpeculativeConversation Sample.fresh = Done (None, None) Sample.fresh.
Proof.
  exact (proj1 (CreateSpeculativeConversation_contract Sample.fresh eq_refl)
           eq_refl).
Defined.

Lemma environment_case_mismatch_witness :
  exists oa,
    newOIDCAuthenticator Sample.capitalised None = (Some oa, None) /\
    providerCallback oa
    = (None,
       Some (Errorf (Sprintf "%q %q not supported for MONGODB-OIDC"
                       [fmtString environmentProp; fmtString "Azure"]) None)).
Proof.
  eexists. split; [vm_compute; reflexivity|].
  refine (proj1 (proj2 (proj2 (proj2
            (environment_case_mismatch Sample.capitalised None "Azure" _
               _ _ _ _))))).
  - vm_compute. reflexivity.
  - left. reflexivity.
  - discriminate.
  - vm_compute. reflexivity.
Defined.

Arguments total : simpl never.
Lemma total_nil f : total f [] = 0%nat.
Proof. reflexivity. Qed.

Lemma total_cons f p l : total f (p :: l) = (f p + total f l)%nat.
Proof. reflexivity. Qed.

Lemma total_insert f l : forall i p p',
  l !! i = Some p ->
  (total f (<[i := p']> l) + f p = total f l + f p')%nat.
Proof.
  induction l as [|q l IH]; intros i p p' Hl; [discriminate|].
  destruct i as [|i]; cbn in Hl.
  - injection Hl as ->. cbn [insert list_insert]. rewrite !total_cons. lia.
  - change (<[S i := p']> (q :: l)) with (q :: <[i := p']> l).
    rewrite !total_cons. specialize (IH i p p' Hl). lia.
Qed.

Lemma total_lookup f l : forall i p,
  l !! i = Some p -> (f p <= total f l)%nat.
Proof.
  induction l as [|q l IH]; intros i p Hl; [discriminate|].
  rewrite total_cons. destruct i as [|i]; cbn in Hl.
  - injection Hl as ->. lia.
  - specialize (IH i p Hl). lia.
Qed.

(** If one element carries the whole sum, the others carry nothing. *)
Lemma total_others f l : forall i p j q,
  l !! i = Some p -> total f l = f p -> j <> i -> l !! j = Some q -> f q = 0%nat.
Proof.
  induction l as [|x l IH]; intros i p j q Hi Ht Hne Hj; [discriminate|].
  rewrite total_cons in Ht.
  destruct i as [|i], j as [|j]; cbn in Hi, Hj; try congruence.
  - injection Hi as ->. pose proof (total_lookup f l j q Hj). lia.
  - injection Hj as ->. pose proof (total_lookup f l i p Hi). lia.
  - apply (IH i p j q); try assumption; [|congruence].
    pose proof (total_lookup f l i p Hi). lia.
Qed.

Lemma total_le f g l : (forall p, (f p <= g p)%nat) -> (total f l <= total g l)%nat.
Proof.
  intros H. induction l as [|p l IH]; [reflexivity|].
  rewrite !total_cons. specialize (H p). lia.
Qed.

Lemma total_le_at f g l : forall i p,
  (forall q, (f q <= g q)%nat) ->
  l !! i = Some p ->
  (total f l + g p <= total g l + f p)%nat.
Proof.
  induction l as [|x l IH]; intros i p Hfg Hl; [discriminate|].
  rewrite !total_cons. destruct i as [|i]; cbn in Hl.
  - injection Hl as ->. pose proof (total_le f g l Hfg). lia.
  - specialize (IH i p Hfg Hl). specialize (Hfg x). lia.
Qed.

Lemma callback_holds q : (flag (in_callback q) <= flag (holds_mutex q))%nat.
Proof. destruct q; cbn; lia. Qed.

Lemma total_replicate f n p : total f (replicate n p) = (n * f p)%nat.
Proof. induction n as [|n IH]; cbn; [reflexivity|]. rewrite total_cons, IH. lia. Qed.

Lemma invocations_app a b :
  invocations (a ++ b) = (invocations a + invocations b)%nat.
Proof. unfold invocations. rewrite filter_app, length_app. reflexivity. Qed.

Lemma exchanges_app a b :
  exchanges (a ++ b) = (exchanges a + exchanges b)%nat.
Proof. unfold exchanges. rewrite filter_app, length_app. reflexivity. Qed.

(** Once entered, a callback leaves authenticator and slots alone and logs
    neither an invocation nor a conversation request. *)
Lemma answer_effect cb ctx w :
  match answer cb ctx w with
  | Done _ w' | Panic w' =>
      authenticator w' = authenticator w /\ slots w' = slots w /\
      oracle w' = oracle w /\
      exists extra,
        trace w' = (extra ++ trace w)%list /\
        invocations extra = 0%nat /\ exchanges extra = 0%nat /\
        forall c T, Forall (event_ok c T) extra
  | Stuck _ => False
  end.
Proof.
  assert (Hnil : forall t : list Event, exists extra,
            t = (extra ++ t)%list /\
            invocations extra = 0%nat /\ exchanges extra = 0%nat /\
            forall c T, Forall (event_ok c T) extra).
  { intros t. exists []. repeat split. intros; constructor. }
  assert (Hone : forall (t : list Event) client ctx uri header, exists extra,
            evHTTPGet client ctx uri header :: t = (extra ++ t)%list /\
            invocations extra = 0%nat /\ exchanges extra = 0%nat /\
            forall c T, Forall (event_ok c T) extra).
  { intros t client ctx' uri header. exists [evHTTPGet client ctx' uri header].
    repeat split. intros; repeat constructor. }
  unfold answer, azureCallbackBody. mrun.
  destruct cb as [id|clientID resource client|env]; cbn; auto.
  destruct (http_answer _ _) as [e|e|code body]; destruct client; cbn; auto.
  all: destruct (decide _); [|destruct body as [?|[? ?]]]; cbn; auto.
Qed.

Lemma conduct_oidcOneStep' ctx cfg source (client : oidcOneStep.t) w :
  let request := evSaslStart (Config.Connection cfg) source MongoDBOIDC
                   (jwtStepRequest (oidcOneStep.accessToken client)) in
  ConductSaslConversation ctx cfg source client w
  = Done (match server_reply (oracle w) (request :: trace w) with
          | replyError e => Some e
          | saslResponse true _ _ => None
          | saslResponse false _ _ =>
              Some (newAuthError (literal "unexpected step in OIDC authentication") None)
          end)
         (with_trace (request :: trace w) w).
Proof.
  unfold ConductSaslConversation. mrun.
  destruct (server_reply _ _) as [e|done cid payload]; cbn; [reflexivity|].
  destruct (rounds (oracle w)), done; reflexivity.
Qed.

Section Herd.
Variable o : Oracle.
Variable conf : go_map * option OIDCCallback * option OIDCCallback * string
                * http_Client.
Variable t0 : list Event.
Variable G : N.
Variable cb : OIDCCallback.
Variable T : string.
Hypothesis T_nonempty : T <> EmptyString.
Hypothesis conf_resolves :
  forall oa, configuration oa = conf -> resolves_to oa cb.
Hypothesis cb_returns : callback_returns o cb T.
Hypothesis srv_accepts : server_accepts o T.

Lemma pc_ok_token_set pcs i p p' :
  pcs !! i = Some p ->
  holds_mutex p = true ->
  total (fun p => flag (holds_mutex p)) pcs = 1%nat ->
  Forall (pc_ok cb T EmptyString) pcs ->
  pc_ok cb T T p' ->
  Forall (pc_ok cb T T) (<[i := p']> pcs).
Proof.
  intros Hp Hh Ht Hok Hp'. apply Forall_lookup. intros j q Hj.
  destruct (decide (i = j)) as [->|Hne].
  - rewrite list_lookup_insert_eq in Hj by (eapply lookup_lt_Some; eassumption).
    injection Hj as <-. exact Hp'.
  - rewrite list_lookup_insert_ne in Hj by assumption.
    pose proof (Forall_lookup_1 _ _ _ _ Hok Hj) as Hq.
    assert (Hz : flag (holds_mutex q) = 0%nat).
    { apply (total_others (fun p => flag (holds_mutex p)) pcs i p j q);
        try assumption; [rewrite Hh; exact Ht|congruence]. }
    destruct q; cbn in Hq, Hz |- *; try discriminate; try tauto;
      destruct Hq as [_ Hq]; symmetry in Hq; contradiction.
Qed.

Ltac totals pcs i p0 p1 Hp :=
  pose proof (total_insert (fun q => flag (holds_mutex q)) pcs i p0 p1 Hp);
  pose proof (total_insert (fun q => flag (in_callback q)) pcs i p0 p1 Hp);
  pose proof (total_insert (fun q => flag (succeeded q)) pcs i p0 p1 Hp);
  pose proof (total_lookup (fun q => flag (holds_mutex q)) pcs i p0 Hp);
  pose proof (total_lookup (fun q => flag (in_callback q)) pcs i p0 Hp);
  cbn [flag holds_mutex in_callback succeeded] in *.

Ltac keep_trace new Htr Hev Htok Hex :=
  exists new; split; [exact Htr|]; split; [exact Hev|]; split; [|lia];
  destruct Htok as [(?&?&?)|(?&?&?)]; [left|right]; repeat split;
  try assumption; lia.

Lemma herd_step i s s' :
  herd_invariant o conf t0 G cb T s ->
  sched_step i s = Some s' ->
  herd_invariant o conf t0 G cb T s'.
Proof.
  destruct s as [w pcs]. unfold herd_invariant, sched_step. cbn [shared threads].
  intros (Ho & Hc & Hholds & Hok & new & Htr & Hev & Htok & Hex) Hstep.
  destruct (pcs !! i) as [p|] eqn:Hp; [|discriminate].
  pose proof (Forall_lookup_1 _ _ _ _ Hok Hp) as Hpok.
  destruct p; cbn in Hpok; try contradiction; cbn [finished thread_step] in Hstep.
  - (* pcStart *)
    totals pcs i pcStart pcSnapshot Hp.
    unfold_M. destruct (OIDCAuthenticator.mu (authenticator w)) eqn:Hmu;
      [discriminate|]. injection Hstep as <-. cbn in *.
    split; [assumption|]. split; [assumption|]. split; [lia|].
    split; [apply Forall_insert; [assumption|exact I]|].
    keep_trace new Htr Hev Htok Hex.
  - (* pcSnapshot *)
    totals pcs i pcSnapshot pcSnapshot Hp.
    assert (Hmu : OIDCAuthenticator.mu (authenticator w) = true).
    { destruct (OIDCAuthenticator.mu (authenticator w)); [reflexivity|].
      cbn in *. lia. }
    unfold_M. cbn in Hstep. rewrite Hmu in Hstep. cbn in Hstep.
    destruct (decide _) as [Hne|He]; injection Hstep as <-; cbn in *.
    + totals pcs i pcSnapshot
        (pcCached (OIDCAuthenticator.accessToken (authenticator w))) Hp.
      rewrite Hmu in *. cbn in *.
      split; [assumption|]. split; [assumption|]. split; [lia|].
      assert (HT : OIDCAuthenticator.accessToken (authenticator w) = T)
        by (destruct Htok as [(He&?&?)|(HT&?&?)]; [contradiction|assumption]).
      split; [apply Forall_insert; [assumption|split; assumption]|].
      keep_trace new Htr Hev Htok Hex.
    + totals pcs i pcSnapshot pcDispatch Hp.
      rewrite Hmu in *. cbn in *.
      split; [assumption|]. split; [assumption|]. split; [lia|].
      split; [apply Forall_insert; [assumption|exact I]|].
      keep_trace new Htr Hev Htok Hex.
  - (* pcCached *)
    destruct Hpok as [-> HT].
    totals pcs i (pcCached T) (pcDone None) Hp.
    unfold mbind, M_bind, load, mret, M_ret in Hstep.
    rewrite conduct_oidcOneStep' in Hstep. cbn in Hstep.
    rewrite Ho in Hstep.
    destruct (srv_accepts i "$external" (trace w)) as (cid & payload & Hr).
    rewrite Hr in Hstep. injection Hstep as <-. cbn in *.
    split; [assumption|]. split; [assumption|]. split; [lia|].
    split; [apply Forall_insert; [assumption|split; [reflexivity|assumption]]|].
    eexists (_ :: new). rewrite Htr. split; [reflexivity|].
    split; [constructor; [repeat split|exact Hev]|].
    rewrite exchanges_cons, invocations_cons. cbn. split; [|lia].
    destruct Htok as [(?&?&?)|(?&?&?)]; [left|right]; repeat split;
      try assumption; lia.
  - (* pcDispatch *)
    totals pcs i pcDispatch (pcAcquireLock cb) Hp.
    destruct (conf_resolves _ Hc) as [Hh Hm].
    unfold mbind, M_bind, load, mret, M_ret in Hstep. rewrite Hh in Hstep.
    assert (Hs : s' = {| shared := w; threads := <[i := pcAcquireLock cb]> pcs |}).
    { destruct Hm as [Hm|[Hm Hpc]]; rewrite Hm in Hstep; [|rewrite Hpc in Hstep];
        injection Hstep as <-; reflexivity. }
    subst s'. cbn in *.
    split; [assumption|]. split; [assumption|]. split; [lia|].
    split; [apply Forall_insert; [assumption|reflexivity]|].
    keep_trace new Htr Hev Htok Hex.
  - (* pcAcquireLock *)
    subst callback.
    totals pcs i (pcAcquireLock cb) (pcAcquire cb) Hp.
    unfold_M. destruct (OIDCAuthenticator.mu (authenticator w)) eqn:Hmu;
      [discriminate|]. injection Hstep as <-. cbn in *.
    split; [assumption|]. split; [assumption|]. split; [lia|].
    split; [apply Forall_insert; [assumption|reflexivity]|].
    keep_trace new Htr Hev Htok Hex.
  - (* pcAcquire *)
    subst callback.
    totals pcs i (pcAcquire cb) (pcAcquire cb) Hp.
    assert (Hmu : OIDCAuthenticator.mu (authenticator w) = true).
    { destruct (OIDCAuthenticator.mu (authenticator w)); [reflexivity|].
      cbn in *. lia. }
    unfold_M. cbn in Hstep.
    destruct (decide _) as [Hne|He]; cbn in Hstep.
    + rewrite Hmu in Hstep. injection Hstep as <-. cbn in *.
      totals pcs i (pcAcquire cb)
        (pcConverse (OIDCAuthenticator.accessToken (authenticator w))) Hp.
      rewrite Hmu in *. cbn in *.
      assert (HT : OIDCAuthenticator.accessToken (authenticator w) = T)
        by (destruct Htok as [(He&?&?)|(HT&?&?)]; [contradiction|assumption]).
      split; [assumption|]. split; [assumption|]. split; [lia|].
      split; [apply Forall_insert; [assumption|split; assumption]|].
      keep_trace new Htr Hev Htok Hex.
    + injection Hstep as <-. cbn in *.
      totals pcs i (pcAcquire cb) (pcCallback cb) Hp.
      rewrite Hmu in *. cbn in *.
      apply dec_stable in He.
      pose proof (total_le_at (fun q => flag (in_callback q))
                    (fun q => flag (holds_mutex q)) pcs i (pcAcquire cb)
                    callback_holds Hp) as Hone.
      cbn in Hone.
      split; [assumption|]. split; [assumption|]. split; [lia|].
      split; [apply Forall_insert; [assumption|split; [reflexivity|assumption]]|].
      eexists (_ :: new). rewrite Htr. split; [reflexivity|].
      split; [constructor; [reflexivity|exact Hev]|].
      rewrite exchanges_cons, invocations_cons. cbn. split; [|lia].
      destruct Htok as [(?&?&Hi)|(HT&?&?)]; [|congruence].
      left. repeat split; try assumption. lia.
  - (* pcCallback *)
    destruct Hpok as [-> He].
    totals pcs i (pcCallback cb) (pcConverse T) Hp.
    assert (Hmu : OIDCAuthenticator.mu (authenticator w) = true).
    { destruct (OIDCAuthenticator.mu (authenticator w)); [reflexivity|].
      cbn in *. lia. }
    destruct (cb_returns w (subCtx_of i) Ho) as (cred & w1 & Ha & HT).
    pose proof (answer_effect cb (subCtx_of i) w) as Hae. rewrite Ha in Hae.
    destruct Hae as (Hauth & Hslots & Horc & extra & Hext & Hinv & Hexc & Hevx).
    unfold mbind, M_bind, defer in Hstep. rewrite Ha in Hstep.
    unfold afterCallback, storeCredential in Hstep. unfold_M. cbn in Hstep.
    destruct (OIDCCredential.RefreshToken cred); cbn in Hstep;
      rewrite ?Hauth in Hstep; rewrite Hmu in Hstep; cbn in Hstep;
      injection Hstep as <-; cbn in *; rewrite ?Hauth; cbn.
    all: rewrite HT, Horc, Hmu in *; cbn in *.
    all: destruct Htok as [(_&HG&Hi)|(HT'&_&_)]; [|congruence].
    all: split; [assumption|].
    all: split; [exact Hc|].
    all: split; [lia|].
    all: split;
           [apply (pc_ok_token_set pcs i (pcCallback cb) (pcConverse T) Hp
                     eq_refl Hholds);
            [rewrite <- He; exact Hok|split; reflexivity]|].
    all: exists (extra ++ new)%list; rewrite Hext, Htr.
    all: split; [apply app_assoc|].
    all: split; [apply Forall_app; split; [apply Hevx|exact Hev]|].
    all: rewrite invocations_app, exchanges_app, Hinv, Hexc.
    all: split; [|lia].
    all: right; repeat split; [rewrite HG; reflexivity|].
    all: pose proof (total_le (fun q => flag (in_callback q))
                      (fun q => flag (holds_mutex q)) pcs callback_holds) as Hle.
    all: lia.
  - (* pcConverse *)
    destruct Hpok as [-> HT].
    totals pcs i (pcConverse T) (pcDone None) Hp.
    unfold mbind, M_bind, load, mret, M_ret in Hstep.
    rewrite conduct_oidcOneStep' in Hstep. cbn in Hstep.
    rewrite Ho in Hstep.
    destruct (srv_accepts i "$external" (trace w)) as (cid & payload & Hr).
    rewrite Hr in Hstep. injection Hstep as <-. cbn in *.
    split; [assumption|]. split; [assumption|]. split; [lia|].
    split; [apply Forall_insert; [assumption|split; [reflexivity|assumption]]|].
    eexists (_ :: new). rewrite Htr. split; [reflexivity|].
    split; [constructor; [repeat split|exact Hev]|].
    rewrite exchanges_cons, invocations_cons. cbn. split; [|lia].
    destruct Htok as [(?&?&?)|(?&?&?)]; [left|right]; repeat split;
      try assumption; lia.
  - (* pcDone *) discriminate.
Qed.

Lemma herd_run schedule : forall s,
  herd_invariant o conf t0 G cb T s ->
  herd_invariant o conf t0 G cb T (run_schedule schedule s).
Proof.
  induction schedule as [|i schedule IH]; intros s Hs; [exact Hs|].
  cbn. apply IH. destruct (sched_step i s) as [s'|] eqn:Hstep; cbn;
    [exact (herd_step i s s' Hs Hstep)|exact Hs].
Qed.

Lemma herd_start n w :
  oracle w = o ->
  configuration (authenticator w) = conf ->
  trace w = t0 ->
  OIDCAuthenticator.mu (authenticator w) = false ->
  OIDCAuthenticator.accessToken (authenticator w) = EmptyString ->
  OIDCAuthenticator.tokenGenID (authenticator w) = G ->
  herd_invariant o conf t0 G cb T (concurrent_calls n w).
Proof.
  intros Ho Hc Ht Hmu He HG. unfold herd_invariant, concurrent_calls. cbn.
  rewrite !total_replicate, Hmu. cbn.
  split; [assumption|]. split; [assumption|]. split; [lia|].
  split; [apply Forall_replicate; exact I|].
  exists []. cbn. split; [assumption|]. split; [constructor|].
  change (exchanges []) with 0%nat. change (invocations []) with 0%nat.
  split; [|lia]. left. repeat split; try assumption. lia.
Qed.

(** A call that has not finished and does not wait for the mutex can take
    a step. *)
Lemma herd_enabled i s p :
  herd_invariant o conf t0 G cb T s ->
  threads s !! i = Some p ->
  finished p = false ->
  holds_mutex p = true \/
    OIDCAuthenticator.mu (authenticator (shared s)) = false ->
  is_Some (sched_step i s).
Proof.
  destruct s as [w pcs]. unfold herd_invariant, sched_step. cbn [shared threads].
  intros (Ho & Hc & Hholds & Hok & _) Hp Hfin Hen. rewrite Hp, Hfin.
  pose proof (Forall_lookup_1 _ _ _ _ Hok Hp) as Hpok.
  pose proof (total_lookup (fun q => flag (holds_mutex q)) pcs i p Hp) as Hle.
  assert (Hmu : holds_mutex p = true ->
                OIDCAuthenticator.mu (authenticator w) = true).
  { intros Hh. cbv beta in Hle. rewrite Hh in Hle. cbn in Hle.
    destruct (OIDCAuthenticator.mu (authenticator w)); [reflexivity|].
    cbn in Hholds. lia. }
  assert (Hfree : holds_mutex p = false ->
                  OIDCAuthenticator.mu (authenticator w) = false).
  { intros Hh. destruct Hen as [Hen|Hen]; [congruence|assumption]. }
  destruct p; cbn in Hpok, Hfin; try contradiction; try discriminate;
    cbn [thread_step].
  - unfold_M. rewrite (Hfree eq_refl). eauto.
  - unfold_M. cbn. rewrite (Hmu eq_refl). cbn. destruct (decide _); eauto.
  - unfold mbind, M_bind, load, mret, M_ret.
    rewrite conduct_oidcOneStep'. cbn.
    destruct (server_reply _ _) as [?|[] ? ?]; eauto.
  - destruct (conf_resolves _ Hc) as [Hh Hm].
    unfold mbind, M_bind, load, mret, M_ret. rewrite Hh.
    destruct Hm as [Hm|[Hm Hpc]]; rewrite Hm; [|rewrite Hpc]; eauto.
  - unfold_M. rewrite (Hfree eq_refl). eauto.
  - unfold_M. cbn. destruct (decide _); cbn; [rewrite (Hmu eq_refl)|]; eauto.
  - destruct (cb_returns w (subCtx_of i) Ho) as (cred & w1 & Ha & HT).
    pose proof (answer_effect cb (subCtx_of i) w) as Hae. rewrite Ha in Hae.
    destruct Hae as (Hauth & _).
    unfold mbind, M_bind, defer. destruct Hpok as [-> _]. rewrite Ha.
    unfold afterCallback, storeCredential. unfold_M. cbn.
    destruct (OIDCCredential.RefreshToken cred); cbn;
      rewrite ?Hauth; rewrite (Hmu eq_refl); cbn; eauto.
  - unfold mbind, M_bind, load, mret, M_ret.
    rewrite conduct_oidcOneStep'. cbn. eauto.
Qed.

Lemma total_positive f l :
  (0 < total f l)%nat -> exists i p, l !! i = Some p /\ (0 < f p)%nat.
Proof.
  induction l as [|x l IH]; [rewrite total_nil; lia|].
  rewrite total_cons. intros H.
  destruct (f x) as [|k] eqn:Hx.
  - destruct (IH ltac:(lia)) as (i & p & Hl & Hp). exists (S i), p. auto.
  - exists 0%nat, x. split; [reflexivity|lia].
Qed.

(** No deadlock: as long as some call has not finished, some call can
    take a step. *)
Lemma herd_progress s :
  herd_invariant o conf t0 G cb T s ->
  ~ all_done s ->
  exists i, is_Some (sched_step i s).
Proof.
  intros Hinv Hnot.
  destruct (OIDCAuthenticator.mu (authenticator (shared s))) eqn:Hmu.
  - destruct Hinv as (Ho & Hc & Hholds & Hok & Hrest).
    rewrite Hmu in Hholds. cbn in Hholds.
    destruct (total_positive (fun q => flag (holds_mutex q)) (threads s)
                ltac:(lia)) as (i & p & Hp & Hpos).
    assert (Hh : holds_mutex p = true)
      by (destruct (holds_mutex p); [reflexivity|cbn in Hpos; lia]).
    exists i. apply (herd_enabled i s p); auto.
    + repeat split; try assumption. rewrite Hmu. exact Hholds.
    + destruct p; try discriminate; reflexivity.
  - unfold all_done in Hnot. apply not_Forall_Exists in Hnot; [|apply _].
    apply Exists_exists in Hnot. destruct Hnot as (p & Hin & Hp).
    apply list_elem_of_lookup in Hin. destruct Hin as [i Hi].
    exists i. apply (herd_enabled i s p); auto.
    apply not_true_is_false. exact Hp.
Qed.

(** When every call has finished, every call has succeeded. *)
Lemma herd_finished s :
  herd_invariant o conf t0 G cb T s ->
  all_done s ->
  threads s = replicate (length (threads s)) (pcDone None) /\
  (threads s <> [] ->
   OIDCAuthenticator.accessToken (authenticator (shared s)) = T).
Proof.
  intros (_ & _ & _ & Hok & _) Hall. unfold all_done in Hall.
  revert Hok Hall. generalize (OIDCAuthenticator.accessToken (authenticator (shared s))).
  intros tok. induction (threads s) as [|p l IH]; intros Hok Hall.
  - split; [reflexivity|congruence].
  - inversion Hok as [|? ? Hp Hl]; subst. inversion Hall as [|? ? Hf Hl']; subst.
    destruct (IH Hl Hl') as [IH1 _].
    destruct p; cbn in Hp, Hf; try contradiction; try discriminate.
    destruct Hp as [-> ->]. split; [|reflexivity].
    cbn. f_equal. exact IH1.
Qed.
End Herd.

Ltac break_match H :=
  match type of H with
  | context [match ?x with _ => _ end] => destruct x eqn:?
  | context [if ?x then _ else _] => destruct x eqn:?
  end.

Lemma thread_step_decreases i p w p' w' :
  thread_step i p w = Done p' w' -> (remaining p' < remaining p)%nat.
Proof.
  intros H. destruct p; cbn [thread_step] in H;
    unfold doAuthHuman, afterCallback, storeCredential, invalidateLocked in H;
    try rewrite !conduct_oidcOneStep' in H; unfold_M; cbn in H;
    repeat (first [discriminate H | break_match H; cbn in H]);
    try (injection H as <- _; cbn; lia).
Qed.

Lemma sched_step_decreases i s s' :
  sched_step i s = Some s' ->
  (total remaining (threads s') < total remaining (threads s))%nat.
Proof.
  unfold sched_step. destruct (threads s !! i) as [p|] eqn:Hp; [|discriminate].
  destruct (finished p) eqn:Hf; [discriminate|].
  destruct (thread_step i p (shared s)) as [p' w'|w'|why] eqn:Hs; [| |discriminate];
    intros [= <-]; cbn.
  - pose proof (thread_step_decreases i p _ p' w' Hs).
    pose proof (total_insert remaining (threads s) i p p' Hp). lia.
  - pose proof (total_insert remaining (threads s) i p pcPanicked Hp).
    destruct p; cbn [remaining finished] in *; try discriminate; lia.
Qed.

Lemma steps_bound schedule : forall s,
  (steps_taken schedule s
   + total remaining (threads (run_schedule schedule s))
   <= total remaining (threads s))%nat.
Proof.
  induction schedule as [|i schedule IH]; intros s; [cbn; lia|].
  change (run_schedule (i :: schedule) s)
    with (run_schedule schedule (default s (sched_step i s))).
  cbn [steps_taken].
  destruct (sched_step i s) as [s'|] eqn:Hs; unfold default; cbn [from_option id].
  - pose proof (sched_step_decreases i s s' Hs). specialize (IH s'). lia.
  - apply IH.
Qed.

Ltac break_inner :=
  match goal with
  | |- context [match ?x with _ => _ end] =>
      lazymatch x with
      | context [match _ with _ => _ end] => fail
      | _ => destruct x eqn:?
      end
  end.

Lemma run_thread_done k i r : run_thread k i (pcDone r) = mret (pcDone r).
Proof. destruct k; reflexivity. Qed.

Ltac step_both :=
  repeat first
    [ reflexivity
    | progress unfold subCtx_of, machine_args, afterCallback, storeCredential,
        doAuthHuman, invalidateLocked
    | progress (unfold_M; cbn)
    | rewrite !conduct_oidcOneStep'
    | rewrite !run_thread_done
    | break_inner ].

Lemma run_thread_dispatch k i w :
  run_thread (S (S (S (S (S k))))) i pcDispatch w
  = as_thread (authDispatch (ctx_of i) (cfg_of i) w).
Proof.
  unfold authDispatch, doAuthMachine, getAccessToken, call, as_thread.
  cbn [run_thread finished thread_step cfg_of Config.Connection].
  step_both.
Qed.

Lemma run_thread_S k i p :
  finished p = false ->
  run_thread (S k) i p = (thread_step i p ≫= run_thread k i).
Proof. intros H. cbn [run_thread]. rewrite H. reflexivity. Qed.

(** A call that runs alone is a call of [Auth]. *)
Lemma run_thread_Auth i w :
  run_thread 11 i pcStart w
  = as_thread (Auth (ctx_of i) (Some (cfg_of i)) w).
Proof.
  unfold Auth, invalidateAccessToken.
  repeat first
    [ reflexivity
    | rewrite !run_thread_dispatch
    | rewrite !run_thread_done
    | rewrite run_thread_S by reflexivity
    | progress unfold invalidateLocked
    | progress cbn [thread_step cfg_of Config.Connection]
    | progress (unfold_M;
                cbn [authenticator slots trace oracle with_authenticator
                  with_slots with_trace
                  OIDCAuthenticator.mu OIDCAuthenticator.accessToken
                  OIDCAuthenticator.userName OIDCAuthenticator.tokenGenID
                  OIDCAuthenticator.with_mu OIDCAuthenticator.with_accessToken
                  as_thread])
    | rewrite !conduct_oidcOneStep'
    | break_inner ].
Qed.

Lemma resolves_to_configuration oa oa' cb :
  configuration oa' = configuration oa ->
  resolves_to oa cb -> resolves_to oa' cb.
Proof.
  unfold configuration, resolves_to, providerCallback.
  intros [= Hp Hm Hh Hu Hc]. rewrite Hp, Hm, Hh, Hu, Hc. auto.
Qed.

Lemma sched_step_length i s s' :
  sched_step i s = Some s' -> length (threads s') = length (threads s).
Proof.
  unfold sched_step. destruct (threads s !! i); [|discriminate].
  destruct (finished _); [discriminate|].
  destruct (thread_step _ _ _); intros [= <-]; cbn; apply length_insert.
Qed.

Lemma run_schedule_length schedule : forall s,
  length (threads (run_schedule schedule s)) = length (threads s).
Proof.
  induction schedule as [|i schedule IH]; intros s; [reflexivity|].
  change (run_schedule (i :: schedule) s)
    with (run_schedule schedule (default s (sched_step i s))).
  rewrite IH. destruct (sched_step i s) as [s'|] eqn:Hs; [|reflexivity].
  exact (sched_step_length i s s' Hs).
Qed.

(** C5: [n] calls of [Auth], one per connection, start together on an
    authenticator with an empty cache and the mutex free, whose dispatch
    settles on a machine callback that returns the token [T] whenever it
    runs, against a server that accepts [T].  The callback is entered in one
    step and returns in a later one, with the mutex held in between.  Then,
    however the scheduler interleaves the calls: the calls log nothing but
    invocations of that callback and conversation starts that carry [T], and
    at most one invocation; the run cannot deadlock; no more than [11 * n]
    steps are ever taken, so every run that keeps offering steps completes;
    and when all calls have finished, each has returned success, the callback
    has been invoked exactly once, [n] conversation requests have been sent,
    the cache holds [T] and the counter has been incremented once. *)
Theorem no_thundering_herd (n : nat) (w : World) (callback : OIDCCallback)
    (T : string) (schedule : list nat) :
  OIDCAuthenticator.mu (authenticator w) = false ->
  OIDCAuthenticator.accessToken (authenticator w) = EmptyString ->
  resolves_to (authenticator w) callback ->
  T <> EmptyString ->
  callback_returns (oracle w) callback T ->
  server_accepts (oracle w) T ->
  let s := run_schedule schedule (concurrent_calls n w) in
  exists new,
    trace (shared s) = (new ++ trace w)%list /\
    Forall (event_ok callback T) new /\
    (invocations new <= 1)%nat /\
    (steps_taken schedule (concurrent_calls n w) <= 11 * n)%nat /\
    (~ all_done s -> exists i, is_Some (sched_step i s)) /\
    (all_done s ->
     (0 < n)%nat ->
     threads s = replicate n (pcDone None) /\
     invocations new = 1%nat /\
     exchanges new = n /\
     OIDCAuthenticator.accessToken (authenticator (shared s)) = T /\
     OIDCAuthenticator.tokenGenID (authenticator (shared s))
       = uint64.incr (OIDCAuthenticator.tokenGenID (authenticator w))).
Proof.
  intros Hmu He Hres HT Hcb Hsrv s.
  set (conf := configuration (authenticator w)).
  set (G := OIDCAuthenticator.tokenGenID (authenticator w)).
  assert (Hconf : forall oa, configuration oa = conf -> resolves_to oa callback).
  { intros oa Hc. exact (resolves_to_configuration _ oa callback Hc Hres). }
  assert (Hinv : herd_invariant (oracle w) conf (trace w) G callback T s).
  { apply herd_run; try assumption.
    apply herd_start; try assumption; reflexivity. }
  assert (Hlen : length (threads s) = n).
  { unfold s. rewrite run_schedule_length. cbn. apply length_replicate. }
  pose proof (steps_bound schedule (concurrent_calls n w)) as Hsteps.
  fold s in Hsteps. cbn [concurrent_calls threads] in Hsteps.
  rewrite total_replicate in Hsteps. cbn [remaining] in Hsteps.
  pose proof (herd_progress (oracle w) conf (trace w) G callback T Hconf Hcb s Hinv)
    as Hprog.
  pose proof (herd_finished (oracle w) conf (trace w) G callback T s Hinv) as Hfin.
  destruct Hinv as (_ & _ & Hholds & Hok & new & Htr & Hev & Htok & Hex).
  exists new. split; [exact Htr|]. split; [exact Hev|].
  split.
  { destruct Htok as [(_ & _ & Hi)|(_ & _ & Hi)]; [|lia].
    pose proof (total_le (fun q => flag (in_callback q))
                  (fun q => flag (holds_mutex q)) (threads s) callback_holds).
    destruct (OIDCAuthenticator.mu (authenticator (shared s))); cbn in Hholds; lia. }
  split; [lia|]. split; [exact Hprog|].
  intros Hall Hn. destruct (Hfin Hall) as [Hth Htoken].
  rewrite Hlen in Hth.
  assert (HT' : OIDCAuthenticator.accessToken (authenticator (shared s)) = T).
  { apply Htoken. rewrite Hth. destruct n; [lia|discriminate]. }
  split; [exact Hth|].
  destruct Htok as [(He' & _)|(_ & HG & Hi)]; [congruence|].
  split; [exact Hi|]. split; [|split; [exact HT'|exact HG]].
  rewrite Hex, Hth, total_replicate. cbn. lia.
Qed.

Lemma no_thundering_herd_witness :
  exists new,
    trace (shared (run_schedule Sample.interleaving
                     (concurrent_calls 2 Sample.fresh)))
    = (new ++ trace Sample.fresh)%list /\
    invocations new = 1%nat /\
    exchanges new = 2%nat.
Proof.
  destruct (no_thundering_herd 2 Sample.fresh (userCallback 7) "T"
              Sample.interleaving eq_refl eq_refl)
    as (new & Htr & _ & _ & _ & _ & Hdone).
  - split; [reflexivity|]. left. reflexivity.
  - discriminate.
  - intros w ctx Ho. unfold answer, ask. rewrite Ho. cbn.
    do 2 eexists. split; reflexivity.
  - intros conn source t. cbn. eauto.
  - exists new. split; [exact Htr|].
    destruct Hdone as (_ & Hi & Hx & _); [|lia|auto].
    vm_compute. repeat constructor.
Defined.

(** * Further properties of oidc.go *)

Lemma no_invocations (l : list Event) cb ctx args :
  invocations l = 0%nat -> evCallback cb ctx args ∉ l.
Proof.
  induction l as [|e l IH]; intros H Hin.
  - apply elem_of_nil in Hin. exact Hin.
  - rewrite invocations_cons in H. apply elem_of_cons in Hin.
    destruct Hin as [<-|Hin]; [cbn in H; lia|].
    apply IH; [lia|exact Hin].
Qed.

(** A callback invocation logs itself, and after that nothing that counts
    as an invocation. *)
Lemma call_trace cb ctx args w :
  match call cb ctx args w with
  | Done _ w' | Panic w' =>
      exists extra,
        trace w' = (extra ++ evCallback cb ctx args :: trace w)%list /\
        invocations extra = 0%nat /\ exchanges extra = 0%nat
  | Stuck _ => False
  end.
Proof.
  unfold call, mbind, M_bind, emit.
  pose proof (answer_effect cb ctx (with_trace (evCallback cb ctx args :: trace w) w))
    as H.
  destruct (answer cb ctx _) as [r w'|w'|why]; [| |contradiction].
  - destruct H as (_ & _ & _ & extra & Ht & Hi & He & _). exists extra. auto.
  - destruct H as (_ & _ & _ & extra & Ht & Hi & He & _). exists extra. auto.
Qed.

Lemma call_invokes cb ctx args w cb' ctx' args' :
  evCallback cb' ctx' args' ∈ trace (after (call cb ctx args w) w) ->
  evCallback cb' ctx' args' ∈ trace w \/
  (cb' = cb /\ ctx' = ctx /\ args' = args).
Proof.
  pose proof (call_trace cb ctx args w) as H.
  destruct (call cb ctx args w) as [r w'|w'|why]; [| |contradiction]; cbn;
    destruct H as (extra & -> & Hi & _); intros Hin;
    apply elem_of_app in Hin; destruct Hin as [Hin|Hin];
    try (exfalso; exact (no_invocations _ _ _ _ Hi Hin));
    apply elem_of_cons in Hin; destruct Hin as [[= -> -> ->]|Hin]; auto.
Qed.

Lemma getAccessToken_invokes ctx conn args cb w cb' ctx' args' :
  OIDCAuthenticator.mu (authenticator w) = false ->
  evCallback cb' ctx' args' ∈ trace (after (getAccessToken ctx conn args cb w) w) ->
  evCallback cb' ctx' args' ∈ trace w \/
  (cb' = cb /\ ctx' = ctx /\ args' = args).
Proof.
  intros Hmu. rewrite getAccessToken_eq by assumption.
  destruct (decide _); [cbn; auto|].
  pose proof (call_invokes cb ctx args w cb' ctx' args') as H.
  destruct (call cb ctx args w) as [[[c|] [e|]] w2|w2|why]; cbn in *; auto.
Qed.

Lemma invalidateAccessToken_frame conn w :
  OIDCAuthenticator.mu (authenticator w) = false ->
  exists w',
    invalidateAccessToken conn w = Done tt w' /\
    trace w' = trace w /\ oracle w' = oracle w /\
    OIDCAuthenticator.mu (authenticator w') = false /\
    configuration (authenticator w') = configuration (authenticator w) /\
    OIDCAuthenticator.tokenGenID (authenticator w')
      = OIDCAuthenticator.tokenGenID (authenticator w).
Proof.
  intros Hmu. rewrite invalidateAccessToken_eq by assumption.
  eexists. split; [reflexivity|].
  destruct (decide _); unfold invalidated; cbn; auto.
Qed.

Lemma doAuthMachine_invocation ctx cfg cb w cb' ctx' args' :
  OIDCAuthenticator.mu (authenticator w) = false ->
  evCallback cb' ctx' args' ∈ trace (after (doAuthMachine ctx cfg cb w) w) ->
  evCallback cb' ctx' args' ∈ trace w \/
  (cb' = cb /\ ctx' = ctxWithTimeout ctx machineCallbackTimeout /\
   args' = machine_args).
Proof.
  intros Hmu. unfold doAuthMachine, mbind, M_bind.
  match goal with |- context [getAccessToken ?c ?n ?a cb w] =>
    pose proof (getAccessToken_invokes c n a cb w cb' ctx' args' Hmu) as H;
    destruct (getAccessToken c n a cb w) as [[tok [err|]] w1|w1|why]
  end; cbn in *; auto.
  rewrite conduct_oidcOneStep. cbn. intros Hin.
  apply elem_of_cons in Hin. destruct Hin as [Hin|Hin]; [discriminate|auto].
Qed.

Lemma authDispatch_invocation ctx cfg w cb' ctx' args' :
  OIDCAuthenticator.mu (authenticator w) = false ->
  evCallback cb' ctx' args' ∈ trace (after (authDispatch ctx cfg w) w) ->
  evCallback cb' ctx' args' ∈ trace w \/
  (resolves_to (authenticator w) cb' /\
   ctx' = ctxWithTimeout ctx machineCallbackTimeout /\ args' = machine_args).
Proof.
  intros Hmu. unfold authDispatch, doAuthHuman, resolves_to. unfold_M.
  destruct (OIDCAuthenticator.OIDCHumanCallback (authenticator w)); cbn; [auto|].
  destruct (OIDCAuthenticator.OIDCMachineCallback (authenticator w)) as [m|]; cbn.
  - intros Hin.
    destruct (doAuthMachine_invocation ctx cfg m w cb' ctx' args' Hmu Hin)
      as [?|(-> & ? & ?)]; auto.
  - destruct (providerCallback (authenticator w)) as [[p|] [e|]]; cbn; auto.
    intros Hin.
    destruct (doAuthMachine_invocation ctx cfg p w cb' ctx' args' Hmu Hin)
      as [?|(-> & ? & ?)]; auto 10.
Qed.

(** What [providerCallback] needs to resolve a callback. *)
Lemma providerCallback_resolves oa cb :
  providerCallback oa = (Some cb, None) ->
  exists resource,
    map_index (OIDCAuthenticator.AuthMechanismProperties oa) environmentProp
      = Some azureEnvironmentValue /\
    map_index (OIDCAuthenticator.AuthMechanismProperties oa) resourceProp
      = Some resource /\
    cb = getAzureOIDCCallback (OIDCAuthenticator.userName oa) resource
           (OIDCAuthenticator.httpClient oa).
Proof.
  unfold providerCallback.
  destruct (map_index _ environmentProp) as [env|]; [|discriminate].
  destruct (decide (env = azureEnvironmentValue)) as [->|_].
  - destruct (map_index _ resourceProp) as [resource|]; [|discriminate].
    intros [= <-]. eauto.
  - destruct (decide _); discriminate.
Qed.

Lemma Auth_invocation ctx cfg w cb' ctx' args' :
  OIDCAuthenticator.mu (authenticator w) = false ->
  evCallback cb' ctx' args' ∈ trace (after (Auth ctx cfg w) w) ->
  evCallback cb' ctx' args' ∈ trace w \/
  (resolves_to (authenticator w) cb' /\
   ctx' = ctxWithTimeout ctx machineCallbackTimeout /\ args' = machine_args).
Proof.
  intros Hmu. destruct cfg as [cfg|]; [|cbn; auto].
  rewrite Auth_eq by assumption.
  destruct (decide _); [|apply authDispatch_invocation; assumption].
  rewrite conduct_oidcOneStep. cbv zeta.
  set (w1 := with_trace _ w).
  destruct (oneStep_result _ _) as [e|].
  2:{ cbn. intros Hin. apply elem_of_cons in Hin.
      destruct Hin as [Hin|Hin]; [discriminate|auto]. }
  assert (Hmu1 : OIDCAuthenticator.mu (authenticator w1) = false) by exact Hmu.
  destruct (invalidateAccessToken_frame (Config.Connection cfg) w1 Hmu1)
    as (w2 & Hi & Ht & _ & Hmu2 & Hc & _).
  unfold mbind, M_bind, time_Sleep, emit. rewrite Hi.
  set (w3 := with_trace _ w2).
  assert (Hmu3 : OIDCAuthenticator.mu (authenticator w3) = false) by exact Hmu2.
  pose proof (authDispatch_invocation ctx cfg w3 cb' ctx' args' Hmu3) as Hd.
  pose proof (authDispatch_effect ctx cfg w3 Hmu3) as [Hf _].
  intros Hin.
  assert (Hin3 : evCallback cb' ctx' args' ∈ trace (after (authDispatch ctx cfg w3) w3)).
  { destruct (authDispatch ctx cfg w3); [exact Hin|exact Hin|contradiction]. }
  destruct (Hd Hin3) as [Hold|(Hr & ? & ?)].
  - left. unfold w3 in Hold. cbn in Hold. rewrite Ht in Hold. unfold w1 in Hold.
    cbn in Hold.
    apply elem_of_cons in Hold. destruct Hold as [Hold|Hold]; [discriminate|].
    apply elem_of_cons in Hold. destruct Hold as [Hold|Hold]; [discriminate|].
    exact Hold.
  - right. split; [|auto].
    apply (resolves_to_configuration (authenticator w3)); [|exact Hr].
    unfold w3. cbn. rewrite Hc. reflexivity.
Qed.

(** Whatever [Auth] does, the only callback it can invoke is the machine
    callback of the user or, without one, the Azure callback that the
    properties describe; never the human callback, never the closure of the
    gcp case.  The callback is always given the caller's context under the
    machine-callback timeout, the API version 1, no IDP information and no
    refresh token. *)
Theorem Auth_invokes_machine_callback (w : World) (ctx : context)
    (cfg : option Config.t) (callback : OIDCCallback) (ctx' : context)
    (args : OIDCArgs.t) :
  OIDCAuthenticator.mu (authenticator w) = false ->
  evCallback callback ctx' args ∈ trace (after (Auth ctx cfg w) w) ->
  evCallback callback ctx' args ∈ trace w \/
  (let oa := authenticator w in
   OIDCAuthenticator.OIDCHumanCallback oa = None /\
   (OIDCAuthenticator.OIDCMachineCallback oa = Some callback \/
    (OIDCAuthenticator.OIDCMachineCallback oa = None /\
     exists resource,
       map_index (OIDCAuthenticator.AuthMechanismProperties oa) environmentProp
         = Some azureEnvironmentValue /\
       map_index (OIDCAuthenticator.AuthMechanismProperties oa) resourceProp
         = Some resource /\
       callback = getAzureOIDCCallback (OIDCAuthenticator.userName oa) resource
                    (OIDCAuthenticator.httpClient oa))) /\
   ctx' = ctxWithTimeout ctx machineCallbackTimeout /\
   args = {| OIDCArgs.Version := apiVersion;
             OIDCArgs.IDPInfo := None;
             OIDCArgs.RefreshToken := None |}).
Proof.
  intros Hmu Hin.
  destruct (Auth_invocation ctx cfg w callback ctx' args Hmu Hin)
    as [?|([Hh Hm] & Hc & Ha)]; [left; assumption|right].
  cbv zeta. split; [exact Hh|]. split; [|split; [exact Hc|exact Ha]].
  destruct Hm as [Hm|[Hm Hp]]; [left; exact Hm|right].
  split; [exact Hm|]. apply providerCallback_resolves. exact Hp.
Qed.

Lemma Auth_invokes_machine_callback_witness :
  evCallback (userCallback 7)
    (ctxWithTimeout Sample.ctx machineCallbackTimeout) Sample.args
    ∈ trace Sample.cached /\
  OIDCAuthenticator.OIDCMachineCallback (authenticator Sample.fresh)
    = Some (userCallback 7).
Proof.
  assert (Hin : evCallback (userCallback 7)
                  (ctxWithTimeout Sample.ctx machineCallbackTimeout) Sample.args
                ∈ trace (after (Auth Sample.ctx (Some Sample.cfg) Sample.fresh)
                           Sample.fresh)).
  { vm_compute. apply list_elem_of_further, list_elem_of_here. }
  split; [exact Hin|].
  destruct (Auth_invokes_machine_callback Sample.fresh Sample.ctx
              (Some Sample.cfg) _ _ _ eq_refl Hin) as [Hold|(_ & Hm & _)].
  - vm_compute in Hold. apply elem_of_nil in Hold. contradiction.
  - destruct Hm as [Hm|[Hm _]]; [exact Hm|discriminate Hm].
Defined.

Lemma authDispatch_resolved ctx cfg w cb :
  resolves_to (authenticator w) cb ->
  authDispatch ctx cfg w = doAuthMachine ctx cfg cb w.
Proof.
  intros [Hh Hm]. unfold authDispatch, load, mbind, M_bind, mret, M_ret.
  rewrite Hh. destruct Hm as [Hm|[Hm Hp]]; rewrite Hm; [|rewrite Hp]; reflexivity.
Qed.

Lemma doAuthMachine_eq ctx cfg cb w :
  OIDCAuthenticator.mu (authenticator w) = false ->
  OIDCAuthenticator.accessToken (authenticator w) = EmptyString ->
  doAuthMachine ctx cfg cb w =
  match call cb (ctxWithTimeout ctx machineCallbackTimeout) machine_args w with
  | Done (_, Some err) w2 => Done (Some err) w2
  | Done (None, None) w2 => Panic w2
  | Done (Some cred, None) w2 =>
      ConductSaslConversation ctx cfg "$external"
        {| oidcOneStep.userName := EmptyString;
           oidcOneStep.accessToken := OIDCCredential.AccessToken cred |}
        (acquired cred (Config.Connection cfg) w2)
  | Panic w2 => Panic w2
  | Stuck why => Stuck why
  end.
Proof.
  intros Hmu He. unfold doAuthMachine, mbind, M_bind.
  rewrite getAccessToken_eq by assumption. rewrite He.
  destruct (decide _) as [Hn|_]; [contradiction|].
  fold machine_args.
  destruct (call cb _ machine_args w) as [[[c|] [e|]] w2|w2|why]; reflexivity.
Qed.

(** A token set by [SetAccessToken] is what every caller is served from
    then on: [getAccessToken] returns it without invoking the callback and
    without touching the counter or a connection's slot, and
    [CreateSpeculativeConversation] offers it.  Setting the empty string
    empties the cache, whatever the generations say: the next
    [getAccessToken] invokes the callback. *)
Theorem SetAccessToken_caches (w : World) (accessToken : string)
    (ctx : context) (conn : Connection) (args : OIDCArgs.t)
    (callback : OIDCCallback) :
  OIDCAuthenticator.mu (authenticator w) = false ->
  let w1 :=
    with_authenticator
      (OIDCAuthenticator.with_accessToken accessToken (authenticator w)) w in
  SetAccessToken accessToken w = Done tt w1 /\
  (accessToken <> EmptyString ->
   getAccessToken ctx conn args callback w1 = Done (accessToken, None) w1 /\
   exists conversation,
     CreateSpeculativeConversation w1 = Done (Some conversation, None) w1 /\
     Start (saslConversation.client conversation)
       = (MongoDBOIDC, jwtStepRequest accessToken, None)) /\
  (accessToken = EmptyString ->
   invocations (trace (after (getAccessToken ctx conn args callback w1) w1))
     = S (invocations (trace w)) /\
   CreateSpeculativeConversation w1 = Done (None, None) w1).
Proof.
  intros Hmu w1.
  assert (Hmu1 : OIDCAuthenticator.mu (authenticator w1) = false) by exact Hmu.
  split; [apply SetAccessToken_eq; assumption|].
  rewrite getAccessToken_eq, CreateSpeculativeConversation_eq by assumption.
  change (OIDCAuthenticator.accessToken (authenticator w1)) with accessToken.
  split; intros H.
  - destruct (decide (accessToken <> EmptyString)); [|contradiction].
    destruct (decide (accessToken = EmptyString)); [contradiction|].
    split; [reflexivity|]. eexists. split; reflexivity.
  - destruct (decide (accessToken <> EmptyString)); [contradiction|].
    destruct (decide (accessToken = EmptyString)); [|contradiction].
    split; [|reflexivity].
    pose proof (call_effect callback ctx args w1) as Hc.
    destruct (call callback ctx args w1) as [[[c0|] [err0|]] w2|w2|why]; cbn;
      try contradiction; apply Hc.
Qed.

Lemma SetAccessToken_caches_witness :
  exists w1,
    SetAccessToken "S" Sample.fresh = Done tt w1 /\
    getAccessToken Sample.ctx 0%nat Sample.args (userCallback 7) w1
    = Done ("S", None) w1.
Proof.
  eexists. split.
  - exact (proj1 (SetAccessToken_caches Sample.fresh "S" Sample.ctx 0%nat
                    Sample.args (userCallback 7) eq_refl)).
  - apply (proj1 (proj2 (SetAccessToken_caches Sample.fresh "S" Sample.ctx 0%nat
                           Sample.args (userCallback 7) eq_refl))).
    discriminate.
Defined.

(** For an authenticator that [newOIDCAuthenticator] has built, provider
    resolution succeeds exactly when ENVIRONMENT is azure as written: the
    callback is the Azure one, for the credential's user name as client id,
    the TOKEN_RESOURCE that validation has seen and the HTTP client given at
    construction, and no callback of the user is in its way.  Without
    ENVIRONMENT nothing is resolved; any other value makes the resolution
    fail. *)
Theorem newOIDCAuthenticator_provider (cred : Cred.t)
    (httpClient : http_Client) (oa : OIDCAuthenticator.t) :
  newOIDCAuthenticator cred httpClient = (Some oa, None) ->
  match map_index (Cred.Props cred) environmentProp with
  | None => providerCallback oa = (None, None)
  | Some env =>
      if decide (env = azureEnvironmentValue) then
        exists resource,
          map_index (Cred.Props cred) resourceProp = Some resource /\
          providerCallback oa
          = (Some (getAzureOIDCCallback (Cred.Username cred) resource
                     httpClient), None) /\
          OIDCAuthenticator.OIDCMachineCallback oa = None /\
          OIDCAuthenticator.OIDCHumanCallback oa = None
      else exists err, snd (providerCallback oa) = Some err
  end.
Proof.
  intros Hnew.
  destruct (newOIDCAuthenticator_configuration _ _ _ Hnew) as (Hconf & _).
  unfold configuration in Hconf. injection Hconf as Hp Hm Hh Hu Hc.
  assert (Hacc : ~ (Cred.Password cred <> EmptyString \/
            exists env,
              map_index (Cred.Props cred) environmentProp = Some env /\
              (((ToLower env = azureEnvironmentValue \/
                 ToLower env = gcpEnvironmentValue) /\
                map_index (Cred.Props cred) resourceProp = None)
               \/ ((ToLower env = azureEnvironmentValue \/
                    ToLower env = gcpEnvironmentValue \/
                    ToLower env = testEnvironmentValue) /\
                   (Cred.OIDCMachineCallback cred <> None \/
                    Cred.OIDCHumanCallback cred <> None))))).
  { intros H. apply (proj1 (validation_cases cred httpClient)) in H.
    destruct H as [err H]. congruence. }
  unfold providerCallback. rewrite Hp, Hu, Hc.
  destruct (map_index (Cred.Props cred) environmentProp) as [env|];
    [|reflexivity].
  destruct (decide (env = azureEnvironmentValue)) as [->|Hne].
  - destruct (map_index (Cred.Props cred) resourceProp) as [resource|].
    + exists resource. split; [reflexivity|]. split; [reflexivity|].
      rewrite Hm, Hh.
      destruct (Cred.OIDCMachineCallback cred);
      destruct (Cred.OIDCHumanCallback cred); try (split; reflexivity);
      exfalso; apply Hacc; right; exists azureEnvironmentValue;
      (split; [reflexivity|]); right; (split; [left; reflexivity|]);
      first [left; discriminate|right; discriminate].
    + exfalso. apply Hacc. right. exists azureEnvironmentValue.
      split; [reflexivity|]. left. split; [left; reflexivity|reflexivity].
  - destruct (decide (env = gcpEnvironmentValue)); eexists; reflexivity.
Qed.

Lemma newOIDCAuthenticator_provider_witness :
  exists oa,
    newOIDCAuthenticator
      (Sample.cred (Some (<[environmentProp := "azure"]>
                            (<[resourceProp := "api://resource"]> ∅))) None)
      (Some 3%nat) = (Some oa, None) /\
    providerCallback oa
    = (Some (azureCallback "user" "api://resource" (Some 3%nat)), None).
Proof.
  eexists. split; [vm_compute; reflexivity|].
  pose proof (newOIDCAuthenticator_provider
                (Sample.cred (Some (<[environmentProp := "azure"]>
                                      (<[resourceProp := "api://resource"]> ∅)))
                   None)
                (Some 3%nat) _ eq_refl) as H.
  vm_compute in H. destruct H as (resource & [= <-] & Hp & _).
  vm_compute. exact Hp.
Defined.

(** A callback that returns neither a credential nor an error makes
    [getAccessToken] panic at [cred.AccessToken]: the deferred [Unlock]
    releases the mutex, and nothing has been stored.  Only a callback of the
    user can do that; the built-in ones return one of the two. *)
Theorem getAccessToken_nil_credential (w w2 : World) (ctx : context)
    (conn : Connection) (args : OIDCArgs.t) (callback : OIDCCallback) :
  OIDCAuthenticator.mu (authenticator w) = false ->
  OIDCAuthenticator.accessToken (authenticator w) = EmptyString ->
  call callback ctx args w = Done (None, None) w2 ->
  getAccessToken ctx conn args callback w = Panic w2 /\
  authenticator w2 = authenticator w /\
  slots w2 = slots w /\
  exists id, callback = userCallback id.
Proof.
  intros Hmu He Hcall.
  pose proof (call_effect callback ctx args w) as Hc. rewrite Hcall in Hc.
  destruct Hc as (Ha & Hs & _).
  rewrite getAccessToken_eq by assumption. rewrite He, Hcall.
  destruct (decide _) as [Hn|_]; [contradiction|].
  do 3 (split; [auto|]).
  revert Hcall. unfold call, answer, azureCallbackBody. mrun.
  destruct callback as [id|clientID resource [client|]|env]; cbn;
    [eauto| | |discriminate].
  - destruct (http_answer _ _) as [e|e|code [e|[tok exp]]]; cbn;
      try destruct (decide _); discriminate.
  - destruct (http_answer _ _) as [e|e|code [e|[tok exp]]]; cbn;
      try destruct (decide _); discriminate.
Qed.

Lemma getAccessToken_nil_credential_witness :
  exists w2,
    getAccessToken Sample.ctx 0%nat Sample.args (userCallback 7)
      (Sample.world Scenario.silent (Sample.cred None (Some (userCallback 7))))
    = Panic w2 /\
    OIDCAuthenticator.mu (authenticator w2) = false.
Proof.
  eexists.
  pose proof (getAccessToken_nil_credential
                (Sample.world Scenario.silent
                   (Sample.cred None (Some (userCallback 7))))
                _ Sample.ctx 0%nat Sample.args (userCallback 7)
                eq_refl eq_refl eq_refl) as (Hrun & Ha & _).
  split; [exact Hrun|]. rewrite Ha. reflexivity.
Defined.

Lemma doAuthMachine_invokes_once ctx cfg cb w :
  OIDCAuthenticator.mu (authenticator w) = false ->
  OIDCAuthenticator.accessToken (authenticator w) = EmptyString ->
  invocations (trace (after (doAuthMachine ctx cfg cb w) w))
  = S (invocations (trace w)).
Proof.
  intros Hmu He. rewrite doAuthMachine_eq by assumption.
  pose proof (call_effect cb (ctxWithTimeout ctx machineCallbackTimeout)
                machine_args w) as Hc.
  destruct (call cb _ machine_args w) as [[[c|] [e|]] w2|w2|why]; cbn;
    try contradiction; try apply Hc.
  rewrite conduct_oidcOneStep. cbn. rewrite invocations_cons. cbn. apply Hc.
Qed.

(** [Reauth] is [invalidateAccessToken] followed by [Auth], and the
    invalidation is fenced like any other.  For a connection whose recorded
    generation is 0 or not below the counter, the cached token is dropped
    before [Auth] runs, so [Auth] goes straight to its dispatch step and a
    resolved machine callback is invoked exactly once.  For a connection with
    an older generation nothing is dropped: [Reauth] is [Auth] on the world as
    it is.  Without a config [Reauth] panics at [cfg.Connection]. *)
Theorem Reauth_fenced (w : World) (ctx : context) (cfg : Config.t) :
  OIDCAuthenticator.mu (authenticator w) = false ->
  let conn := Config.Connection cfg in
  let g := slot w conn in
  let G := OIDCAuthenticator.tokenGenID (authenticator w) in
  (g = 0 \/ G <= g ->
   Reauth ctx (Some cfg) w = Auth ctx (Some cfg) (invalidated conn w) /\
   OIDCAuthenticator.accessToken (authenticator (invalidated conn w))
     = EmptyString /\
   forall callback,
     resolves_to (authenticator w) callback ->
     invocations (trace (after (Reauth ctx (Some cfg) w) w))
     = S (invocations (trace w))) /\
  (0 < g < G -> Reauth ctx (Some cfg) w = Auth ctx (Some cfg) w) /\
  Reauth ctx None w = Panic w.
Proof.
  intros Hmu conn g G. unfold Reauth, mbind, M_bind.
  rewrite invalidateAccessToken_eq by assumption. fold conn g G.
  split; [|split; [|reflexivity]].
  - intros Hf. destruct (decide _) as [_|Hn]; [|contradiction].
    split; [reflexivity|]. split; [reflexivity|].
    intros callback Hr.
    assert (Hmu' : OIDCAuthenticator.mu (authenticator (invalidated conn w)) = false)
      by exact Hmu.
    rewrite Auth_eq by assumption.
    change (OIDCAuthenticator.accessToken (authenticator (invalidated conn w)))
      with EmptyString.
    destruct (decide (EmptyString <> EmptyString)) as [Hn|_];
      [exfalso; apply Hn; reflexivity|].
    rewrite (authDispatch_resolved ctx cfg (invalidated conn w) callback)
      by exact Hr.
    pose proof (doAuthMachine_invokes_once ctx cfg callback (invalidated conn w)
                  Hmu' eq_refl) as Hi.
    pose proof (doAuthMachine_effect ctx cfg callback (invalidated conn w) Hmu')
      as [Hfin _].
    destruct (doAuthMachine ctx cfg callback (invalidated conn w));
      [exact Hi|exact Hi|contradiction].
  - intros Hs. destruct (decide _) as [[Hz|Hle]|_]; [lia|lia|reflexivity].
Qed.

Lemma Reauth_fenced_witness :
  Reauth Sample.ctx (Some Sample.cfg) Scenario.stale
  = Auth Sample.ctx (Some Sample.cfg) Scenario.stale.
Proof.
  apply (proj1 (proj2 (Reauth_fenced Scenario.stale Sample.ctx Sample.cfg
                         eq_refl))).
  vm_compute. split; reflexivity.
Defined.

(** With nothing cached, an error of the machine callback is what [Auth]
    returns, as it is: no conversation request is sent, and authenticator
    and connection slots are what they were. *)
Theorem Auth_callback_error (w w2 : World) (ctx : context) (cfg : Config.t)
    (callback : OIDCCallback) (cred : option OIDCCredential.t) (err : error) :
  OIDCAuthenticator.mu (authenticator w) = false ->
  OIDCAuthenticator.accessToken (authenticator w) = EmptyString ->
  resolves_to (authenticator w) callback ->
  call callback (ctxWithTimeout ctx machineCallbackTimeout)
    {| OIDCArgs.Version := apiVersion; OIDCArgs.IDPInfo := None;
       OIDCArgs.RefreshToken := None |} w
  = Done (cred, Some err) w2 ->
  Auth ctx (Some cfg) w = Done (Some err) w2 /\
  authenticator w2 = authenticator w /\
  slots w2 = slots w /\
  exchanges (trace w2) = exchanges (trace w).
Proof.
  intros Hmu He Hr Hcall.
  pose proof (call_effect callback (ctxWithTimeout ctx machineCallbackTimeout)
                machine_args w) as Hc.
  unfold machine_args in Hc. rewrite Hcall in Hc.
  destruct Hc as (Ha & Hs & _ & _ & Hx).
  rewrite Auth_eq by assumption. rewrite He.
  destruct (decide _) as [Hn|_]; [contradiction|].
  rewrite (authDispatch_resolved ctx cfg w callback Hr).
  rewrite doAuthMachine_eq by assumption. unfold machine_args. rewrite Hcall.
  destruct cred; auto.
Qed.

Lemma Auth_callback_error_witness :
  exists w2,
    Auth Sample.ctx (Some Sample.cfg)
      (Sample.world Scenario.failing (Sample.cred None (Some (userCallback 7))))
    = Done (Some (foreignError 2)) w2.
Proof.
  eexists.
  refine (proj1 (Auth_callback_error
                   (Sample.world Scenario.failing
                      (Sample.cred None (Some (userCallback 7))))
                   _ Sample.ctx Sample.cfg (userCallback 7) None (foreignError 2)
                   eq_refl eq_refl _ eq_refl)).
  split; [reflexivity|]. left. reflexivity.
Defined.

(** With nothing cached and a machine callback that returns a credential,
    [Auth] stores the token, increments the counter and records it on the
    connection, and only then sends the one conversation request, which
    carries the new token under the key jwt.  The result of [Auth] is the
    result of that conversation; the token stays cached and the counter
    advanced also when the server does not accept it. *)
Theorem Auth_acquires_then_converses (w w2 : World) (ctx : context)
    (cfg : Config.t) (callback : OIDCCallback) (cred : OIDCCredential.t) :
  OIDCAuthenticator.mu (authenticator w) = false ->
  OIDCAuthenticator.accessToken (authenticator w) = EmptyString ->
  resolves_to (authenticator w) callback ->
  call callback (ctxWithTimeout ctx machineCallbackTimeout)
    {| OIDCArgs.Version := apiVersion; OIDCArgs.IDPInfo := None;
       OIDCArgs.RefreshToken := None |} w
  = Done (Some cred, None) w2 ->
  let conn := Config.Connection cfg in
  let T := OIDCCredential.AccessToken cred in
  let request :=
    evSaslStart conn "$external" MongoDBOIDC
      (bytes_of_document [("jwt", bsonString T)]) in
  exists w3,
    Auth ctx (Some cfg) w
    = Done (oneStep_result
              (newAuthError (literal "unexpected step in OIDC authentication")
                 None)
              (server_reply (oracle w) (request :: trace w2))) w3 /\
    trace w3 = request :: trace w2 /\
    OIDCAuthenticator.accessToken (authenticator w3) = T /\
    OIDCAuthenticator.tokenGenID (authenticator w3)
      = uint64.incr (OIDCAuthenticator.tokenGenID (authenticator w)) /\
    slots w3
      = <[conn := uint64.incr (OIDCAuthenticator.tokenGenID (authenticator w))]>
          (slots w) /\
    OIDCAuthenticator.refreshToken (authenticator w3)
      = match OIDCCredential.RefreshToken cred with
        | Some r => Some r
        | None => OIDCAuthenticator.refreshToken (authenticator w)
        end /\
    OIDCAuthenticator.mu (authenticator w3) = false.
Proof.
  intros Hmu He Hr Hcall conn T request.
  pose proof (call_effect callback (ctxWithTimeout ctx machineCallbackTimeout)
                machine_args w) as Hc.
  unfold machine_args in Hc. rewrite Hcall in Hc.
  destruct Hc as (Ha & Hs & Ho & _).
  rewrite Auth_eq by assumption. rewrite He.
  destruct (decide _) as [Hn|_]; [contradiction|].
  rewrite (authDispatch_resolved ctx cfg w callback Hr).
  rewrite doAuthMachine_eq by assumption. unfold machine_args. rewrite Hcall.
  rewrite conduct_oidcOneStep. cbn -[uint64.incr].
  rewrite Ho. eexists. split; [reflexivity|].
  unfold acquired. cbn -[uint64.incr].
  rewrite Ha, Hs, Hmu. repeat split; reflexivity.
Qed.

Lemma Auth_acquires_then_converses_witness :
  exists w3,
    Auth Sample.ctx (Some Sample.cfg) Sample.fresh = Done None w3 /\
    OIDCAuthenticator.accessToken (authenticator w3) = "T".
Proof.
  destruct (Auth_acquires_then_converses Sample.fresh _ Sample.ctx Sample.cfg
              (userCallback 7) Sample.credential eq_refl eq_refl
              (conj eq_refl (or_introl eq_refl)) eq_refl)
    as (w3 & Hrun & _ & Htok & _).
  exists w3. split; [exact Hrun|exact Htok].
Defined.

(** A cached token that the server rejects is not dropped when the
    connection carries an older generation than the counter: the fenced
    invalidation leaves it, and the fallback of [Auth] serves it again from
    the cache.  The call then sleeps once and sends a second conversation
    request with the same token; no callback is invoked, and authenticator
    and connection slots are what they were. *)
Theorem Auth_fallback_reuses_newer_token (w : World) (ctx : context)
    (cfg : Config.t) (callback : OIDCCallback) (err : error) :
  OIDCAuthenticator.mu (authenticator w) = false ->
  let oa := authenticator w in
  let T := OIDCAuthenticator.accessToken oa in
  let conn := Config.Connection cfg in
  let request :=
    evSaslStart conn "$external" MongoDBOIDC
      (bytes_of_document [("jwt", bsonString T)]) in
  let unexpected :=
    newAuthError (literal "unexpected step in OIDC authentication") None in
  let t2 :=
    request :: evSleep invalidateSleepTimeout :: request :: trace w in
  T <> EmptyString ->
  resolves_to oa callback ->
  0 < slot w conn < OIDCAuthenticator.tokenGenID oa ->
  oneStep_result unexpected (server_reply (oracle w) (request :: trace w))
    = Some err ->
  Auth ctx (Some cfg) w
  = Done (oneStep_result unexpected (server_reply (oracle w) t2))
      (with_trace t2 w).
Proof.
  intros Hmu oa T conn request unexpected t2 HT Hr Hs Hrej.
  rewrite Auth_eq by assumption. fold oa T.
  destruct (decide _) as [_|Hn]; [|contradiction].
  rewrite conduct_oidcOneStep. cbn [oidcOneStep.accessToken].
  change (evSaslStart (Config.Connection cfg) "$external" MongoDBOIDC
            (jwtStepRequest T)) with request.
  fold unexpected. rewrite Hrej.
  unfold mbind at 1. unfold M_bind at 1.
  rewrite invalidateAccessToken_eq by exact Hmu.
  change (slot (with_trace (request :: trace w) w) (Config.Connection cfg))
    with (slot w conn).
  change (OIDCAuthenticator.tokenGenID
            (authenticator (with_trace (request :: trace w) w)))
    with (OIDCAuthenticator.tokenGenID oa).
  destruct (decide _) as [[Hz|Hle]|_]; [lia|lia|].
  unfold mbind, M_bind, time_Sleep, emit.
  rewrite (authDispatch_resolved ctx cfg _ callback) by exact Hr.
  unfold doAuthMachine, mbind, M_bind.
  rewrite getAccessToken_eq by exact Hmu.
  change (OIDCAuthenticator.accessToken (authenticator (with_trace _ _)))
    with T.
  destruct (decide _) as [_|Hn]; [|contradiction].
  rewrite conduct_oidcOneStep. reflexivity.
Qed.

Lemma Auth_fallback_reuses_newer_token_witness :
  invocations
    (trace (after (Auth Sample.ctx (Some Sample.cfg) Scenario.stale)
              Scenario.stale)) = 0%nat /\
  exchanges
    (trace (after (Auth Sample.ctx (Some Sample.cfg) Scenario.stale)
              Scenario.stale)) = 2%nat.
Proof.
  rewrite (Auth_fallback_reuses_newer_token Scenario.stale Sample.ctx Sample.cfg
             (userCallback 7) (foreignError 1) eq_refl).
  - split; reflexivity.
  - discriminate.
  - split; [reflexivity|]. left. reflexivity.
  - vm_compute. split; reflexivity.
  - reflexivity.
Defined.


Lemma invalidateAccessToken_cases conn w :
  OIDCAuthenticator.mu (authenticator w) = false ->
  (slot w conn = 0 \/
   OIDCAuthenticator.tokenGenID (authenticator w) <= slot w conn ->
   invalidateAccessToken conn w = Done tt (invalidated conn w)) /\
  (0 < slot w conn < OIDCAuthenticator.tokenGenID (authenticator w) ->
   invalidateAccessToken conn w = Done tt w).
Proof.
  intros Hmu. rewrite invalidateAccessToken_eq by assumption.
  split; intros H; destruct (decide _) as [Hd|Hd]; try reflexivity.
  - contradiction.
  - exfalso. lia.
Qed.

Lemma slot_invalidated c c' w :
  slot (invalidated c w) c' = if decide (c' = c) then 0 else slot w c'.
Proof.
  unfold invalidated, slot. cbn. destruct (decide (c' = c)) as [->|Hne].
  - rewrite lookup_insert_eq. reflexivity.
  - rewrite lookup_insert_ne by congruence. reflexivity.
Qed.

(** Invalidating twice through one connection is invalidating once, and
    invalidations through two connections can be swapped: the outcome is the
    same world. *)
Theorem invalidateAccessToken_idempotent_commutes (w : World)
    (conn1 conn2 : Connection) :
  OIDCAuthenticator.mu (authenticator w) = false ->
  (invalidateAccessToken conn1 ;; invalidateAccessToken conn1) w
    = invalidateAccessToken conn1 w /\
  (invalidateAccessToken conn1 ;; invalidateAccessToken conn2) w
    = (invalidateAccessToken conn2 ;; invalidateAccessToken conn1) w.
Proof.
  intros Hmu. unfold mbind, M_bind.
  set (G := OIDCAuthenticator.tokenGenID (authenticator w)).
  assert (Hcase : forall c, (slot w c = 0 \/ G <= slot w c) \/ 0 < slot w c < G)
    by (intros c; lia).
  assert (Hmu' : forall c, OIDCAuthenticator.mu (authenticator (invalidated c w)) = false)
    by (intros c; exact Hmu).
  assert (Htwice : forall c, invalidated c (invalidated c w) = invalidated c w).
  { intros c. unfold invalidated, with_slots, with_authenticator. cbn.
    rewrite insert_insert_eq. reflexivity. }
  assert (Hswap : forall c c', c <> c' ->
            invalidated c' (invalidated c w) = invalidated c (invalidated c' w)).
  { intros c c' Hne. unfold invalidated, with_slots, with_authenticator. cbn.
    rewrite (insert_insert_ne (slots w) c' c) by congruence. reflexivity. }
  assert (Hsecond : forall c c', c <> c' ->
            invalidateAccessToken c' (invalidated c w)
            = Done tt (if decide (slot w c' = 0 \/ G <= slot w c')
                       then invalidated c' (invalidated c w)
                       else invalidated c w)).
  { intros c c' Hne.
    destruct (invalidateAccessToken_cases c' (invalidated c w) (Hmu' c))
      as [Hyes Hno].
    rewrite slot_invalidated in Hyes, Hno.
    destruct (decide (c' = c)) as [->|_]; [contradiction|].
    change (OIDCAuthenticator.tokenGenID (authenticator (invalidated c w)))
      with G in Hyes, Hno.
    destruct (decide _) as [Hd|Hd]; [apply Hyes; exact Hd|apply Hno; lia]. }
  split.
  - destruct (Hcase conn1) as [H1|H1].
    + rewrite (proj1 (invalidateAccessToken_cases conn1 w Hmu) H1).
      destruct (invalidateAccessToken_cases conn1 (invalidated conn1 w)
                  (Hmu' conn1)) as [Hyes _].
      rewrite Hyes, Htwice; [reflexivity|].
      rewrite slot_invalidated. destruct (decide _); [auto|contradiction].
    + rewrite (proj2 (invalidateAccessToken_cases conn1 w Hmu) H1).
      apply (proj2 (invalidateAccessToken_cases conn1 w Hmu) H1).
  - destruct (decide (conn1 = conn2)) as [->|Hne]; [reflexivity|].
    assert (Hne' : conn2 <> conn1) by congruence.
    destruct (invalidateAccessToken_cases conn1 w Hmu) as [Hyes1 Hno1].
    destruct (invalidateAccessToken_cases conn2 w Hmu) as [Hyes2 Hno2].
    destruct (Hcase conn1) as [H1|H1], (Hcase conn2) as [H2|H2];
      rewrite ?(Hyes1 H1), ?(Hno1 H1), ?(Hyes2 H2), ?(Hno2 H2); cbv beta iota;
      rewrite ?(Hyes1 H1), ?(Hno1 H1), ?(Hyes2 H2), ?(Hno2 H2),
        ?(Hsecond conn1 conn2 Hne), ?(Hsecond conn2 conn1 Hne');
      repeat (destruct (decide _) as [?|?]; try (exfalso; lia));
      rewrite ?(Hswap conn1 conn2 Hne); reflexivity.
Qed.

Lemma invalidateAccessToken_idempotent_commutes_witness :
  (invalidateAccessToken 0%nat ;; invalidateAccessToken 1%nat) Sample.cached
  = (invalidateAccessToken 1%nat ;; invalidateAccessToken 0%nat) Sample.cached.
Proof.
  exact (proj2 (invalidateAccessToken_idempotent_commutes Sample.cached
                  0%nat 1%nat eq_refl)).
Defined.

Section Preserved.
Variable P : World -> Prop.
Hypothesis P_ext : forall w w',
  authenticator w' = authenticator w -> slots w' = slots w -> P w -> P w'.
Hypothesis P_invalidated : forall c w, P w -> P (invalidated c w).
Hypothesis P_acquired : forall cred c w,
  P w -> OIDCAuthenticator.tokenGenID (authenticator w) < uint64.max ->
  P (acquired cred c w).

Lemma getAccessToken_preserves ctx conn args cb w :
  OIDCAuthenticator.mu (authenticator w) = false ->
  P w ->
  OIDCAuthenticator.tokenGenID (authenticator w) < uint64.max ->
  P (after (getAccessToken ctx conn args cb w) w).
Proof.
  intros Hmu Hb Hlt. rewrite getAccessToken_eq by assumption.
  destruct (decide _); [exact Hb|].
  pose proof (call_effect cb ctx args w) as Hc.
  destruct (call cb ctx args w) as [[[c|] [e|]] w2|w2|why]; cbn;
    try contradiction; destruct Hc as (Ha & Hs & _);
    try (apply (P_ext w); assumption).
  apply P_acquired; [apply (P_ext w); assumption|].
  rewrite Ha. exact Hlt.
Qed.

Lemma doAuthMachine_preserves ctx cfg cb w :
  OIDCAuthenticator.mu (authenticator w) = false ->
  P w ->
  OIDCAuthenticator.tokenGenID (authenticator w) < uint64.max ->
  P (after (doAuthMachine ctx cfg cb w) w).
Proof.
  intros Hmu Hb Hlt. unfold doAuthMachine, mbind, M_bind.
  match goal with |- context [getAccessToken ?c ?n ?a cb w] =>
    pose proof (getAccessToken_preserves c n a cb w Hmu Hb Hlt) as H;
    destruct (getAccessToken c n a cb w) as [[tok [err|]] w1|w1|why]
  end; cbn in *; auto.
  rewrite conduct_oidcOneStep. cbn. revert H. apply P_ext; reflexivity.
Qed.

Lemma authDispatch_preserves ctx cfg w :
  OIDCAuthenticator.mu (authenticator w) = false ->
  P w ->
  OIDCAuthenticator.tokenGenID (authenticator w) < uint64.max ->
  P (after (authDispatch ctx cfg w) w).
Proof.
  intros Hmu Hb Hlt. unfold authDispatch, doAuthHuman. unfold_M.
  destruct (OIDCAuthenticator.OIDCHumanCallback (authenticator w)); cbn; [auto|].
  destruct (OIDCAuthenticator.OIDCMachineCallback (authenticator w)) as [m|]; cbn.
  - apply doAuthMachine_preserves; assumption.
  - destruct (providerCallback (authenticator w)) as [[p|] [e|]]; cbn; auto.
    apply doAuthMachine_preserves; assumption.
Qed.

Lemma Auth_preserves ctx cfg w :
  OIDCAuthenticator.mu (authenticator w) = false ->
  P w ->
  OIDCAuthenticator.tokenGenID (authenticator w) < uint64.max ->
  P (after (Auth ctx cfg w) w).
Proof.
  intros Hmu Hb Hlt. destruct cfg as [cfg|]; [|exact Hb].
  rewrite Auth_eq by assumption.
  destruct (decide _); [|apply authDispatch_preserves; assumption].
  rewrite conduct_oidcOneStep. cbv zeta.
  set (w1 := with_trace _ w).
  assert (Hb1 : P w1) by (revert Hb; apply P_ext; reflexivity).
  destruct (oneStep_result _ _) as [e|]; [|exact Hb1].
  assert (Hmu1 : OIDCAuthenticator.mu (authenticator w1) = false) by exact Hmu.
  unfold mbind, M_bind, time_Sleep, emit.
  rewrite invalidateAccessToken_eq by exact Hmu1.
  set (w2 := if decide _ then _ else w1).
  assert (H2 : OIDCAuthenticator.mu (authenticator w2) = false /\
               P w2 /\
               OIDCAuthenticator.tokenGenID (authenticator w2) < uint64.max).
  { unfold w2. destruct (decide _); [|auto].
    split; [exact Hmu|]. split; [apply P_invalidated; exact Hb1|exact Hlt]. }
  destruct H2 as (Hmu2 & Hb2 & Hlt2).
  set (w3 := with_trace _ w2).
  assert (Hb3 : P w3) by (revert Hb2; apply P_ext; reflexivity).
  pose proof (authDispatch_preserves ctx cfg w3 Hmu2 Hb3 Hlt2) as Hd.
  pose proof (authDispatch_effect ctx cfg w3 Hmu2) as [Hf _].
  destruct (authDispatch ctx cfg w3); [exact Hd|exact Hd|contradiction].
Qed.

Lemma Reauth_preserves ctx cfg w :
  OIDCAuthenticator.mu (authenticator w) = false ->
  P w ->
  OIDCAuthenticator.tokenGenID (authenticator w) < uint64.max ->
  P (after (Reauth ctx cfg w) w).
Proof.
  intros Hmu Hb Hlt. destruct cfg as [cfg|]; [|exact Hb].
  unfold Reauth, mbind, M_bind.
  rewrite invalidateAccessToken_eq by exact Hmu.
  set (w2 := if decide _ then _ else w).
  assert (H2 : OIDCAuthenticator.mu (authenticator w2) = false /\
               P w2 /\
               OIDCAuthenticator.tokenGenID (authenticator w2) < uint64.max).
  { unfold w2. destruct (decide _); [|auto].
    split; [exact Hmu|]. split; [apply P_invalidated; exact Hb|exact Hlt]. }
  destruct H2 as (Hmu2 & Hb2 & Hlt2).
  pose proof (Auth_preserves ctx (Some cfg) w2 Hmu2 Hb2 Hlt2) as Hd.
  pose proof (Auth_effect ctx (Some cfg) w2 Hmu2) as [Hf _].
  destruct (Auth ctx (Some cfg) w2); [exact Hd|exact Hd|contradiction].
Qed.

Lemma perform_preserves op w :
  OIDCAuthenticator.mu (authenticator w) = false ->
  P w ->
  OIDCAuthenticator.tokenGenID (authenticator w) < uint64.max ->
  match op with
  | opSetAccessToken _ => True
  | _ => P (perform op w)
  end.
Proof.
  intros Hmu Hb Hlt. destruct op; cbn [perform]; [| | | | |exact I].
  - apply Auth_preserves; assumption.
  - apply Reauth_preserves; assumption.
  - apply getAccessToken_preserves; assumption.
  - rewrite invalidateAccessToken_eq by assumption. cbn.
    destruct (decide _); [apply P_invalidated|]; assumption.
  - rewrite CreateSpeculativeConversation_eq by assumption. exact Hb.
Qed.
End Preserved.

Lemma bounded_ext w w' :
  authenticator w' = authenticator w -> slots w' = slots w ->
  generations_bounded w -> generations_bounded w'.
Proof. unfold generations_bounded, slot. intros -> ->. auto. Qed.

Lemma bounded_invalidated c w :
  generations_bounded w -> generations_bounded (invalidated c w).
Proof.
  intros H c'. rewrite slot_invalidated.
  destruct (decide _); [lia|apply H].
Qed.

Lemma bounded_acquired cred c w :
  generations_bounded w ->
  OIDCAuthenticator.tokenGenID (authenticator w) < uint64.max ->
  generations_bounded (acquired cred c w).
Proof.
  intros H Hlt c'. unfold acquired, slot. cbn -[uint64.incr].
  rewrite incr_small by assumption.
  destruct (decide (c' = c)) as [->|Hne].
  - rewrite lookup_insert_eq. cbn. lia.
  - rewrite lookup_insert_ne by congruence. specialize (H c'). unfold slot in H. lia.
Qed.

(** As long as the counter has not reached 2^64 - 1, every operation keeps
    the generations recorded on the connections at or below the counter: a
    connection never carries a generation that has not been handed out. *)
Theorem generations_stay_bounded (w : World) (op : Operation) :
  OIDCAuthenticator.mu (authenticator w) = false ->
  generations_bounded w ->
  OIDCAuthenticator.tokenGenID (authenticator w) < uint64.max ->
  generations_bounded (perform op w).
Proof.
  intros Hmu Hb Hlt.
  pose proof (perform_preserves generations_bounded bounded_ext
                bounded_invalidated bounded_acquired op w Hmu Hb Hlt) as H.
  destruct op; try exact H.
  cbn [perform]. rewrite SetAccessToken_eq by assumption.
  intros conn. exact (Hb conn).
Qed.

Lemma generations_stay_bounded_witness :
  generations_bounded (perform (opReauth Sample.ctx (Some Sample.cfg)) Sample.fresh).
Proof.
  apply generations_stay_bounded.
  - reflexivity.
  - intros conn. unfold slot.
    change (slots Sample.fresh) with (∅ : gmap nat N).
    rewrite lookup_empty. apply N.le_0_l.
  - reflexivity.
Defined.

(** Generation 0 stands for no token at all: as long as the counter has not
    reached 2^64 - 1, every operation other than [SetAccessToken] keeps the
    counter positive whenever a token is cached, so a connection whose
    recorded generation is 0 never carries the generation of a cached
    token. *)
Theorem cached_token_has_generation (w : World) (op : Operation) :
  OIDCAuthenticator.mu (authenticator w) = false ->
  token_has_generation w ->
  OIDCAuthenticator.tokenGenID (authenticator w) < uint64.max ->
  (forall accessToken, op <> opSetAccessToken accessToken) ->
  token_has_generation (perform op w).
Proof.
  intros Hmu Ht Hlt Hop.
  assert (Hext : forall w0 w', authenticator w' = authenticator w0 ->
            slots w' = slots w0 ->
            token_has_generation w0 -> token_has_generation w').
  { unfold token_has_generation. intros w0 w' -> _. auto. }
  assert (Hinv : forall c w0, token_has_generation w0 ->
            token_has_generation (invalidated c w0)).
  { unfold token_has_generation, invalidated. cbn. intros c w0 _ H.
    exfalso. apply H. reflexivity. }
  assert (Hacq : forall cred c w0, token_has_generation w0 ->
            OIDCAuthenticator.tokenGenID (authenticator w0) < uint64.max ->
            token_has_generation (acquired cred c w0)).
  { unfold token_has_generation, acquired. cbn -[uint64.incr].
    intros cred c w0 _ Hlt0 _. rewrite incr_small by assumption. lia. }
  pose proof (perform_preserves token_has_generation Hext Hinv Hacq op w
                Hmu Ht Hlt) as H.
  destruct op; try exact H. exfalso. exact (Hop _ eq_refl).
Qed.

Lemma cached_token_has_generation_witness :
  token_has_generation (perform (opAuth Sample.ctx (Some Sample.cfg)) Sample.fresh).
Proof.
  apply cached_token_has_generation.
  - reflexivity.
  - intros H. exfalso. apply H. reflexivity.
  - reflexivity.
  - discriminate.
Defined.

(** A cached token that the server rejects is replaced when the
    connection's recorded generation is 0 or not below the counter: the
    token is dropped and the connection's generation reset, the call sleeps
    once, the machine callback is invoked, and the credential it returns is
    stored under the next generation, which is recorded on the connection,
    before the second conversation request carries the new token.  The
    result of [Auth] is the result of that second conversation. *)
Theorem Auth_fallback_replaces_own_token (w w2 : World) (ctx : context)
    (cfg : Config.t) (callback : OIDCCallback) (err : error)
    (cred : OIDCCredential.t) :
  OIDCAuthenticator.mu (authenticator w) = false ->
  let oa := authenticator w in
  let T := OIDCAuthenticator.accessToken oa in
  let conn := Config.Connection cfg in
  let unexpected :=
    newAuthError (literal "unexpected step in OIDC authentication") None in
  let rejected :=
    evSaslStart conn "$external" MongoDBOIDC
      (bytes_of_document [("jwt", bsonString T)]) in
  let w1 :=
    with_trace (evSleep invalidateSleepTimeout :: rejected :: trace w)
      (invalidated conn w) in
  let request :=
    evSaslStart conn "$external" MongoDBOIDC
      (bytes_of_document
         [("jwt", bsonString (OIDCCredential.AccessToken cred))]) in
  T <> EmptyString ->
  resolves_to oa callback ->
  slot w conn = 0 \/ OIDCAuthenticator.tokenGenID oa <= slot w conn ->
  oneStep_result unexpected (server_reply (oracle w) (rejected :: trace w))
    = Some err ->
  call callback (ctxWithTimeout ctx machineCallbackTimeout)
    {| OIDCArgs.Version := apiVersion; OIDCArgs.IDPInfo := None;
       OIDCArgs.RefreshToken := None |} w1
  = Done (Some cred, None) w2 ->
  exists w3,
    Auth ctx (Some cfg) w
    = Done (oneStep_result unexpected
              (server_reply (oracle w) (request :: trace w2))) w3 /\
    trace w3 = request :: trace w2 /\
    OIDCAuthenticator.accessToken (authenticator w3)
      = OIDCCredential.AccessToken cred /\
    OIDCAuthenticator.tokenGenID (authenticator w3)
      = uint64.incr (OIDCAuthenticator.tokenGenID oa) /\
    slot w3 conn = uint64.incr (OIDCAuthenticator.tokenGenID oa).
Proof.
  intros Hmu oa T conn unexpected rejected w1 request HT Hr Hf Hrej Hcall.
  pose proof (call_effect callback (ctxWithTimeout ctx machineCallbackTimeout)
                machine_args w1) as Hc.
  unfold machine_args in Hc. rewrite Hcall in Hc.
  destruct Hc as (Ha & Hs & Ho & _).
  rewrite Auth_eq by assumption. fold oa T.
  destruct (decide _) as [_|Hn]; [|contradiction].
  rewrite conduct_oidcOneStep. cbn [oidcOneStep.accessToken].
  change (evSaslStart (Config.Connection cfg) "$external" MongoDBOIDC
            (jwtStepRequest T)) with rejected.
  fold unexpected. rewrite Hrej.
  unfold mbind at 1. unfold M_bind at 1.
  rewrite (proj1 (invalidateAccessToken_cases (Config.Connection cfg)
                    (with_trace (rejected :: trace w) w) Hmu)) by exact Hf.
  unfold mbind, M_bind, time_Sleep, emit.
  change (with_trace _ (invalidated (Config.Connection cfg)
                          (with_trace (rejected :: trace w) w))) with w1.
  rewrite (authDispatch_resolved ctx cfg w1 callback) by exact Hr.
  rewrite doAuthMachine_eq by (first [exact Hmu|reflexivity]).
  unfold machine_args. rewrite Hcall.
  rewrite conduct_oidcOneStep. cbn -[uint64.incr].
  rewrite Ho. eexists. split; [reflexivity|].
  unfold acquired, slot. cbn -[uint64.incr].
  rewrite Ha, lookup_insert_eq. repeat split; reflexivity.
Qed.

Lemma Auth_fallback_replaces_own_token_witness :
  exists w3,
    Auth Sample.ctx (Some Sample.cfg)
      (with_slots (<[0%nat := 2]> ∅) Scenario.stale)
    = Done (Some (foreignError 1)) w3 /\
    OIDCAuthenticator.tokenGenID (authenticator w3) = 3.
Proof.
  pose proof (fun w2 =>
                Auth_fallback_replaces_own_token
                  (with_slots (<[0%nat := 2]> ∅) Scenario.stale) w2
                  Sample.ctx Sample.cfg (userCallback 7) (foreignError 1)
                  Sample.credential eq_refl) as H.
  cbv zeta in H.
  edestruct H as (w3 & Hrun & _ & _ & HG & _).
  - discriminate.
  - split; [reflexivity|]. left. reflexivity.
  - right. vm_compute. discriminate.
  - reflexivity.
  - reflexivity.
  - exists w3. split; [exact Hrun|exact HG].
Defined.

(** [newPlainAuthenticator] accepts every credential, whatever its
    password, properties and callbacks, and keeps user name and password.
    [Auth] on what it returns sends exactly one request, a conversation start
    for PLAIN on $external whose payload is the byte 0, the user name, the
    byte 0 and the password, and changes nothing else; it succeeds when the
    server completes the conversation in its reply, fails with the transport's
    error when there is one, and fails without a second request when the
    server asks for more. *)
Theorem newPlainAuthenticator_conversation (cred : Cred.t)
    (httpClient : http_Client) :
  exists a,
    newPlainAuthenticator cred httpClient = (Some a, None) /\
    PlainAuthenticator.Username a = Cred.Username cred /\
    PlainAuthenticator.Password a = Cred.Password cred /\
    forall (ctx : context) (cfg : Config.t) (w : World),
      let request :=
        evSaslStart (Config.Connection cfg) "$external" PLAIN
          (bytes_of_string
             (String Ascii.zero
                (Cred.Username cred +:+ String Ascii.zero (Cred.Password cred)))) in
      PlainAuthenticator_Auth a ctx cfg w
      = Done (match server_reply (oracle w) (request :: trace w) with
              | replyError e => Some e
              | saslResponse true _ _ => None
              | saslResponse false _ _ =>
                  Some (newAuthError (literal "unexpected server challenge")
                          None)
              end)
          (with_trace (request :: trace w) w).
Proof.
  eexists. split; [reflexivity|]. split; [reflexivity|]. split; [reflexivity|].
  intros ctx cfg w request. unfold PlainAuthenticator_Auth.
  rewrite conduct_plain.
  cbn [Start plainSaslClient_SaslClient plainSaslClient.username
         plainSaslClient.password PlainAuthenticator.Username
         PlainAuthenticator.Password fst snd].
  rewrite plain_payload. fold request.
  destruct (server_reply _ _) as [e|[] cid payload]; reflexivity.
Qed.

Lemma oneStep_accepted unexpected r :
  oneStep_result unexpected r = None ->
  exists cid payload, r = saslResponse true cid payload.
Proof. destruct r as [e|[] cid payload]; try discriminate. eauto. Qed.

Lemma doAuthMachine_success ctx cfg cb w w' :
  OIDCAuthenticator.mu (authenticator w) = false ->
  doAuthMachine ctx cfg cb w = Done None w' ->
  accepted_cached_token (Config.Connection cfg) w'.
Proof.
  intros Hmu. unfold doAuthMachine, mbind, M_bind.
  rewrite getAccessToken_eq by assumption.
  destruct (decide _) as [Hne|He].
  - rewrite conduct_oidcOneStep. intros [= Hr <-].
    split; [eexists; reflexivity|]. exact (oneStep_accepted _ _ Hr).
  - match goal with |- context [call cb ?c ?a w] =>
      pose proof (call_effect cb c a w) as Hc;
      destruct (call cb c a w) as [[[cred|] [e|]] w2|w2|why]
    end; try discriminate.
    rewrite conduct_oidcOneStep. intros [= Hr <-].
    split; [eexists; reflexivity|]. exact (oneStep_accepted _ _ Hr).
Qed.

Lemma authDispatch_success ctx cfg w w' :
  OIDCAuthenticator.mu (authenticator w) = false ->
  authDispatch ctx cfg w = Done None w' ->
  accepted_cached_token (Config.Connection cfg) w'.
Proof.
  intros Hmu. unfold authDispatch, doAuthHuman. unfold_M.
  destruct (OIDCAuthenticator.OIDCHumanCallback (authenticator w)); cbn;
    [discriminate|].
  destruct (OIDCAuthenticator.OIDCMachineCallback (authenticator w)) as [m|]; cbn.
  - apply doAuthMachine_success; assumption.
  - destruct (providerCallback (authenticator w)) as [[p|] [e|]]; cbn;
      try discriminate.
    apply doAuthMachine_success; assumption.
Qed.

(** [Auth] never reports success on its own account: when it returns no
    error, the last thing it did was a conversation through the connection
    of the call that the server completed in its first reply, and the token
    that conversation carried is the token that is cached when [Auth]
    returns.  The mutex is free then. *)
Theorem Auth_success_means_accepted (w w' : World) (ctx : context)
    (cfg : option Config.t) :
  OIDCAuthenticator.mu (authenticator w) = false ->
  Auth ctx cfg w = Done None w' ->
  exists c,
    cfg = Some c /\
    accepted_cached_token (Config.Connection c) w' /\
    OIDCAuthenticator.mu (authenticator w') = false.
Proof.
  intros Hmu Hrun. destruct cfg as [cfg|]; [|discriminate].
  exists cfg. split; [reflexivity|].
  split.
  2:{ pose proof (Auth_effect ctx (Some cfg) w Hmu) as [_ He].
      rewrite Hrun in He. apply He. }
  revert Hrun. rewrite Auth_eq by assumption.
  destruct (decide _); [|apply authDispatch_success; assumption].
  rewrite conduct_oidcOneStep. cbv zeta.
  destruct (oneStep_result _ _) as [e|] eqn:Hr.
  - unfold mbind at 1. unfold M_bind at 1.
    match goal with |- context [invalidateAccessToken ?c ?w1] =>
      destruct (invalidateAccessToken_frame c w1 Hmu)
        as (w2 & -> & _ & _ & Hmu2 & _)
    end.
    unfold mbind, M_bind, time_Sleep, emit.
    apply authDispatch_success. exact Hmu2.
  - intros [= <-]. split; [eexists; reflexivity|].
    exact (oneStep_accepted _ _ Hr).
Qed.

Lemma Auth_success_means_accepted_witness :
  accepted_cached_token 0%nat Sample.cached.
Proof.
  destruct (Auth_success_means_accepted Sample.fresh Sample.cached
              Sample.ctx (Some Sample.cfg) eq_refl)
    as (c & [= <-] & Hacc & _); [vm_compute; reflexivity|].
  exact Hacc.
Defined.

(** What is set at construction stays as it is: no sequence of operations
    changes the properties, the callbacks, the user name, the HTTP client or
    the IDP information of an authenticator, and every operation of the
    sequence that starts with the mutex free ends with it free. *)
Theorem configuration_is_fixed (w : World) (ops : list Operation) :
  OIDCAuthenticator.mu (authenticator w) = false ->
  let w' := perform_all ops w in
  configuration (authenticator w') = configuration (authenticator w) /\
  OIDCAuthenticator.idpInfo (authenticator w')
    = OIDCAuthenticator.idpInfo (authenticator w) /\
  oracle w' = oracle w /\
  OIDCAuthenticator.mu (authenticator w') = false.
Proof.
  revert w. induction ops as [|op ops IH]; intros w Hmu; [cbn; auto|].
  cbv zeta. rewrite perform_all_cons.
  destruct (perform_effect op w Hmu) as (Hmu' & Hc & Hi & Ho & _).
  destruct (IH (perform op w) Hmu') as (Hc' & Hi' & Ho' & Hm').
  rewrite Hc', Hi', Ho'. auto.
Qed.

Lemma configuration_is_fixed_witness :
  configuration (authenticator (perform_all (Sample.reauths 3) Sample.fresh))
  = configuration (authenticator Sample.fresh).
Proof.
  exact (proj1 (configuration_is_fixed Sample.fresh (Sample.reauths 3) eq_refl)).
Defined.

(** * Concurrent calls of [Auth], whatever callback and server do *)

Ltac quiet_step :=
  split; [cbn; lia|]; exists [], 0%nat; split; [reflexivity|];
  change (invocations []) with 0%nat; change (exchanges []) with 0%nat;
  cbn; repeat split; first [lia | left; split; reflexivity].

Ltac logged_step :=
  split; [cbn; lia|]; eexists [_], 0%nat; split; [reflexivity|];
  rewrite invocations_cons, exchanges_cons;
  change (invocations []) with 0%nat; change (exchanges []) with 0%nat;
  cbn; repeat split; first [lia | left; split; reflexivity].

Lemma thread_step_accounts i p w :
  finished p = false ->
  (holds_mutex p = true -> OIDCAuthenticator.mu (authenticator w) = true) ->
  match thread_step i p w with
  | Done p' w' => accounts p p' w w'
  | Panic w' => accounts p pcPanicked w w'
  | Stuck _ => holds_mutex p = false /\ OIDCAuthenticator.mu (authenticator w) = true
  end.
Proof.
  intros Hfin Hheld. unfold accounts.
  destruct p; try discriminate Hfin; cbn [thread_step holds_mutex] in *.
  - (* pcStart *)
    unfold_M. destruct (OIDCAuthenticator.mu (authenticator w)) eqn:Hmu; cbn;
      [auto|]. rewrite ?Hmu. quiet_step.
  - (* pcSnapshot *)
    specialize (Hheld eq_refl). unfold_M. cbn. rewrite ?Hheld. cbn.
    destruct (decide _); cbn; rewrite ?Hheld; quiet_step.
  - (* pcCached *)
    unfold mbind, M_bind, load, mret, M_ret. rewrite conduct_oidcOneStep'.
    destruct (server_reply _ _) as [e|[] cid payload]; cbn; logged_step.
  - (* pcInvalidateLock *)
    unfold_M. destruct (OIDCAuthenticator.mu (authenticator w)) eqn:Hmu; cbn;
      [auto|]. rewrite ?Hmu. quiet_step.
  - (* pcInvalidate *)
    specialize (Hheld eq_refl). unfold invalidateLocked. mrun.
    destruct (decide _); repeat (progress mrun || rewrite Hheld); quiet_step.
  - (* pcSleep *)
    unfold_M. cbn. logged_step.
  - (* pcDispatch *)
    unfold doAuthHuman. unfold_M.
    destruct (OIDCAuthenticator.OIDCHumanCallback (authenticator w)); cbn;
      [quiet_step|].
    destruct (OIDCAuthenticator.OIDCMachineCallback (authenticator w)); cbn;
      [quiet_step|].
    destruct (providerCallback (authenticator w)) as [[c|] [e|]]; cbn; quiet_step.
  - (* pcAcquireLock *)
    unfold_M. destruct (OIDCAuthenticator.mu (authenticator w)) eqn:Hmu; cbn;
      [auto|]. rewrite ?Hmu. quiet_step.
  - (* pcAcquire *)
    specialize (Hheld eq_refl). unfold_M. cbn.
    destruct (decide _); cbn; rewrite ?Hheld; cbn; [rewrite ?Hheld; quiet_step|].
    logged_step.
  - (* pcCallback *)
    specialize (Hheld eq_refl).
    pose proof (answer_effect callback (subCtx_of i) w) as Ha.
    unfold mbind, M_bind, defer.
    destruct (answer callback (subCtx_of i) w) as [[cred err] w1|w1|why];
      [| |contradiction];
      destruct Ha as (Hauth & _ & _ & extra & Htr & Hinv & Hexc & _).
    + unfold afterCallback, storeCredential. unfold_M.
      destruct cred as [c|], err as [e|]; cbn;
        try destruct (OIDCCredential.RefreshToken c);
        repeat (progress mrun || rewrite Hauth || rewrite Hheld);
        (split; [lia|]);
        first [ exists extra, 1%nat; (split; [exact Htr|]);
                rewrite Hinv, Hexc; cbn;
                repeat split; first [lia | right; split; reflexivity]
              | exists extra, 0%nat; (split; [exact Htr|]);
                rewrite Hinv, Hexc; cbn;
                repeat split; first [lia | left; split; reflexivity] ].
    + repeat (progress mrun || rewrite Hauth || rewrite Hheld).
      split; [cbn; lia|]. exists extra, 0%nat. split; [exact Htr|].
      rewrite Hinv, Hexc. cbn.
      repeat split; first [lia | left; split; reflexivity].
  - (* pcConverse *)
    unfold mbind, M_bind, load, mret, M_ret. rewrite conduct_oidcOneStep'.
    cbn. logged_step.
Qed.

Lemma holds_not_finished p : holds_mutex p = true -> finished p = false.
Proof. destruct p; cbn; congruence. Qed.

Lemma shares_held n t0 G s i p :
  shares n t0 G s -> threads s !! i = Some p -> holds_mutex p = true ->
  OIDCAuthenticator.mu (authenticator (shared s)) = true.
Proof.
  intros [Hm _] Hp Hh.
  pose proof (total_lookup (fun q => flag (holds_mutex q)) _ i p Hp) as Hle.
  cbv beta in Hle. rewrite Hh, Hm in Hle.
  destruct (OIDCAuthenticator.mu _); [reflexivity|cbn in Hle; lia].
Qed.

Lemma shares_step n t0 G i s s' :
  shares n t0 G s -> sched_step i s = Some s' -> shares n t0 G s'.
Proof.
  intros Hs Hstep. pose proof Hs as (Hm & new & k & Htr & Hi & Hx & Hk & HG).
  unfold sched_step in Hstep.
  destruct (threads s !! i) as [p|] eqn:Hp; [|discriminate].
  destruct (finished p) eqn:Hfin; [discriminate|].
  pose proof (thread_step_accounts i p (shared s) Hfin
                (shares_held n t0 G s i p Hs Hp)) as Hacc.
  assert (Hgo : forall p' w',
            accounts p p' (shared s) w' ->
            shares n t0 G {| shared := w'; threads := <[i := p']> (threads s) |}).
  { intros p' w' (Hmu & extra & bump & Het & Hei & Hex & Hb & HG').
    pose proof (total_insert (fun q => flag (holds_mutex q)) _ i p p' Hp).
    pose proof (total_insert may_invoke _ i p p' Hp).
    pose proof (total_insert may_exchange _ i p p' Hp).
    pose proof (total_insert (fun q => flag (in_callback q)) _ i p p' Hp).
    pose proof (total_lookup (fun q => flag (holds_mutex q)) _ i p Hp).
    pose proof (total_lookup may_invoke _ i p Hp).
    pose proof (total_lookup may_exchange _ i p Hp).
    pose proof (total_lookup (fun q => flag (in_callback q)) _ i p Hp).
    cbv beta in *. unfold shares. cbn [shared threads].
    split; [lia|]. exists (extra ++ new)%list, (k + bump)%nat.
    rewrite Het, Htr, invocations_app, exchanges_app.
    split; [apply app_assoc|]. do 3 (split; [lia|]).
    destruct HG' as [[-> ->]|[-> ->]].
    - rewrite HG, Nat.add_0_r. reflexivity.
    - rewrite HG, wrap_incr. f_equal. lia. }
  destruct (thread_step i p (shared s)) as [p' w'|w'|why]; [| |discriminate];
    injection Hstep as <-; apply Hgo; exact Hacc.
Qed.

Lemma shares_run n t0 G schedule : forall s,
  shares n t0 G s -> shares n t0 G (run_schedule schedule s).
Proof.
  induction schedule as [|i schedule IH]; intros s Hs; [exact Hs|].
  cbn. apply IH. destruct (sched_step i s) as [s'|] eqn:Hstep; cbn;
    [exact (shares_step n t0 G i s s' Hs Hstep)|exact Hs].
Qed.

Lemma shares_start n w :
  OIDCAuthenticator.mu (authenticator w) = false ->
  OIDCAuthenticator.tokenGenID (authenticator w) < uint64.modulus ->
  shares n (trace w) (OIDCAuthenticator.tokenGenID (authenticator w))
    (concurrent_calls n w).
Proof.
  intros Hmu Hlt. unfold shares, concurrent_calls. cbn [shared threads].
  rewrite !total_replicate, Hmu.
  cbn [holds_mutex in_callback flag may_invoke may_exchange].
  split; [lia|]. exists [], 0%nat. split; [reflexivity|].
  change (invocations []) with 0%nat. change (exchanges []) with 0%nat.
  do 3 (split; [lia|]).
  rewrite N.add_0_r. symmetry. apply N.mod_small. exact Hlt.
Qed.

Lemma shares_enabled n t0 G s i p :
  shares n t0 G s ->
  threads s !! i = Some p ->
  finished p = false ->
  holds_mutex p = true \/
    OIDCAuthenticator.mu (authenticator (shared s)) = false ->
  is_Some (sched_step i s).
Proof.
  intros Hs Hp Hfin Hen. unfold sched_step. rewrite Hp, Hfin.
  pose proof (thread_step_accounts i p (shared s) Hfin
                (shares_held n t0 G s i p Hs Hp)) as Hacc.
  destruct (thread_step i p (shared s)) as [p' w'|w'|why]; [eauto|eauto|].
  destruct Hacc as [Hh Hmu]. destruct Hen; congruence.
Qed.

(** [n] calls of [Auth] run together, interleaved in any way, with any
    callback and any server.  At every moment at most one call is between a
    [Lock] and its [Unlock], and the mutex is held exactly when there is such
    a call; so at most one callback runs at a time.  The run cannot deadlock:
    while some call has not finished, some call can take a step.  Together
    the calls invoke callbacks at most [n] times and send at most [2 * n]
    conversation requests, and the counter has been incremented (as a
    uint64) at most as often as a callback has been invoked. *)
Theorem concurrent_calls_exclude (n : nat) (w : World) (schedule : list nat) :
  OIDCAuthenticator.mu (authenticator w) = false ->
  OIDCAuthenticator.tokenGenID (authenticator w) < uint64.modulus ->
  let s := run_schedule schedule (concurrent_calls n w) in
  (forall i j p q,
     threads s !! i = Some p -> threads s !! j = Some q ->
     holds_mutex p = true -> holds_mutex q = true -> i = j) /\
  (OIDCAuthenticator.mu (authenticator (shared s)) = true <->
   exists i p, threads s !! i = Some p /\ holds_mutex p = true) /\
  (forall i j c d,
     threads s !! i = Some (pcCallback c) ->
     threads s !! j = Some (pcCallback d) -> i = j) /\
  (~ all_done s -> exists i, is_Some (sched_step i s)) /\
  exists new k,
    trace (shared s) = (new ++ trace w)%list /\
    (invocations new <= n)%nat /\
    (exchanges new <= 2 * n)%nat /\
    (k <= invocations new)%nat /\
    OIDCAuthenticator.tokenGenID (authenticator (shared s))
      = uint64.wrap (OIDCAuthenticator.tokenGenID (authenticator w) + N.of_nat k).
Proof.
  intros Hmu Hlt s.
  set (G := OIDCAuthenticator.tokenGenID (authenticator w)).
  assert (Hs : shares n (trace w) G s)
    by (apply shares_run, shares_start; assumption).
  assert (Hexcl : forall i j p q,
            threads s !! i = Some p -> threads s !! j = Some q ->
            holds_mutex p = true -> holds_mutex q = true -> i = j).
  { intros i j p q Hp Hq Hhp Hhq.
    destruct (decide (j = i)) as [->|Hne]; [reflexivity|exfalso].
    pose proof (shares_held _ _ _ _ _ _ Hs Hp Hhp) as Hheld.
    destruct Hs as [Hm _]. rewrite Hheld in Hm.
    assert (Hz : flag (holds_mutex q) = 0%nat).
    { apply (total_others (fun p => flag (holds_mutex p)) (threads s) i p j q);
        try assumption. rewrite Hhp. exact Hm. }
    rewrite Hhq in Hz. discriminate. }
  split; [exact Hexcl|]. split; [|split; [|split]].
  - split.
    + intros Hheld. destruct Hs as [Hm _]. rewrite Hheld in Hm.
      destruct (total_positive (fun q => flag (holds_mutex q)) (threads s))
        as (i & p & Hp & Hpos); [rewrite Hm; cbn; lia|].
      exists i, p. split; [exact Hp|].
      destruct (holds_mutex p); [reflexivity|cbn in Hpos; lia].
    + intros (i & p & Hp & Hh). exact (shares_held _ _ _ _ _ _ Hs Hp Hh).
  - intros i j c d Hp Hq. exact (Hexcl i j _ _ Hp Hq eq_refl eq_refl).
  - intros Hnot.
    destruct (OIDCAuthenticator.mu (authenticator (shared s))) eqn:Hheld.
    + pose proof Hs as [Hm _]. rewrite Hheld in Hm.
      destruct (total_positive (fun q => flag (holds_mutex q)) (threads s))
        as (i & p & Hp & Hpos); [rewrite Hm; cbn; lia|].
      assert (Hh : holds_mutex p = true)
        by (destruct (holds_mutex p); [reflexivity|cbn in Hpos; lia]).
      exists i. apply (shares_enabled n (trace w) G s i p); auto.
      apply holds_not_finished. exact Hh.
    + unfold all_done in Hnot. apply not_Forall_Exists in Hnot; [|apply _].
      apply Exists_exists in Hnot. destruct Hnot as (p & Hin & Hp).
      apply list_elem_of_lookup in Hin. destruct Hin as [i Hi].
      exists i. apply (shares_enabled n (trace w) G s i p); auto.
      apply not_true_is_false. exact Hp.
  - destruct Hs as (_ & new & k & Htr & Hi & Hx & Hk & HG). exists new, k.
    split; [exact Htr|]. do 3 (split; [lia|]). exact HG.
Qed.

Lemma concurrent_calls_exclude_witness :
  exists new k,
    trace (shared (run_schedule Sample.interleaving
                     (concurrent_calls 2 Sample.fresh)))
    = (new ++ trace Sample.fresh)%list /\
    (invocations new <= 2)%nat /\
    (exchanges new <= 2 * 2)%nat /\
    (k <= invocations new)%nat /\
    OIDCAuthenticator.tokenGenID
      (authenticator (shared (run_schedule Sample.interleaving
                                (concurrent_calls 2 Sample.fresh))))
    = uint64.wrap (0 + N.of_nat k).
Proof.
  exact (proj2 (proj2 (proj2 (proj2
           (concurrent_calls_exclude 2 Sample.fresh Sample.interleaving
              eq_refl eq_refl))))).
Defined.

(** * plain.go and index_view.go *)

Lemma append_nil_r (s : string) : s +:+ EmptyString = s.
Proof.
  induction s as [|c s IH]; [reflexivity|].
  change (String c (s +:+ EmptyString) = String c s). f_equal. exact IH.
Qed.

Lemma append_assoc (a b c : string) : (a +:+ b) +:+ c = a +:+ (b +:+ c).
Proof.
  induction a as [|x a IH]; [reflexivity|].
  change (String x ((a +:+ b) +:+ c) = String x (a +:+ (b +:+ c))).
  f_equal. exact IH.
Qed.

Lemma NUL_delimits (u1 u2 p1 p2 : string) :
  contains_NUL u1 = false -> contains_NUL u2 = false ->
  u1 +:+ String Ascii.zero p1 = u2 +:+ String Ascii.zero p2 ->
  u1 = u2 /\ p1 = p2.
Proof.
  revert u2. induction u1 as [|c u1 IH]; intros [|d u2] H1 H2 Heq.
  - injection Heq as ->. auto.
  - change (String Ascii.zero p1 = String d (u2 +:+ String Ascii.zero p2)) in Heq.
    injection Heq as <- _. cbn in H2. discriminate.
  - change (String c (u1 +:+ String Ascii.zero p1) = String Ascii.zero p2) in Heq.
    injection Heq as -> _. cbn in H1. discriminate.
  - change (String c (u1 +:+ String Ascii.zero p1)
            = String d (u2 +:+ String Ascii.zero p2)) in Heq.
    injection Heq as -> Heq. cbn in H1, H2.
    destruct (Ascii.eqb d Ascii.zero); [discriminate|].
    destruct (IH u2 H1 H2 Heq) as [-> ->]. auto.
Qed.

(** The PLAIN payload tells user name and password apart by the byte 0
    between them.  For user names that hold no byte 0 the payload determines
    both: two credentials with the same payload are the same.  Nothing
    escapes or rejects a byte 0 in a user name, though: moving the part of a
    user name after a byte 0 over to the password leaves the payload as it
    is. *)
Theorem plain_payload_identifies (u1 p1 u2 p2 : string) :
  (contains_NUL u1 = false -> contains_NUL u2 = false ->
   Start {| plainSaslClient.username := u1; plainSaslClient.password := p1 |}
   = Start {| plainSaslClient.username := u2; plainSaslClient.password := p2 |} ->
   u1 = u2 /\ p1 = p2) /\
  Start {| plainSaslClient.username := u1 +:+ NUL +:+ p1;
           plainSaslClient.password := p2 |}
  = Start {| plainSaslClient.username := u1;
             plainSaslClient.password := p1 +:+ NUL +:+ p2 |}.
Proof.
  cbn [Start plainSaslClient_SaslClient plainSaslClient.username
         plainSaslClient.password].
  rewrite !plain_payload. split.
  - intros H1 H2 [= Heq]. exact (NUL_delimits u1 u2 p1 p2 H1 H2 Heq).
  - do 3 f_equal. rewrite !append_assoc. reflexivity.
Qed.

Lemma plain_payload_identifies_witness :
  ("user" = "user" /\ "pencil" = "pencil") /\
  Start {| plainSaslClient.username := "a" +:+ NUL +:+ "b";
           plainSaslClient.password := "c" |}
  = Start {| plainSaslClient.username := "a";
             plainSaslClient.password := "b" +:+ NUL +:+ "c" |}.
Proof.
  split.
  - exact (proj1 (plain_payload_identifies "user" "pencil" "user" "pencil")
             eq_refl eq_refl eq_refl).
  - exact (proj2 (plain_payload_identifies "a" "b" "a" "c")).
Defined.

Lemma concat_glue (s : string) (l : list string) :
  String.concat "_" (s :: l) = s +:+ mongo.glue l.
Proof.
  revert s. induction l as [|t l IH]; intros s.
  - cbn. symmetry. apply append_nil_r.
  - change (String.concat "_" (s :: t :: l))
      with (s +:+ "_" +:+ String.concat "_" (t :: l)).
    rewrite IH. reflexivity.
Qed.

Lemma range_elems_rest (elems : list mongo.Element.t) : forall name segments,
  mapM mongo.segment elems = Some segments ->
  mongo.range_elems elems name false = (name +:+ mongo.glue segments, None).
Proof.
  induction elems as [|elem elems IH]; intros name segments Hs.
  - injection Hs as <-. cbn. rewrite append_nil_r. reflexivity.
  - apply mapM_Some in Hs. inversion Hs as [|? s ? rest Hseg Hrest]; subst.
    apply mapM_Some in Hrest. unfold mongo.segment in Hseg.
    cbn [mongo.range_elems negb].
    destruct (mongo.Element.Value elem); try discriminate;
      injection Hseg as <-; rewrite (IH _ _ Hrest);
      cbn [mongo.glue foldr]; fold (mongo.glue rest);
      rewrite !append_assoc; reflexivity.
Qed.

Lemma range_elems_first (elems : list mongo.Element.t) : forall segments,
  mapM mongo.segment elems = Some segments ->
  mongo.range_elems elems EmptyString true = (String.concat "_" segments, None).
Proof.
  destruct elems as [|elem elems]; intros segments Hs.
  - injection Hs as <-. reflexivity.
  - apply mapM_Some in Hs. inversion Hs as [|? s ? rest Hseg Hrest]; subst.
    apply mapM_Some in Hrest. unfold mongo.segment in Hseg.
    rewrite concat_glue. cbn [mongo.range_elems negb].
    destruct (mongo.Element.Value elem); try discriminate;
      injection Hseg as <-; rewrite (range_elems_rest _ _ _ Hrest);
      change (EmptyString +:+ mongo.Element.Key elem)
        with (mongo.Element.Key elem);
      rewrite !append_assoc; reflexivity.
Qed.

Lemma range_elems_invalid (elems : list mongo.Element.t) : forall name first,
  mapM mongo.segment elems = None ->
  mongo.range_elems elems name first
  = (EmptyString, Some mongo.ErrInvalidIndexValue).
Proof.
  induction elems as [|elem elems IH]; intros name first Hs; [discriminate|].
  cbn [mongo.range_elems].
  assert (Hrest : mongo.segment elem <> None -> mapM mongo.segment elems = None).
  { intros Hne. apply mapM_None in Hs. apply mapM_None.
    inversion Hs; subst; [contradiction|assumption]. }
  unfold mongo.segment in Hrest.
  destruct (mongo.Element.Value elem); try reflexivity;
    apply IH, Hrest; discriminate.
Qed.

(** The name that is generated for an index without a name of its own: for
    a key document whose values are all 32-bit integers, 64-bit integers or
    strings it is, key after key, the key, an underscore and the value (an
    integer in decimal), the keys joined by underscores; for a key document
    without keys it is the empty string. *)
Theorem getOrGenerateIndexName_generated (keySpecDocument : mongo.Document)
    (model : mongo.IndexModel.t) (elems : list mongo.Element.t)
    (segments : list string) :
  mongo.explicit_name model = None ->
  mongo.Elements keySpecDocument = (elems, None) ->
  mapM mongo.segment elems = Some segments ->
  mongo.getOrGenerateIndexName keySpecDocument model
  = (String.concat "_" segments, None).
Proof.
  intros Hname Helems Hseg. unfold mongo.getOrGenerateIndexName.
  rewrite Helems, (range_elems_first elems segments Hseg).
  unfold mongo.explicit_name in Hname.
  destruct (mongo.IndexModel.Options model) as [[]|]; [|reflexivity].
  cbn in Hname. subst. reflexivity.
Qed.

Lemma getOrGenerateIndexName_generated_witness :
  mongo.getOrGenerateIndexName
    (mongo.wellformed
       [ {| mongo.Element.Key := "a"; mongo.Element.Value := mongo.Value.Int32 1 |};
         {| mongo.Element.Key := "b"; mongo.Element.Value := mongo.Value.Int64 (-1) |};
         {| mongo.Element.Key := "c";
            mongo.Element.Value := mongo.Value.StringValue "text" |} ])
    {| mongo.IndexModel.Keys := None;
       mongo.IndexModel.Options := None |}
  = ("a_1_b_-1_c_text", None).
Proof.
  exact (getOrGenerateIndexName_generated
           (mongo.wellformed
              [ {| mongo.Element.Key := "a";
                   mongo.Element.Value := mongo.Value.Int32 1 |};
                {| mongo.Element.Key := "b";
                   mongo.Element.Value := mongo.Value.Int64 (-1) |};
                {| mongo.Element.Key := "c";
                   mongo.Element.Value := mongo.Value.StringValue "text" |} ])
           {| mongo.IndexModel.Keys := None;
              mongo.IndexModel.Options := None |}
           _ ["a_1"; "b_-1"; "c_text"] eq_refl eq_refl eq_refl).
Defined.

(** When [getOrGenerateIndexName] fails.  A name given in the options is
    returned as it is, whatever the key document holds.  Without one, the
    call fails exactly when the key document cannot be read, with the error
    of reading it, or when one of its values is neither a 32-bit integer, a
    64-bit integer nor a string, with [ErrInvalidIndexValue]; the name
    returned with an error is empty. *)
Theorem getOrGenerateIndexName_fails (keySpecDocument : mongo.Document)
    (model : mongo.IndexModel.t) :
  (forall name,
     mongo.explicit_name model = Some name ->
     mongo.getOrGenerateIndexName keySpecDocument model = (name, None)) /\
  (forall err,
     snd (mongo.getOrGenerateIndexName keySpecDocument model) = Some err <->
     mongo.explicit_name model = None /\
     (keySpecDocument = mongo.malformed err \/
      exists elems,
        keySpecDocument = mongo.wellformed elems /\
        err = mongo.ErrInvalidIndexValue /\
        Exists (fun elem =>
                  forall n s,
                    mongo.Element.Value elem <> mongo.Value.Int32 n /\
                    mongo.Element.Value elem <> mongo.Value.Int64 n /\
                    mongo.Element.Value elem <> mongo.Value.StringValue s)
          elems)) /\
  (snd (mongo.getOrGenerateIndexName keySpecDocument model) <> None ->
   fst (mongo.getOrGenerateIndexName keySpecDocument model) = EmptyString).
Proof.
  assert (Hinv : forall elem,
            mongo.segment elem = None <->
            forall n s,
              mongo.Element.Value elem <> mongo.Value.Int32 n /\
              mongo.Element.Value elem <> mongo.Value.Int64 n /\
              mongo.Element.Value elem <> mongo.Value.StringValue s).
  { intros elem. unfold mongo.segment.
    destruct (mongo.Element.Value elem) as [f|s0|d|b|n0|n0|ty]; split;
      try discriminate; try reflexivity;
      try (intros _ n s; repeat split; discriminate);
      intros H; exfalso;
      first [apply (proj1 (H n0 EmptyString)); reflexivity
            |apply (proj1 (proj2 (H n0 EmptyString))); reflexivity
            |apply (proj2 (proj2 (H 0%Z s0))); reflexivity]. }
  assert (Hex : forall elems,
            mapM mongo.segment elems = None <->
            Exists (fun elem =>
                      forall n s,
                        mongo.Element.Value elem <> mongo.Value.Int32 n /\
                        mongo.Element.Value elem <> mongo.Value.Int64 n /\
                        mongo.Element.Value elem <> mongo.Value.StringValue s)
              elems).
  { intros elems. rewrite mapM_None.
    split; intros H; (eapply Exists_impl; [exact H|]); intros elem; apply Hinv. }
  unfold mongo.getOrGenerateIndexName, mongo.explicit_name.
  destruct (mongo.IndexModel.Options model) as [[? [name|]]|];
    cbn [mongo.IndexOptions.Name].
  - split; [intros ? [= <-]; reflexivity|].
    split; [|intros H; exfalso; apply H; reflexivity].
    intros err. split; [discriminate|intros [? _]; discriminate].
  - split; [discriminate|].
    destruct keySpecDocument as [elems|e]; cbn [mongo.Elements].
    + destruct (mapM mongo.segment elems) as [segments|] eqn:Hs.
      * rewrite (range_elems_first elems segments Hs). cbn [fst snd].
        split; [|intros H; exfalso; apply H; reflexivity].
        intros err. split; [discriminate|].
        intros [_ [H|(elems' & [= <-] & _ & H)]]; [discriminate|].
        apply Hex in H. congruence.
      * rewrite (range_elems_invalid elems _ _ Hs). cbn [fst snd].
        split; [|reflexivity].
        intros err. split.
        -- intros [= <-]. split; [reflexivity|]. right. exists elems.
           split; [reflexivity|]. split; [reflexivity|]. apply Hex. exact Hs.
        -- intros [_ [H|(elems' & _ & -> & _)]]; [discriminate|reflexivity].
    + cbn [fst snd]. split; [|reflexivity].
      intros err. split.
      * intros [= <-]. auto.
      * intros [_ [[= <-]|(elems' & H & _)]]; [reflexivity|discriminate].
  - split; [discriminate|].
    destruct keySpecDocument as [elems|e]; cbn [mongo.Elements].
    + destruct (mapM mongo.segment elems) as [segments|] eqn:Hs.
      * rewrite (range_elems_first elems segments Hs). cbn [fst snd].
        split; [|intros H; exfalso; apply H; reflexivity].
        intros err. split; [discriminate|].
        intros [_ [H|(elems' & [= <-] & _ & H)]]; [discriminate|].
        apply Hex in H. congruence.
      * rewrite (range_elems_invalid elems _ _ Hs). cbn [fst snd].
        split; [|reflexivity].
        intros err. split.
        -- intros [= <-]. split; [reflexivity|]. right. exists elems.
           split; [reflexivity|]. split; [reflexivity|]. apply Hex. exact Hs.
        -- intros [_ [H|(elems' & _ & -> & _)]]; [discriminate|reflexivity].
    + cbn [fst snd]. split; [|reflexivity].
      intros err. split.
      * intros [= <-]. auto.
      * intros [_ [[= <-]|(elems' & H & _)]]; [reflexivity|discriminate].
Qed.

Lemma getOrGenerateIndexName_fails_witness :
  mongo.getOrGenerateIndexName
    (mongo.wellformed
       [ {| mongo.Element.Key := "a";
            mongo.Element.Value := mongo.Value.other 8 |} ])
    {| mongo.IndexModel.Keys := None;
       mongo.IndexModel.Options := Some (mongo.SetName "by_a" mongo.Index) |}
  = ("by_a", None).
Proof.
  exact (proj1 (getOrGenerateIndexName_fails
                  (mongo.wellformed
                     [ {| mongo.Element.Key := "a";
                          mongo.Element.Value := mongo.Value.other 8 |} ])
                  {| mongo.IndexModel.Keys := None;
                     mongo.IndexModel.Options :=
                       Some (mongo.SetName "by_a" mongo.Index) |})
           "by_a" eq_refl).
Defined.

Lemma marshalled_inr marshal d key o d' :
  mongo.marshalled marshal d key o = inr d' ->
  (o = None /\ d' = d) \/
  (exists val doc,
     o = Some val /\ marshal val = (doc, None) /\
     d' = mongo.AppendDocumentElement d key doc).
Proof.
  unfold mongo.marshalled. destruct o as [val|]; [|intros [= <-]; auto].
  destruct (marshal val) as [doc [err|]] eqn:Hm; [discriminate|].
  intros [= <-]. right. eauto.
Qed.

Lemma marshalled_inl marshal d key o err :
  mongo.marshalled marshal d key o = inl err ->
  exists val, o = Some val /\ snd (marshal val) = Some err.
Proof.
  unfold mongo.marshalled. destruct o as [val|]; [|discriminate].
  destruct (marshal val) as [doc [err'|]] eqn:Hm; [|discriminate].
  intros [= <-]. exists val. rewrite Hm. auto.
Qed.

Ltac in_order :=
  repeat first [apply sublist_nil | apply sublist_skip | apply sublist_cons].

Ltac find_name :=
  let Hin := fresh "Hin" in
  intros name; split;
  [ intros Hin;
    repeat (apply elem_of_app in Hin; destruct Hin as [Hin|Hin]);
    repeat (apply elem_of_cons in Hin;
            destruct Hin as [Hin|Hin];
            [first [discriminate Hin | injection Hin as ->; reflexivity]|]);
    first [apply elem_of_nil in Hin; contradiction | tauto]
  | intros Hin;
    first [discriminate Hin
          |injection Hin as ->;
           repeat first [apply list_elem_of_here | apply list_elem_of_further]
          |tauto] ].

Lemma written_more opts d keys n added new m :
  written opts d keys n ->
  Forall (fun e => mongo.Element.Key e <> "name") added ->
  map mongo.Element.Key added `sublist_of` new ->
  length added = m ->
  written opts (d ++ added) (keys ++ new) (n + m).
Proof.
  intros (Hs & Hl & Hn) Hadded Hnew Hm. split; [|split].
  - rewrite map_app. apply sublist_app; assumption.
  - rewrite length_app. lia.
  - intros name. rewrite <- (Hn name), elem_of_app. split; [|auto].
    intros [Hin|Hin]; [exact Hin|exfalso].
    rewrite Forall_forall in Hadded. exact (Hadded _ Hin eq_refl).
Qed.

Ltac extend H :=
  unfold mongo.AppendInt32Element, mongo.AppendStringElement,
    mongo.AppendBooleanElement, mongo.AppendDoubleElement,
    mongo.AppendDocumentElement;
  rewrite <- ?(app_assoc (A := mongo.Element.t));
  lazymatch goal with
  | |- written _ (?d ++ ?added) _ _ => idtac
  | |- written _ ?d _ _ => rewrite <- (app_nil_r d)
  end;
  lazymatch type of H with
  | written ?o ?d0 ?keys ?n =>
      lazymatch goal with
      | |- written _ (_ ++ ?added) (_ ++ ?new)%list (_ + ?m)%nat =>
          apply (written_more o d0 keys n added new m H)
      end
  end;
  [ repeat constructor; discriminate
  | cbn [map mongo.Element.Key app]; in_order
  | reflexivity ].

(** The options document that [createOptionsDoc] builds.  It fails exactly
    when an option that goes through [marshal] is set and cannot be
    marshalled, and then with the error of [marshal].  Otherwise the document
    has one element for every option that is set; its keys follow the order
    of [option_keys], none of them twice; and it holds the name that the
    options hold, if any. *)
Theorem createOptionsDoc_elements (marshal : mongo.any -> mongo.raw * option mongo.error)
    (opts : mongo.IndexOptions.t) :
  match mongo.createOptionsDoc marshal opts with
  | (Some optsDoc, None) =>
      map mongo.Element.Key optsDoc `sublist_of` mongo.option_keys /\
      length optsDoc = mongo.options_set opts /\
      (forall name,
         {| mongo.Element.Key := "name";
            mongo.Element.Value := mongo.Value.StringValue name |} ∈ optsDoc <->
         mongo.IndexOptions.Name opts = Some name) /\
      Forall (fun val => snd (marshal val) = None)
        (mongo.marshalled_options opts)
  | (None, Some err) =>
      exists val,
        val ∈ mongo.marshalled_options opts /\ snd (marshal val) = Some err
  | _ => False
  end.
Proof.
  unfold mongo.createOptionsDoc. cbv zeta.
  set (ok := fun o : option mongo.any =>
               match o with
               | Some val => snd (marshal val) = None
               | None => True
               end).
  (* expireAfterSeconds, name, sparse *)
  match goal with
  | |- context [mongo.marshalled marshal ?T "storageEngine" _] => set (d1 := T)
  end.
  assert (H1 : written opts d1 ["expireAfterSeconds"; "name"; "sparse"]
                 (mongo.is_set (mongo.IndexOptions.ExpireAfterSeconds opts)
                  + mongo.is_set (mongo.IndexOptions.Name opts)
                  + mongo.is_set (mongo.IndexOptions.Sparse opts))).
  { subst d1. unfold written.
    destruct (mongo.IndexOptions.ExpireAfterSeconds opts),
      (mongo.IndexOptions.Name opts), (mongo.IndexOptions.Sparse opts);
      (split; [cbn; in_order|split; [reflexivity|cbn; find_name]]). }
  clearbody d1.
  (* storageEngine *)
  destruct (mongo.marshalled marshal d1 "storageEngine" _) as [err|d2] eqn:Hm.
  { apply marshalled_inl in Hm. destruct Hm as (val & Ho & Hm).
    exists val. split; [|exact Hm]. unfold mongo.marshalled_options.
    rewrite Ho. cbn. apply list_elem_of_here. }
  apply marshalled_inr in Hm.
  assert (H2 : written opts d2
                 (["expireAfterSeconds"; "name"; "sparse"] ++ ["storageEngine"])
                 (mongo.is_set (mongo.IndexOptions.ExpireAfterSeconds opts)
                  + mongo.is_set (mongo.IndexOptions.Name opts)
                  + mongo.is_set (mongo.IndexOptions.Sparse opts)
                  + mongo.is_set (mongo.IndexOptions.StorageEngine opts)) /\
               ok (mongo.IndexOptions.StorageEngine opts)).
  { destruct Hm as [[-> ->]|(val & doc & -> & Hm & ->)];
      (split; [extend H1|cbn; rewrite ?Hm; reflexivity]). }
  clear Hm H1. destruct H2 as [H2 Hok1]. cbv beta iota.
  (* unique, v, default_language, language_override, textIndexVersion *)
  match goal with
  | |- context [mongo.marshalled marshal ?T "weights" _] => set (d3 := T)
  end.
  assert (H3 : written opts d3
                 ((["expireAfterSeconds"; "name"; "sparse"] ++ ["storageEngine"])
                  ++ ["unique"; "v"; "default_language"; "language_override";
                      "textIndexVersion"])
                 (mongo.is_set (mongo.IndexOptions.ExpireAfterSeconds opts)
                  + mongo.is_set (mongo.IndexOptions.Name opts)
                  + mongo.is_set (mongo.IndexOptions.Sparse opts)
                  + mongo.is_set (mongo.IndexOptions.StorageEngine opts)
                  + (mongo.is_set (mongo.IndexOptions.Unique opts)
                     + mongo.is_set (mongo.IndexOptions.Version opts)
                     + mongo.is_set (mongo.IndexOptions.DefaultLanguage opts)
                     + mongo.is_set (mongo.IndexOptions.LanguageOverride opts)
                     + mongo.is_set (mongo.IndexOptions.TextVersion opts)))).
  { subst d3.
    destruct (mongo.IndexOptions.Unique opts),
      (mongo.IndexOptions.Version opts),
      (mongo.IndexOptions.DefaultLanguage opts),
      (mongo.IndexOptions.LanguageOverride opts),
      (mongo.IndexOptions.TextVersion opts); extend H2. }
  clearbody d3. clear H2.
  (* weights *)
  destruct (mongo.marshalled marshal d3 "weights" _) as [err|d4] eqn:Hm.
  { apply marshalled_inl in Hm. destruct Hm as (val & Ho & Hm).
    exists val. split; [|exact Hm]. unfold mongo.marshalled_options.
    rewrite Ho. destruct (mongo.IndexOptions.StorageEngine opts); cbn;
      repeat first [apply list_elem_of_here | apply list_elem_of_further]. }
  apply marshalled_inr in Hm.
  assert (H4 : written opts d4
                 (((["expireAfterSeconds"; "name"; "sparse"] ++ ["storageEngine"])
                   ++ ["unique"; "v"; "default_language"; "language_override";
                       "textIndexVersion"]) ++ ["weights"])
                 (mongo.is_set (mongo.IndexOptions.ExpireAfterSeconds opts)
                  + mongo.is_set (mongo.IndexOptions.Name opts)
                  + mongo.is_set (mongo.IndexOptions.Sparse opts)
                  + mongo.is_set (mongo.IndexOptions.StorageEngine opts)
                  + (mongo.is_set (mongo.IndexOptions.Unique opts)
                     + mongo.is_set (mongo.IndexOptions.Version opts)
                     + mongo.is_set (mongo.IndexOptions.DefaultLanguage opts)
                     + mongo.is_set (mongo.IndexOptions.LanguageOverride opts)
                     + mongo.is_set (mongo.IndexOptions.TextVersion opts))
                  + mongo.is_set (mongo.IndexOptions.Weights opts)) /\
               ok (mongo.IndexOptions.Weights opts)).
  { destruct Hm as [[-> ->]|(val & doc & -> & Hm & ->)];
      (split; [extend H3|cbn; rewrite ?Hm; reflexivity]). }
  clear Hm H3. destruct H4 as [H4 Hok2]. cbv beta iota.
  (* 2dsphereIndexVersion, bits, max, min, bucketSize *)
  match goal with
  | |- context [mongo.marshalled marshal ?T "partialFilterExpression" _] =>
      set (d5 := T)
  end.
  assert (H5 : written opts d5
                 ((((["expireAfterSeconds"; "name"; "sparse"] ++ ["storageEngine"])
                    ++ ["unique"; "v"; "default_language"; "language_override";
                        "textIndexVersion"]) ++ ["weights"])
                  ++ ["2dsphereIndexVersion"; "bits"; "max"; "min"; "bucketSize"])
                 (mongo.is_set (mongo.IndexOptions.ExpireAfterSeconds opts)
                  + mongo.is_set (mongo.IndexOptions.Name opts)
                  + mongo.is_set (mongo.IndexOptions.Sparse opts)
                  + mongo.is_set (mongo.IndexOptions.StorageEngine opts)
                  + (mongo.is_set (mongo.IndexOptions.Unique opts)
                     + mongo.is_set (mongo.IndexOptions.Version opts)
                     + mongo.is_set (mongo.IndexOptions.DefaultLanguage opts)
                     + mongo.is_set (mongo.IndexOptions.LanguageOverride opts)
                     + mongo.is_set (mongo.IndexOptions.TextVersion opts))
                  + mongo.is_set (mongo.IndexOptions.Weights opts)
                  + (mongo.is_set (mongo.IndexOptions.SphereVersion opts)
                     + mongo.is_set (mongo.IndexOptions.Bits opts)
                     + mongo.is_set (mongo.IndexOptions.Max opts)
                     + mongo.is_set (mongo.IndexOptions.Min opts)
                     + mongo.is_set (mongo.IndexOptions.BucketSize opts)))).
  { subst d5.
    destruct (mongo.IndexOptions.SphereVersion opts),
      (mongo.IndexOptions.Bits opts), (mongo.IndexOptions.Max opts),
      (mongo.IndexOptions.Min opts), (mongo.IndexOptions.BucketSize opts);
      extend H4. }
  clearbody d5. clear H4.
  (* partialFilterExpression *)
  destruct (mongo.marshalled marshal d5 "partialFilterExpression" _)
    as [err|d6] eqn:Hm.
  { apply marshalled_inl in Hm. destruct Hm as (val & Ho & Hm).
    exists val. split; [|exact Hm]. unfold mongo.marshalled_options.
    rewrite Ho. destruct (mongo.IndexOptions.StorageEngine opts),
      (mongo.IndexOptions.Weights opts); cbn;
      repeat first [apply list_elem_of_here | apply list_elem_of_further]. }
  apply marshalled_inr in Hm.
  assert (H6 : written opts d6
                 (((((["expireAfterSeconds"; "name"; "sparse"] ++ ["storageEngine"])
                     ++ ["unique"; "v"; "default_language"; "language_override";
                         "textIndexVersion"]) ++ ["weights"])
                   ++ ["2dsphereIndexVersion"; "bits"; "max"; "min"; "bucketSize"])
                  ++ ["partialFilterExpression"])
                 (mongo.is_set (mongo.IndexOptions.ExpireAfterSeconds opts)
                  + mongo.is_set (mongo.IndexOptions.Name opts)
                  + mongo.is_set (mongo.IndexOptions.Sparse opts)
                  + mongo.is_set (mongo.IndexOptions.StorageEngine opts)
                  + (mongo.is_set (mongo.IndexOptions.Unique opts)
                     + mongo.is_set (mongo.IndexOptions.Version opts)
                     + mongo.is_set (mongo.IndexOptions.DefaultLanguage opts)
                     + mongo.is_set (mongo.IndexOptions.LanguageOverride opts)
                     + mongo.is_set (mongo.IndexOptions.TextVersion opts))
                  + mongo.is_set (mongo.IndexOptions.Weights opts)
                  + (mongo.is_set (mongo.IndexOptions.SphereVersion opts)
                     + mongo.is_set (mongo.IndexOptions.Bits opts)
                     + mongo.is_set (mongo.IndexOptions.Max opts)
                     + mongo.is_set (mongo.IndexOptions.Min opts)
                     + mongo.is_set (mongo.IndexOptions.BucketSize opts))
                  + mongo.is_set (mongo.IndexOptions.PartialFilterExpression opts)) /\
               ok (mongo.IndexOptions.PartialFilterExpression opts)).
  { destruct Hm as [[-> ->]|(val & doc & -> & Hm & ->)];
      (split; [extend H5|cbn; rewrite ?Hm; reflexivity]). }
  clear Hm H5. destruct H6 as [H6 Hok3]. cbv beta iota.
  (* collation *)
  match goal with
  | |- context [mongo.marshalled marshal ?T "wildcardProjection" _] =>
      set (d7 := T)
  end.
  assert (H7 : written opts d7
                 ((((((["expireAfterSeconds"; "name"; "sparse"] ++ ["storageEngine"])
                      ++ ["unique"; "v"; "default_language"; "language_override";
                          "textIndexVersion"]) ++ ["weights"])
                    ++ ["2dsphereIndexVersion"; "bits"; "max"; "min"; "bucketSize"])
                   ++ ["partialFilterExpression"]) ++ ["collation"])
                 (mongo.is_set (mongo.IndexOptions.ExpireAfterSeconds opts)
                  + mongo.is_set (mongo.IndexOptions.Name opts)
                  + mongo.is_set (mongo.IndexOptions.Sparse opts)
                  + mongo.is_set (mongo.IndexOptions.StorageEngine opts)
                  + (mongo.is_set (mongo.IndexOptions.Unique opts)
                     + mongo.is_set (mongo.IndexOptions.Version opts)
                     + mongo.is_set (mongo.IndexOptions.DefaultLanguage opts)
                     + mongo.is_set (mongo.IndexOptions.LanguageOverride opts)
                     + mongo.is_set (mongo.IndexOptions.TextVersion opts))
                  + mongo.is_set (mongo.IndexOptions.Weights opts)
                  + (mongo.is_set (mongo.IndexOptions.SphereVersion opts)
                     + mongo.is_set (mongo.IndexOptions.Bits opts)
                     + mongo.is_set (mongo.IndexOptions.Max opts)
                     + mongo.is_set (mongo.IndexOptions.Min opts)
                     + mongo.is_set (mongo.IndexOptions.BucketSize opts))
                  + mongo.is_set (mongo.IndexOptions.PartialFilterExpression opts)
                  + mongo.is_set (mongo.IndexOptions.Collation opts))).
  { subst d7. destruct (mongo.IndexOptions.Collation opts); extend H6. }
  clearbody d7. clear H6.
  (* wildcardProjection *)
  destruct (mongo.marshalled marshal d7 "wildcardProjection" _)
    as [err|d8] eqn:Hm.
  { apply marshalled_inl in Hm. destruct Hm as (val & Ho & Hm).
    exists val. split; [|exact Hm]. unfold mongo.marshalled_options.
    rewrite Ho. destruct (mongo.IndexOptions.StorageEngine opts),
      (mongo.IndexOptions.Weights opts),
      (mongo.IndexOptions.PartialFilterExpression opts); cbn;
      repeat first [apply list_elem_of_here | apply list_elem_of_further]. }
  apply marshalled_inr in Hm.
  assert (H8 : written opts d8
                 (((((((["expireAfterSeconds"; "name"; "sparse"] ++ ["storageEngine"])
                       ++ ["unique"; "v"; "default_language"; "language_override";
                           "textIndexVersion"]) ++ ["weights"])
                     ++ ["2dsphereIndexVersion"; "bits"; "max"; "min"; "bucketSize"])
                    ++ ["partialFilterExpression"]) ++ ["collation"])
                  ++ ["wildcardProjection"])
                 (mongo.is_set (mongo.IndexOptions.ExpireAfterSeconds opts)
                  + mongo.is_set (mongo.IndexOptions.Name opts)
                  + mongo.is_set (mongo.IndexOptions.Sparse opts)
                  + mongo.is_set (mongo.IndexOptions.StorageEngine opts)
                  + (mongo.is_set (mongo.IndexOptions.Unique opts)
                     + mongo.is_set (mongo.IndexOptions.Version opts)
                     + mongo.is_set (mongo.IndexOptions.DefaultLanguage opts)
                     + mongo.is_set (mongo.IndexOptions.LanguageOverride opts)
                     + mongo.is_set (mongo.IndexOptions.TextVersion opts))
                  + mongo.is_set (mongo.IndexOptions.Weights opts)
                  + (mongo.is_set (mongo.IndexOptions.SphereVersion opts)
                     + mongo.is_set (mongo.IndexOptions.Bits opts)
                     + mongo.is_set (mongo.IndexOptions.Max opts)
                     + mongo.is_set (mongo.IndexOptions.Min opts)
                     + mongo.is_set (mongo.IndexOptions.BucketSize opts))
                  + mongo.is_set (mongo.IndexOptions.PartialFilterExpression opts)
                  + mongo.is_set (mongo.IndexOptions.Collation opts)
                  + mongo.is_set (mongo.IndexOptions.WildcardProjection opts)) /\
               ok (mongo.IndexOptions.WildcardProjection opts)).
  { destruct Hm as [[-> ->]|(val & doc & -> & Hm & ->)];
      (split; [extend H7|cbn; rewrite ?Hm; reflexivity]). }
  clear Hm H7. destruct H8 as [H8 Hok4]. cbv beta iota.
  (* hidden *)
  match goal with
  | |- map _ ?T `sublist_of` _ /\ _ => set (d9 := T)
  end.
  assert (H9 : written opts d9
                 ((((((((["expireAfterSeconds"; "name"; "sparse"] ++ ["storageEngine"])
                        ++ ["unique"; "v"; "default_language"; "language_override";
                            "textIndexVersion"]) ++ ["weights"])
                      ++ ["2dsphereIndexVersion"; "bits"; "max"; "min"; "bucketSize"])
                     ++ ["partialFilterExpression"]) ++ ["collation"])
                   ++ ["wildcardProjection"]) ++ ["hidden"])
                 (mongo.is_set (mongo.IndexOptions.ExpireAfterSeconds opts)
                  + mongo.is_set (mongo.IndexOptions.Name opts)
                  + mongo.is_set (mongo.IndexOptions.Sparse opts)
                  + mongo.is_set (mongo.IndexOptions.StorageEngine opts)
                  + (mongo.is_set (mongo.IndexOptions.Unique opts)
                     + mongo.is_set (mongo.IndexOptions.Version opts)
                     + mongo.is_set (mongo.IndexOptions.DefaultLanguage opts)
                     + mongo.is_set (mongo.IndexOptions.LanguageOverride opts)
                     + mongo.is_set (mongo.IndexOptions.TextVersion opts))
                  + mongo.is_set (mongo.IndexOptions.Weights opts)
                  + (mongo.is_set (mongo.IndexOptions.SphereVersion opts)
                     + mongo.is_set (mongo.IndexOptions.Bits opts)
                     + mongo.is_set (mongo.IndexOptions.Max opts)
                     + mongo.is_set (mongo.IndexOptions.Min opts)
                     + mongo.is_set (mongo.IndexOptions.BucketSize opts))
                  + mongo.is_set (mongo.IndexOptions.PartialFilterExpression opts)
                  + mongo.is_set (mongo.IndexOptions.Collation opts)
                  + mongo.is_set (mongo.IndexOptions.WildcardProjection opts)
                  + mongo.is_set (mongo.IndexOptions.Hidden opts))).
  { subst d9. destruct (mongo.IndexOptions.Hidden opts); extend H8. }
  clearbody d9. clear H8.
  destruct H9 as (Hs & Hl & Hn).
  split; [exact Hs|]. split; [rewrite Hl; unfold mongo.options_set; lia|].
  split; [exact Hn|].
  unfold mongo.marshalled_options. subst ok. cbv beta in *.
  destruct (mongo.IndexOptions.StorageEngine opts),
    (mongo.IndexOptions.Weights opts),
    (mongo.IndexOptions.PartialFilterExpression opts),
    (mongo.IndexOptions.WildcardProjection opts); cbn;
    repeat constructor; assumption.
Qed.

Lemma createOptionsDoc_elements_witness :
  mongo.createOptionsDoc (fun _ => (mongo.raw_document 0, None))
    (mongo.SetName "a_1" mongo.Index)
  = (Some [ {| mongo.Element.Key := "name";
               mongo.Element.Value := mongo.Value.StringValue "a_1" |} ],
     None).
Proof.
  pose proof (createOptionsDoc_elements (fun _ => (mongo.raw_document 0, None))
                (mongo.SetName "a_1" mongo.Index)) as H.
  destruct (mongo.createOptionsDoc _ _) as [[d|] [e|]] eqn:Hd;
    try contradiction; [|destruct H as (? & _ & [=])].
  vm_compute in Hd. injection Hd as <-. reflexivity.
Defined.
